(** * Field reconciliation, pagination and retry of the BrightSites exporter

    A shallow embedding of [lib/brightSites.js] and of the server module
    ([promisePool], the option/personalization formatters, the row
    assembly of [POST /api/run] and the configured stores), followed by
    the properties the specification states about them and by further
    properties of the code.

    JavaScript values are embedded as the JSON trees the upstream API
    delivers, extended with [undefined].  A number is an integer of
    magnitude below 2^53 or, for any other number, the text it prints
    as.  A string is the sequence of the bytes of its UTF-8 encoding, and
    [trim] strips the white space of ECMAScript, the characters beyond
    ASCII included.  An object is the association list of its own
    properties in the order in which [Object.entries] enumerates them
    (array indices first, in ascending order, then the other keys in the
    order of their creation); the first binding of a key is the one that
    is read.  Exceptions are explicit: an expression that can throw
    evaluates in the [Res] monad.

    Three things of JavaScript have no counterpart in the embedding, and
    the properties below are stated for the values on which they do not
    show.  There are no prototypes: reading a key gives the property of
    the object itself, or [undefined]; none of the keys that the program
    reads is inherited, but [Object.assign] would turn a source key
    [__proto__] into the prototype of its target where [assign1] copies
    it.  Printing never throws: [to_string v] is [String(v)] for every
    [printable] value, while [String], a template literal and
    [Array.prototype.join] throw a [TypeError] for an object that has a
    property [toString] of its own, which in data is never a function.
    A key written for the first time goes last, which is its place in
    the enumeration unless it is an array index.  The values without a
    key [toString] or [__proto__] anywhere inside are the [plain]
    ones. *)

From Stdlib Require Import ZArith String Ascii List Bool Lia DecimalString.
From stdpp Require Import base list.
Import ListNotations.

Local Open Scope string_scope.
Local Open Scope Z_scope.

(** ** JavaScript values and built-ins *)

Module Js.

#[local] Set Warnings "-register-all".

(** A number is the integer it is when it is one of magnitude below
    2^53, which a double holds exactly and prints as its decimal digits,
    and otherwise (a fraction, a number beyond the exact integers) the
    text [Number.prototype.toString] gives for it, which identifies it.
    The program tests numbers for truthiness, compares them for
    sameness and prints them, and does nothing else with the numbers of
    the upstream; [-0] is not told apart from [0] by any of these. *)
Inductive Num : Type :=
| Int (z : Z)
| Dec (printed : string).

Coercion Int : Z >-> Num.

Inductive JsVal : Type :=
| JUndefined
| JNull
| JBool (b : bool)
| JNum (n : Num)
| JStr (s : string)
| JArr (xs : list JsVal)
| JObj (kvs : list (string * JsVal)).

(** Thrown values.  Everything this program throws or has thrown at it is
    an [Error] object: a name and a message. *)
Record JsError : Type := mkError { err_name : string; err_message : string }.

Definition Error (msg : string) : JsError := mkError "Error" msg.
Definition TypeError (msg : string) : JsError := mkError "TypeError" msg.

Inductive Res (A : Type) : Type :=
| Ok (a : A)
| Throw (e : JsError).
Arguments Ok {A} a.
Arguments Throw {A} e.

Definition bind {A B} (m : Res A) (f : A -> Res B) : Res B :=
  match m with
  | Ok a => f a
  | Throw e => Throw e
  end.

Notation "x <- m ;; k" := (bind m (fun x => k))
  (at level 100, m at next level, right associativity).

(** [try { m } catch (e) { h }] *)
Definition try_catch {A} (m : Res A) (h : JsError -> Res A) : Res A :=
  match m with
  | Ok a => Ok a
  | Throw e => h e
  end.

Fixpoint mapM {A B} (f : A -> Res B) (l : list A) : Res (list B) :=
  match l with
  | [] => Ok []
  | x :: r => y <- f x ;; ys <- mapM f r ;; Ok (y :: ys)
  end.

Fixpoint foldM {A B} (f : A -> B -> Res A) (l : list B) (a : A) : Res A :=
  match l with
  | [] => Ok a
  | x :: r => a' <- f a x ;; foldM f r a'
  end.

(** *** Conversions *)

Definition string_of_Z (n : Z) : string := NilZero.string_of_int (Z.to_int n).
Definition string_of_nat (n : nat) : string := NilZero.string_of_uint (Nat.to_uint n).

(** [String(n)] for a number *)
Definition string_of_Num (n : Num) : string :=
  match n with
  | Int z => string_of_Z z
  | Dec printed => printed
  end.

(** Neither [0] nor [NaN] *)
Definition nonzero (n : Num) : bool :=
  match n with
  | Int z => negb (z =? 0)
  | Dec printed => negb (printed =? "0")%string && negb (printed =? "NaN")%string
  end.

(** The same number; [NaN] is the same as itself for [SameValueZero]. *)
Definition same_Num (a b : Num) : bool :=
  match a, b with
  | Int x, Int y => x =? y
  | Dec p, Dec q => (p =? q)%string
  | _, _ => false
  end.

(** ToBoolean *)
Definition truthy (v : JsVal) : bool :=
  match v with
  | JUndefined | JNull => false
  | JBool b => b
  | JNum n => nonzero n
  | JStr s => negb (s =? "")%string
  | JArr _ | JObj _ => true
  end.

Definition nullish (v : JsVal) : bool :=
  match v with
  | JUndefined | JNull => true
  | _ => false
  end.

(** [String(v)], which is also what a template literal does to [v], for
    a [v] that is [printable] (defined below). *)
Fixpoint to_string (v : JsVal) : string :=
  match v with
  | JUndefined => "undefined"
  | JNull => "null"
  | JBool true => "true"
  | JBool false => "false"
  | JNum n => string_of_Num n
  | JStr s => s
  | JArr xs =>
      String.concat ","
        (map (fun x => match x with
                       | JUndefined | JNull => ""
                       | _ => to_string x
                       end) xs)
  | JObj _ => "[object Object]"
  end.

(** The string an array element contributes to [Array.prototype.join]. *)
Definition join_piece (x : JsVal) : string :=
  if nullish x then "" else to_string x.

(** [xs.join(sep)] *)
Definition join (sep : string) (xs : list JsVal) : string :=
  String.concat sep (map join_piece xs).

(** The values that print, and all of whose parts print: no object in
    them has a property among [keys], and their integers have their
    decimal digits as their text. *)
Fixpoint without_keys (keys : list string) (v : JsVal) : bool :=
  match v with
  | JNum (Int z) => Z.abs z <? 2 ^ 53
  | JArr xs => forallb (without_keys keys) xs
  | JObj kvs =>
      forallb (fun kv =>
                 let '(k, x) := kv in
                 negb (existsb (String.eqb k) keys) && without_keys keys x) kvs
  | _ => true
  end.

Definition printable (v : JsVal) : bool := without_keys ["toString"] v.

(** The values that print and that [Object.assign] copies key by key. *)
Definition plain (v : JsVal) : bool := without_keys ["toString"; "__proto__"] v.

Definition is_undefined (v : JsVal) : bool :=
  match v with JUndefined => true | _ => false end.

Definition is_null (v : JsVal) : bool :=
  match v with JNull => true | _ => false end.

(** [v === n] for a number literal [n] *)
Definition is_num (v : JsVal) (n : Z) : bool :=
  match v with JNum m => same_Num m n | _ => false end.

Definition is_array (v : JsVal) : bool :=
  match v with JArr _ => true | _ => false end.

Definition is_string (v : JsVal) : bool :=
  match v with JStr _ => true | _ => false end.

(** [typeof v === 'object'] (true of [null] as well) *)
Definition typeof_object (v : JsVal) : bool :=
  match v with JNull | JArr _ | JObj _ => true | _ => false end.

(** [v === s] for a string literal [s] *)
Definition is_str (v : JsVal) (s : string) : bool :=
  match v with JStr t => (t =? s)%string | _ => false end.

(** SameValueZero, the equality of [Set] and of [includes].  The values
    compared by this program sit at different places of freshly parsed
    JSON, so two arrays or two objects are never the same reference. *)
Definition same_value_zero (a b : JsVal) : bool :=
  match a, b with
  | JUndefined, JUndefined => true
  | JNull, JNull => true
  | JBool x, JBool y => Bool.eqb x y
  | JNum x, JNum y => same_Num x y
  | JStr x, JStr y => (x =? y)%string
  | _, _ => false
  end.

(** [xs.includes(x)] *)
Definition includes (xs : list JsVal) (x : JsVal) : bool :=
  existsb (same_value_zero x) xs.

(** [set.add(x)] on a [Set] kept as the list of its members in insertion
    order, which is the order [Array.from] returns. *)
Definition set_add (found : list JsVal) (x : JsVal) : list JsVal :=
  if includes found x then found else found ++ [x].

(** [new Set(xs)] *)
Definition set_of (xs : list JsVal) : list JsVal := fold_left set_add xs [].

(** *** Strings *)

(** A string is the sequence of the bytes of its UTF-8 encoding. *)
Definition bytes (l : list nat) : string :=
  fold_right (fun n s => String (ascii_of_nat n) s) EmptyString l.

(** The characters [trim] strips, the WhiteSpace and LineTerminator of
    ECMAScript: TAB, LF, VT, FF, CR, SP, U+00A0, U+1680, U+2000 to
    U+200A, U+2028, U+2029, U+202F, U+205F, U+3000 and U+FEFF. *)
Definition white_space : list string :=
  map bytes
    [[9]; [10]; [11]; [12]; [13]; [32]; [194; 160]; [225; 154; 128];
     [226; 128; 128]; [226; 128; 129]; [226; 128; 130]; [226; 128; 131];
     [226; 128; 132]; [226; 128; 133]; [226; 128; 134]; [226; 128; 135];
     [226; 128; 136]; [226; 128; 137]; [226; 128; 138]; [226; 128; 168];
     [226; 128; 169]; [226; 128; 175]; [226; 129; 159]; [227; 128; 128];
     [239; 187; 191]]%nat.

Fixpoint strip_prefix (p s : string) : option string :=
  match p, s with
  | EmptyString, _ => Some s
  | String a p', String b s' => if Ascii.eqb a b then strip_prefix p' s' else None
  | String _ _, EmptyString => None
  end.

Fixpoint strip_any (ps : list string) (s : string) : option string :=
  match ps with
  | [] => None
  | p :: r =>
      match strip_prefix p s with
      | Some t => Some t
      | None => strip_any r s
      end
  end.

(** Strip at most [n] leading characters of those in [ps]. *)
Fixpoint strip_leading (ps : list string) (n : nat) (s : string) : string :=
  match n with
  | O => s
  | S n' =>
      match strip_any ps s with
      | Some t => strip_leading ps n' t
      | None => s
      end
  end.

Definition rev_string (s : string) : string :=
  string_of_list_ascii (rev (list_ascii_of_string s)).

Definition trim_start (s : string) : string :=
  strip_leading white_space (String.length s) s.

Definition trim_end (s : string) : string :=
  rev_string (strip_leading (map rev_string white_space) (String.length s)
                (rev_string s)).

(** [s.trim()] *)
Definition trim (s : string) : string := trim_end (trim_start s).

Definition double_quote : string := String (ascii_of_nat 34) EmptyString.

(** [(x || '').trim()], where [receiver] is [x]: only strings have the
    method.  The engine names the receiver in the message as it prints
    the expression, [(x || "")]. *)
Definition call_trim (receiver : string) (v : JsVal) : Res string :=
  match v with
  | JStr s => Ok (trim s)
  | JUndefined | JNull =>
      Throw (TypeError ("Cannot read properties of " ++ to_string v
                        ++ " (reading 'trim')"))
  | _ => Throw (TypeError ("(" ++ receiver ++ " || " ++ double_quote ++ double_quote
                           ++ ").trim is not a function"))
  end.

(** A byte that continues a character, [10xxxxxx]. *)
Definition is_continuation (c : ascii) : bool :=
  (128 <=? nat_of_ascii c)%nat && (nat_of_ascii c <? 192)%nat.

(** The characters of a string, which [for ... of] visits. *)
Fixpoint code_points (s : string) : list string :=
  match s with
  | EmptyString => []
  | String c r =>
      match code_points r with
      | String d p :: ps =>
          if is_continuation d then String c (String d p) :: ps
          else String c EmptyString :: String d p :: ps
      | ps => String c EmptyString :: ps
      end
  end.

(** [s.length]: the number of UTF-16 code units, two for a character
    that takes four bytes. *)
Fixpoint utf16_length (s : string) : nat :=
  match s with
  | EmptyString => O
  | String c r =>
      (if is_continuation c then 0
       else if (240 <=? nat_of_ascii c)%nat then 2 else 1) + utf16_length r
  end.

(** *** Objects and property access *)

Fixpoint assoc (k : string) (kvs : list (string * JsVal)) : option JsVal :=
  match kvs with
  | [] => None
  | (k', v) :: r => if (k' =? k)%string then Some v else assoc k r
  end.

(** [obj[k] = v] on the own properties: an existing key keeps its place,
    a new key goes last. *)
Fixpoint set_key (k : string) (v : JsVal) (kvs : list (string * JsVal))
  : list (string * JsVal) :=
  match kvs with
  | [] => [(k, v)]
  | (k', v') :: r =>
      if (k' =? k)%string then (k', v) :: r else (k', v') :: set_key k v r
  end.

Fixpoint indexed_from (i : nat) (xs : list JsVal) : list (string * JsVal) :=
  match xs with
  | [] => []
  | x :: r => (string_of_nat i, x) :: indexed_from (S i) r
  end.

Definition chars_of (s : string) : list JsVal := map JStr (code_points s).

(** An array index, which the enumeration of the keys of an object puts
    first: the decimal digits of an integer from 0 to 2^32 - 2. *)
Definition array_index (k : string) : bool :=
  match NilZero.uint_of_string k with
  | Some d =>
      (NilZero.string_of_uint (Decimal.unorm d) =? k)%string
      && (Z.of_N (N.of_uint d) <? 2 ^ 32 - 1)
  | None => false
  end.

(** The own enumerable string-keyed properties, as [Object.entries] and
    [Object.assign] see them.  Those of a string are its characters; a
    character outside the Basic Multilingual Plane, which JavaScript
    holds as two code units, is one entry here. *)
Definition own_entries (v : JsVal) : list (string * JsVal) :=
  match v with
  | JObj kvs => kvs
  | JArr xs => indexed_from 0 xs
  | JStr s => indexed_from 0 (chars_of s)
  | _ => []
  end.

(** The value of [v[k]] for a [v] that is neither [null] nor [undefined].
    Methods inherited from the prototypes are not values of this model;
    no key this program reads names one. *)
Definition prop_of (v : JsVal) (k : string) : JsVal :=
  match v with
  | JArr xs =>
      if (k =? "length")%string then JNum (Z.of_nat (length xs))
      else default JUndefined (assoc k (own_entries v))
  | JStr s =>
      if (k =? "length")%string then JNum (Z.of_nat (utf16_length s))
      else default JUndefined (assoc k (own_entries v))
  | _ => default JUndefined (assoc k (own_entries v))
  end.

(** [v.k] and [v[k]]: reading a property of [null] or [undefined] throws. *)
Definition prop (v : JsVal) (k : string) : Res JsVal :=
  if nullish v
  then Throw (TypeError ("Cannot read properties of " ++ to_string v
                         ++ " (reading '" ++ k ++ "')"))
  else Ok (prop_of v k).

(** [Object.assign(target, src)] for one source; [null] and [undefined]
    sources have no entries.  For a [plain] source: a key [__proto__]
    would be copied here and set the prototype there. *)
Definition assign1 (target : list (string * JsVal)) (src : JsVal)
  : list (string * JsVal) :=
  fold_left (fun acc kv => set_key (fst kv) (snd kv) acc) (own_entries src) target.

(** [Object.assign({}, s1, ..., sn)] *)
Definition object_assign (srcs : list JsVal) : JsVal :=
  JObj (fold_left assign1 srcs []).

(** [a || b] on two values *)
Definition or_val (a b : JsVal) : JsVal := if truthy a then a else b.

(** [a || b] and [a && b] with a right operand that is evaluated, and may
    throw, only when it is needed. *)
Definition orM (a : Res JsVal) (b : Res JsVal) : Res JsVal :=
  x <- a ;; if truthy x then Ok x else b.
Definition andM (a : Res JsVal) (b : Res JsVal) : Res JsVal :=
  x <- a ;; if truthy x then b else Ok x.

Notation "a ||| b" := (orM a b) (at level 50, left associativity).
Notation "a &&& b" := (andM a b) (at level 40, left associativity).

(** The receiver of an array method: [v.map(...)], [v.forEach(...)] and
    the like throw when [v] is not an array. *)
Definition as_array (method : string) (v : JsVal) : Res (list JsVal) :=
  match v with
  | JArr xs => Ok xs
  | JUndefined | JNull =>
      Throw (TypeError ("Cannot read properties of " ++ to_string v
                        ++ " (reading '" ++ method ++ "')"))
  | _ => Throw (TypeError (method ++ " is not a function"))
  end.

(** [xs.filter(Boolean)] *)
Definition filter_Boolean (xs : list JsVal) : list JsVal :=
  List.filter truthy xs.

(** *** JSON.stringify *)

Definition hex_digit (n : nat) : ascii :=
  ascii_of_nat (if (n <? 10)%nat then 48 + n else 87 + n).

Definition json_escape_char (c : ascii) : string :=
  match nat_of_ascii c with
  | 34%nat => String (ascii_of_nat 92) (String c EmptyString)
  | 92%nat => String c (String c EmptyString)
  | 8%nat => String (ascii_of_nat 92) "b"
  | 9%nat => String (ascii_of_nat 92) "t"
  | 10%nat => String (ascii_of_nat 92) "n"
  | 12%nat => String (ascii_of_nat 92) "f"
  | 13%nat => String (ascii_of_nat 92) "r"
  | n =>
      if (n <? 32)%nat
      then String (ascii_of_nat 92)
             ("u00" ++ String (hex_digit (n / 16))
                         (String (hex_digit (n mod 16)) EmptyString))
      else String c EmptyString
  end.

Fixpoint json_escape (s : string) : string :=
  match s with
  | EmptyString => EmptyString
  | String c r => json_escape_char c ++ json_escape r
  end.

Definition json_quote (s : string) : string :=
  String (ascii_of_nat 34) (json_escape s ++ String (ascii_of_nat 34) EmptyString).

Fixpoint json_text (v : JsVal) : string :=
  match v with
  | JUndefined | JNull => "null"
  | JBool true => "true"
  | JBool false => "false"
  | JNum (Int z) => string_of_Z z
  | JNum (Dec printed) =>
      if (printed =? "NaN")%string || (printed =? "Infinity")%string
         || (printed =? "-Infinity")%string
      then "null" else printed
  | JStr s => json_quote s
  | JArr xs => "[" ++ String.concat "," (map json_text xs) ++ "]"
  | JObj kvs =>
      "{" ++ String.concat ","
               (flat_map (fun kv =>
                            let '(k, x) := kv in
                            if is_undefined x then []
                            else [json_quote k ++ ":" ++ json_text x]) kvs)
          ++ "}"
  end.

(** [JSON.stringify(v)]: [undefined] at the top is returned as it is. *)
Definition JSON_stringify (v : JsVal) : JsVal :=
  match v with
  | JUndefined => JUndefined
  | _ => JStr (json_text v)
  end.

End Js.

(** ** lib/brightSites.js *)

Module BrightSites.
Import Js.

(** *** The transport

    [node-fetch] is outside the program.  A request is identified by the
    pieces its URL is assembled from (the percent-encoding of
    [URLSearchParams] is not modelled); a call either resolves with a
    response or rejects with an error, and may change the state of the
    world.  [SUBDOMAIN] and [TOKEN] are the two values read from the
    process environment when the module is loaded. *)

Record Url : Type := mkUrl {
  url_base : string;
  url_path : string;
  url_query : list (string * string)
}.

Record Response : Type := mkResponse {
  status : Z;
  statusText : string;
  text : Res string;   (* what [res.text()] settles to *)
  json : Res JsVal     (* what [res.json()] settles to *)
}.

(** [res.ok]: the status is in the range 200-299. *)
Definition ok (res : Response) : bool :=
  (200 <=? status res) && (status res <=? 299).

Inductive FetchResult : Type :=
| Resolved (res : Response)
| Rejected (e : JsError).

Class Runtime : Type := {
  World : Type;
  fetch : Url -> World -> FetchResult * World;
  SUBDOMAIN : JsVal;
  TOKEN : JsVal
}.

(** What an asynchronous function does to the outside: the requests it
    issues, the timers it waits for and the warnings it prints. *)
Inductive Event : Type :=
| EvFetch (url : Url)
| EvSleep (ms : Z)
| EvWarn (label msg : string).

Section Async.
Context {R : Runtime}.

Record State : Type := mkState { world : World; trace : list Event }.

(** An asynchronous computation: it settles (resolves or rejects) in a
    new state, or the fuel of a loop ran out ([None]). *)
Definition M (A : Type) : Type := State -> option (Res A * State).

Definition ret {A} (a : A) : M A := fun st => Some (Ok a, st).
Definition throw {A} (e : JsError) : M A := fun st => Some (Throw e, st).
Definition out_of_fuel {A} : M A := fun _ => None.
Definition liftR {A} (r : Res A) : M A := fun st => Some (r, st).

Definition bindM {A B} (m : M A) (f : A -> M B) : M B :=
  fun st =>
    match m st with
    | Some (Ok a, st') => f a st'
    | Some (Throw e, st') => Some (Throw e, st')
    | None => None
    end.

Definition catchM {A} (m : M A) (h : JsError -> M A) : M A :=
  fun st =>
    match m st with
    | Some (Throw e, st') => h e st'
    | r => r
    end.

Definition emit (ev : Event) : M unit :=
  fun st => Some (Ok tt, mkState (world st) (trace st ++ [ev])).

(** [await fetch(url, opts)] *)
Definition call_fetch (url : Url) : M Response :=
  fun st =>
    let (r, w) := fetch url (world st) in
    let st' := mkState w (trace st ++ [EvFetch url]) in
    match r with
    | Resolved res => Some (Ok res, st')
    | Rejected e => Some (Throw e, st')
    end.

(** [await sleep(ms)] *)
Definition sleep (ms : Z) : M unit := emit (EvSleep ms).

End Async.

Notation "x <~ m ;; k" := (bindM m (fun x => k))
  (at level 100, m at next level, right associativity).

Section Fetching.
Context {R : Runtime}.

(** Lines 23-24: the error made of a response that is not [ok];
    [res.text().catch(() => '')] reads the body, or nothing. *)
Definition http_error (res : Response) : JsError :=
  let txt := match text res with Ok t => t | Throw _ => "" end in
  Error ("HTTP " ++ string_of_Z (status res) ++ " " ++ statusText res ++ " - " ++ txt).

(** [safeFetch(url, opts, retries, delay)].  [left] counts the iterations
    of [for (let i = 0; i <= retries; i++)] that remain, so [i === retries]
    is [left = 1].  Falling off the end of the loop returns [undefined],
    here [None]. *)
Fixpoint safeFetch_loop (left : nat) (url : Url) (delay : Z) : M (option Response) :=
  match left with
  | O => ret None
  | S left' =>
      let last := (left' =? 0)%nat in
      r <~ catchM
             (res <~ call_fetch url ;;
              if ok res then ret (Some res)
              else
                let err := http_error res in
                if last then throw err else ret None)
             (fun err => if last then throw err else ret None) ;;
      match r with
      | Some res => ret (Some res)
      | None => _ <~ sleep delay ;; safeFetch_loop left' url delay
      end
  end.

Definition safeFetch (url : Url) (retries : Z) (delay : Z) : M (option Response) :=
  safeFetch_loop (Z.to_nat (retries + 1)) url delay.

(** The defaults of the last two parameters; every call in the program
    leaves them out. *)
Definition default_retries : Z := 2.
Definition default_delay : Z := 500.

(** A parameter with a default value: the default replaces [undefined]. *)
Definition default_arg (v d : JsVal) : JsVal :=
  if is_undefined v then d else v.

(** [`https://${subdomain}.mybrightsites.com/api/v2.6.1`] *)
Definition base_of (subdomain : JsVal) : string :=
  "https://" ++ to_string subdomain ++ ".mybrightsites.com/api/v2.6.1".

Definition BASE : string := base_of SUBDOMAIN.

(** The entries [URLSearchParams] receives: those of [p] whose value is
    not [undefined], [null] or the empty string, each printed. *)
Definition query_of (p : JsVal) : list (string * string) :=
  map (fun kv => (fst kv, to_string (snd kv)))
      (List.filter (fun kv => negb (nullish (snd kv)) && negb (is_str (snd kv) ""))
                   (own_entries p)).

(** The array a page carries (lines 50-64): the body itself, or the array
    under [orders], [items], [data] or [results], or the first
    array-valued property, or nothing. *)
Definition page_items (body : JsVal) : list JsVal :=
  match body with
  | JArr xs => xs
  | JObj _ =>
      match prop_of body "orders", prop_of body "items",
            prop_of body "data", prop_of body "results" with
      | JArr xs, _, _, _ => xs
      | _, JArr xs, _, _ => xs
      | _, _, JArr xs, _ => xs
      | _, _, _, JArr xs => xs
      | _, _, _, _ =>
          match List.find is_array (map snd (own_entries body)) with
          | Some (JArr xs) => xs
          | _ => []
          end
      end
  | _ => []
  end.

(** The URL of one page (lines 37-45). *)
Definition page_url (path : string) (params : JsVal) (pageSize : Z)
    (opts : JsVal) (page : Z) : Res Url :=
  token <- prop opts "token" ||| Ok TOKEN ;;
  subdomain <- prop opts "subdomain" ||| Ok SUBDOMAIN ;;
  let base := if truthy subdomain then base_of subdomain else BASE in
  let p := object_assign
             [params;
              JObj [("page", JNum page); ("per_page", JNum pageSize); ("token", token)]] in
  Ok (mkUrl base path (query_of p)).

(** The [while (true)] of [fetchAllPages]; [fuel] bounds the number of
    iterations. *)
Fixpoint fetchAllPages_loop (fuel : nat) (path : string) (params : JsVal)
    (pageSize : Z) (opts : JsVal) (page : Z) (out : list JsVal) : M (list JsVal) :=
  match fuel with
  | O => out_of_fuel
  | S fuel' =>
      url <~ liftR (page_url path params pageSize opts page) ;;
      res <~ safeFetch url default_retries default_delay ;;
      match res with
      | None => ret out
      | Some res =>
          body <~ liftR (json res) ;;
          let arr := page_items body in
          if (length arr =? 0)%nat then ret out
          else
            let out := (out ++ arr)%list in
            if Z.of_nat (length arr) <? pageSize then ret out
            else fetchAllPages_loop fuel' path params pageSize opts (page + 1) out
      end
  end.

Definition fetchAllPages (fuel : nat) (path : string) (params : JsVal)
    (pageSize : Z) (opts : JsVal) : M (list JsVal) :=
  fetchAllPages_loop fuel path (default_arg params (JObj [])) pageSize
                     (default_arg opts (JObj [])) 1 [].

Definition loadLineItems (fuel : nat) (orderId : JsVal) (opts0 : JsVal) : M JsVal :=
  let opts := default_arg opts0 (JObj []) in
  if negb (truthy orderId) then ret (JArr [])
  else
    catchM
      (items <~ fetchAllPages fuel ("/orders/" ++ to_string orderId ++ "/line_items")
                              (JObj []) 200 opts ;;
       ret (JArr items))
      (fun err =>
         _ <~ emit (EvWarn "loadLineItems error" (err_message err)) ;;
         ret (JArr [])).

Definition loadShipments (fuel : nat) (orderId : JsVal) (opts0 : JsVal) : M JsVal :=
  let opts := default_arg opts0 (JObj []) in
  if negb (truthy orderId) then ret (JArr [])
  else
    catchM
      (items <~ fetchAllPages fuel ("/orders/" ++ to_string orderId ++ "/shipments")
                              (JObj []) 200 opts ;;
       ret (JArr items))
      (fun err =>
         _ <~ emit (EvWarn "loadShipments error" (err_message err)) ;;
         ret (JArr [])).

Definition loadOrder (orderId : JsVal) (opts0 : JsVal) : M JsVal :=
  let opts := default_arg opts0 (JObj []) in
  if negb (truthy orderId) then ret (JObj [])
  else
    catchM
      (token <~ liftR (prop opts "token" ||| Ok TOKEN) ;;
       subdomain <~ liftR (prop opts "subdomain" ||| Ok SUBDOMAIN) ;;
       let base := if truthy subdomain then base_of subdomain else BASE in
       let url := mkUrl base ("/orders/" ++ to_string orderId)
                        [("token", to_string token)] in
       res <~ safeFetch url default_retries default_delay ;;
       match res with
       | None => ret (JObj [])
       | Some res =>
           body <~ liftR (json res) ;;
           ret (if truthy body then body else JObj [])
       end)
      (fun err =>
         _ <~ emit (EvWarn "loadOrder error" (err_message err)) ;;
         ret (JObj [])).

End Fetching.

(** *** Address blobs and tracking numbers *)

(** [joinNonEmpty(parts, sep)] *)
Definition joinNonEmpty (parts : list JsVal) (sep : string) : JsVal :=
  JStr (join sep
          (List.filter
             (fun p => negb (is_undefined p) && negb (is_null p)
                       && negb (trim (to_string p) =? "")%string)
             parts)).

(** The closure [get] of [composeAddressBlob]: the first of [keys] under
    which [obj] holds a value that is not [undefined], [null] or blank. *)
Fixpoint get (obj : JsVal) (keys : list string) : Res JsVal :=
  match keys with
  | [] => Ok (JStr "")
  | k :: keys' =>
      if negb (truthy obj) then get obj keys'
      else
        v <- prop obj k ;;
        if negb (is_undefined v) && negb (is_null v)
           && negb (trim (to_string v) =? "")%string
        then Ok v
        else get obj keys'
  end.

(** [if (x) parts.push(x)] *)
Definition push_if (parts : list JsVal) (x : JsVal) : list JsVal :=
  if truthy x then (parts ++ [x])%list else parts.

Definition composeAddressBlob (addr0 order0 extras0 : JsVal) : Res JsVal :=
  let addr := default_arg addr0 (JObj []) in
  let order := default_arg order0 (JObj []) in
  let extras := default_arg extras0 (JObj []) in
  roleSet <- Ok extras &&& prop extras "role" ;;
  role <- (if truthy roleSet then prop extras "role" else Ok (JStr "auto")) ;;
  contactFallback <-
    (if is_str role "billing"
     then prop order "billing_contact" ||| prop order "shipping_contact" ||| Ok (JObj [])
     else if is_str role "shipping"
     then prop order "shipping_contact" ||| prop order "billing_contact" ||| Ok (JObj [])
     else prop order "shipping_contact" ||| prop order "billing_contact" ||| Ok (JObj [])) ;;
  hasContact <-
    Ok addr &&& (prop addr "first_name" ||| prop addr "last_name"
                 ||| prop addr "email" ||| prop addr "phone") ;;
  let contact := if truthy hasContact then addr else contactFallback in
  orderAddr <-
    (if is_str role "billing"
     then prop order "billing_address" ||| prop order "shipping_address" ||| Ok (JObj [])
     else if is_str role "shipping"
     then prop order "shipping_address" ||| prop order "billing_address" ||| Ok (JObj [])
     else prop order "shipping_address" ||| prop order "billing_address" ||| Ok (JObj [])) ;;
  let firstShipment :=
    es <- prop extras "shipments" ;;
    Ok (JBool (is_array es)) &&& (es' <- prop extras "shipments" ;; prop es' "0") in
  hasShipment <- Ok extras &&& (prop extras "shipment" ||| firstShipment) ;;
  shipment <- (if truthy hasShipment
               then prop extras "shipment" ||| firstShipment
               else Ok JNull) ;;
  shipmentAddr <-
    (if truthy shipment
     then prop shipment "shipping_address" ||| prop shipment "address"
          ||| prop shipment "to_address" ||| prop shipment "recipient" ||| Ok (JObj [])
     else Ok (JObj [])) ;;
  first <- get addr ["first_name"; "first"; "firstName"; "firstname"]
           ||| get contact ["first_name"; "first"; "firstName"; "firstname"] ;;
  last <- get addr ["last_name"; "last"; "lastName"; "lastname"]
          ||| get contact ["last_name"; "last"; "lastName"; "lastname"] ;;
  fullName <-
    (if truthy (or_val first last)
     then
       f <- call_trim "first" (or_val first (JStr "")) ;;
       l <- call_trim "last" (or_val last (JStr "")) ;;
       Ok (JStr (trim (f ++ " " ++ l)))
     else Ok (JStr "")) ;;
  let name := joinNonEmpty [fullName] " | " in
  finalName <-
    (if negb (truthy name)
     then
       oName <- get order ["customer_name"; "customer"; "customer_full_name";
                           "customerDisplayName"] ;;
       Ok (if truthy oName then JStr (trim (to_string oName)) else name)
     else Ok name) ;;
  finalName <-
    (if negb (truthy finalName) && truthy shipment
     then
       sName <- get shipmentAddr ["name"; "recipient_name"; "to_name"; "recipient";
                                  "full_name"] ;;
       Ok (if truthy sName then JStr (trim (to_string sName)) else finalName)
     else Ok finalName) ;;
  company <- get addr ["company"; "business"; "org"] ||| get orderAddr ["company"]
             ||| get shipmentAddr ["company"] ;;
  address1 <- get addr ["address1"; "first_address"; "firstAddress"; "address"; "street1"]
              ||| get orderAddr ["first_address"; "firstAddress"; "address1"; "street1"]
              ||| get shipmentAddr ["address1"; "first_address"; "address"; "street1"]
              ||| Ok (JStr "") ;;
  address2 <- get addr ["address2"; "second_address"; "secondAddress"; "address_line_2";
                        "street2"]
              ||| get orderAddr ["second_address"; "secondAddress"; "address2"]
              ||| get shipmentAddr ["address2"; "second_address"]
              ||| Ok (JStr "") ;;
  let addrLine := joinNonEmpty [address1; address2] " " in
  city <- get addr ["city"; "town"] ||| get orderAddr ["city"]
          ||| get shipmentAddr ["city"] ||| Ok (JStr "") ;;
  state <- get addr ["state"; "province"; "region"] ||| get orderAddr ["state"]
           ||| get shipmentAddr ["state"] ||| Ok (JStr "") ;;
  zip <- get addr ["zip"; "postcode"; "postal_code"] ||| get addr ["postal"]
         ||| get orderAddr ["zip"; "postcode"; "postal_code"]
         ||| get shipmentAddr ["zip"; "postal_code"] ||| Ok (JStr "") ;;
  let cityStateZip :=
    joinNonEmpty
      (filter_Boolean [city; JStr (trim (join " " (filter_Boolean [state; zip])))])
      ", " in
  country <- get addr ["country"; "country_name"] ||| get orderAddr ["country"]
             ||| get shipmentAddr ["country"] ||| Ok (JStr "") ;;
  email <- get addr ["email"; "contact_email"] ||| get contact ["email"]
           ||| get order ["customer_email"] ||| get order ["customer"]
           ||| get shipmentAddr ["email"] ||| Ok (JStr "") ;;
  phone <- get addr ["phone"; "telephone"; "contact_phone"] ||| get contact ["phone"]
           ||| get order ["customer_phone"] ||| Ok (JStr "") ;;
  let parts := [] in
  let parts := push_if parts finalName in
  let parts := push_if parts company in
  let parts := push_if parts addrLine in
  let parts := push_if parts cityStateZip in
  let parts := push_if parts country in
  let parts := push_if parts email in
  let parts := push_if parts phone in
  Ok (JStr (join " | " parts)).

(** [s.tracking_number || s.tracking || ''] *)
Definition tracking_of (s : JsVal) : Res JsVal :=
  prop s "tracking_number" ||| prop s "tracking" ||| Ok (JStr "").

(** Whether shipment [s] lists the line item (lines 188-190): its
    [line_item_ids], or the ids of its [line_items], printed, include the
    printed [lineItemId]. *)
Definition lists_line_item (s lineItemId : JsVal) : Res bool :=
  idsSrc <- prop s "line_item_ids" ||| Ok (JArr []) ;;
  idsArr <- as_array "map" idsSrc ;;
  let ids := map (fun x => JStr (to_string x)) idsArr in
  liSrc <- prop s "line_items" ||| Ok (JArr []) ;;
  liArr <- as_array "map" liSrc ;;
  sLineItems <- mapM (fun x => y <- prop x "id" ||| Ok x ;; Ok (JStr (to_string y))) liArr ;;
  Ok (includes ids (JStr (to_string lineItemId))
      || includes sLineItems (JStr (to_string lineItemId))).

(** The body of [shipments.forEach] in [trackingForLineItem]. *)
Definition collect_tracking (lineItemId : JsVal) (found : list JsVal) (s : JsVal)
  : Res (list JsVal) :=
  t <- tracking_of s ;;
  if negb (truthy t) then Ok found
  else
    hit <- lists_line_item s lineItemId ;;
    Ok (if hit then set_add found t else found).

Definition trackingForLineItem (arg0 lineItemId : JsVal) : Res JsVal :=
  let arg := default_arg arg0 (JObj []) in
  _ <- prop arg "order" ;;
  shipments <- prop arg "shipments" ;;
  if negb (truthy shipments) then Ok (JStr "")
  else
    len <- prop shipments "length" ;;
    if is_num len 0 then Ok (JStr "")
    else
      ss <- as_array "forEach" shipments ;;
      found <- foldM (collect_tracking lineItemId) ss [] ;;
      if (0 <? length found)%nat then Ok (JStr (join "; " found))
      else
        any <- mapM tracking_of ss ;;
        let any := filter_Boolean any in
        if (0 <? length any)%nat then Ok (JStr (join "; " (set_of any)))
        else Ok (JStr "").

End BrightSites.

(** ** The server module: pool, formatters and row assembly *)

Module Server.
Import Js BrightSites.

(** *** promisePool

    [concurrency] runners share the counter [i] and the array [results].
    A runner is at the head of its [while] loop, or suspended at
    [await worker(items[idx], idx)], or has left the loop.  The scheduler
    decides which runner moves next; a move is one of: take the next index
    and call the worker, leave the loop, or resume with the settled
    promise and store the slot.  What the worker's promise settles to is
    a function of the item and its index. *)

Inductive Runner : Type :=
| AtLoopHead
| Awaiting (idx : nat)
| Returned.

Record Pool : Type := mkPool {
  pool_i : nat;
  pool_results : list (option JsVal);   (* [None] is a hole of the array *)
  pool_runners : list Runner
}.

(** [String(err)] for an [Error] object *)
Definition error_to_string (e : JsError) : string :=
  if (err_name e =? "")%string then err_message e
  else if (err_message e =? "")%string then err_name e
  else err_name e ++ ": " ++ err_message e.

(** [{ error: String(err) }] *)
Definition error_marker (e : JsError) : JsVal :=
  JObj [("error", JStr (error_to_string e))].

(** What the [try]/[catch] around the worker stores in the slot. *)
Definition slot_of (r : Res JsVal) : JsVal :=
  match r with
  | Ok v => v
  | Throw e => error_marker e
  end.

(** [arr[idx] = v]: an index past the end first extends the array with
    holes. *)
Definition array_set (idx : nat) (v : JsVal) (arr : list (option JsVal))
  : list (option JsVal) :=
  <[idx := Some v]> (arr ++ replicate (S idx - length arr) None)%list.

Section Pool.
Variable items : list JsVal.
Variable worker : JsVal -> nat -> Res JsVal.

Definition pool_init (concurrency : nat) : Pool :=
  mkPool 0 [] (replicate concurrency AtLoopHead).

(** One move of runner [r]; [None] when that runner cannot move. *)
Definition pool_step (r : nat) (p : Pool) : option Pool :=
  match pool_runners p !! r with
  | Some AtLoopHead =>
      if (pool_i p <? length items)%nat
      then Some (mkPool (S (pool_i p)) (pool_results p)
                        (<[r := Awaiting (pool_i p)]> (pool_runners p)))
      else Some (mkPool (pool_i p) (pool_results p)
                        (<[r := Returned]> (pool_runners p)))
  | Some (Awaiting idx) =>
      let item := default JUndefined (items !! idx) in
      Some (mkPool (pool_i p)
                   (array_set idx (slot_of (worker item idx)) (pool_results p))
                   (<[r := AtLoopHead]> (pool_runners p)))
  | Some Returned | None => None
  end.

(** The moves of a schedule, in order. *)
Fixpoint pool_run (schedule : list nat) (p : Pool) : option Pool :=
  match schedule with
  | [] => Some p
  | r :: rest =>
      match pool_step r p with
      | Some p' => pool_run rest p'
      | None => None
      end
  end.

(** [await Promise.all(runners)] is over: every runner has returned. *)
Definition pool_done (p : Pool) : bool :=
  forallb (fun r => match r with Returned => true | _ => false end) (pool_runners p).

(** [promisePool(items, worker, concurrency)] under a schedule: the array
    it returns, when the schedule is one of its complete executions. *)
Definition promisePool (concurrency : nat) (schedule : list nat)
  : option (list (option JsVal)) :=
  match pool_run schedule (pool_init concurrency) with
  | Some p => if pool_done p then Some (pool_results p) else None
  | None => None
  end.

End Pool.

Definition COLUMNS : list string :=
  ["Order #"; "Placed"; "Order Status"; "Line Item ID"; "Tracking #";
   "Shipping Landded Cost"; "Ship Method"; "Ship Date";
   "Product Personalization"; "Quantity"; "Product Name"; "Product Options";
   "Billing Info"; "Shipping Info"].

Definition STRUCTURED_COLUMNS : list string :=
  ["Billing Name"; "Billing Company"; "Billing Address1"; "Billing Address2";
   "Billing City"; "Billing State"; "Billing Zip"; "Billing Country";
   "Billing Email"; "Billing Phone";
   "Shipping Name"; "Shipping Company"; "Shipping Address1"; "Shipping Address2";
   "Shipping City"; "Shipping State"; "Shipping Zip"; "Shipping Country";
   "Shipping Email"; "Shipping Phone"].

Definition ALL_COLUMNS : list string := (COLUMNS ++ STRUCTURED_COLUMNS)%list.

(** *** Formatters *)

(** One entry of an options array (the callback of [opts.map]). *)
Definition format_option (o : JsVal) : Res JsVal :=
  if nullish o then Ok (JStr "")
  else if is_string o then Ok o
  else
    named <- prop o "option_name" ||| prop o "sub_option_name" ;;
    if truthy named then
      name <- prop o "option_name" ||| prop o "name" ||| Ok (JStr "") ;;
      sub <- prop o "sub_option_name" ||| prop o "value" ||| prop o "sub"
             ||| Ok (JStr "") ;;
      Ok (JStr (join ": " (filter_Boolean [name; sub])))
    else
      try_catch (Ok (JSON_stringify o)) (fun _ => Ok (JStr (to_string o))).

Definition formatProductOptions (opts : JsVal) : Res JsVal :=
  if negb (truthy opts) then Ok (JStr "")
  else if is_string opts then Ok opts
  else if is_array opts then
    xs <- as_array "map" opts ;;
    ys <- mapM format_option xs ;;
    Ok (JStr (join "; " (filter_Boolean ys)))
  else if typeof_object opts then
    try_catch
      (let parts := map (fun kv => JStr (fst kv ++ ": " ++ to_string (snd kv)))
                        (own_entries opts) in
       Ok (JStr (join "; " parts)))
      (fun _ => Ok (JStr (to_string opts)))
  else Ok (JStr (to_string opts)).

(** One entry of [item.attributes] (the callback of its [map]). *)
Definition format_attribute (a : JsVal) : Res JsVal :=
  if is_string a then Ok a
  else
    k <- prop a "key" ||| prop a "name" ||| Ok (JStr "") ;;
    v <- prop a "value" ||| prop a "val" ||| Ok (JStr "") ;;
    Ok (JStr (join ": " (filter_Boolean [k; v]))).

(** One personalization (the callback of [arr.map]). *)
Definition format_personalization (item : JsVal) : Res JsVal :=
  if negb (truthy item) then Ok (JStr "")
  else
    title <- prop item "title" ||| prop item "name" ||| Ok (JStr "") ;;
    attributes <- prop item "attributes" ;;
    attrs <-
      (if is_array attributes then
         xs <- as_array "map" attributes ;;
         ys <- mapM format_attribute xs ;;
         Ok (JStr (join ", " (filter_Boolean ys)))
       else Ok (JStr "")) ;;
    pm <- prop item "price_modifier" ;;
    price <-
      (if truthy pm then
         pt <- prop pm "modifier_type" ||| prop pm "type" ||| Ok (JStr "") ;;
         amt <- prop pm "amount" ||| prop pm "value" ||| Ok (JStr "") ;;
         Ok (if truthy (or_val pt amt)
             then JStr (to_string (or_val pt (JStr ""))
                        ++ to_string (or_val amt (JStr "")))
             else JStr "")
       else Ok (JStr "")) ;;
    let parts := [] in
    let parts := push_if parts title in
    let parts := if truthy attrs
                 then (parts ++ [JStr ("Attributes: " ++ to_string attrs)])%list
                 else parts in
    let parts := if truthy price
                 then (parts ++ [JStr ("Price: " ++ to_string price)])%list
                 else parts in
    Ok (JStr (join " | " parts)).

Definition formatProductPersonalization (pp : JsVal) : Res JsVal :=
  if negb (truthy pp) then Ok (JStr "")
  else if is_string pp then Ok pp
  else
    arr <- (if is_array pp then Ok pp
            else prop pp "personalizations" ||| prop pp "product_personalizations"
                 ||| Ok (JArr [])) ;;
    match arr with
    | JArr [] => Ok (JStr "")
    | JArr items =>
        ys <- mapM format_personalization items ;;
        Ok (JStr (join " ; " (filter_Boolean ys)))
    | _ => Ok (JStr "")
    end.

(** *** The enrichment worker (lines 228-238), after its three loads *)

(** [Object.assign({}, order, fullOrder || {})] *)
Definition mergedOrder (order fullOrder : JsVal) : JsVal :=
  object_assign [order; or_val fullOrder (JObj [])].

Definition enriched_slot (order fullOrder line_items shipments : JsVal) : JsVal :=
  JObj [("order", mergedOrder order fullOrder);
        ("line_items", line_items);
        ("shipments", shipments)].

(** The worker handed to the pool.  [loadOrder], [loadLineItems] and
    [loadShipments] resolve whatever the transport does; [loaded] is what
    the three of them resolve to for an order identifier. *)
Definition enrichment_worker (loaded : JsVal -> JsVal * JsVal * JsVal)
    (order : JsVal) (idx : nat) : Res JsVal :=
  orderIdentifier <- prop order "id" ||| prop order "order_id"
                     ||| prop order "orderNumber" ||| prop order "number" ;;
  let '(fullOrder, line_items, shipments) := loaded orderIdentifier in
  Ok (enriched_slot order fullOrder line_items shipments).

(** *** Row assembly of [POST /api/run]

    The [debugInfo] snapshot only feeds [meta.debug]; it reads properties
    of values that were read before and is left out. *)

(** The closure [pick]: the first of [keys] under which [obj] holds a
    value that is not [undefined], [null] or blank. *)
Fixpoint pick (obj : JsVal) (keys : list string) : Res JsVal :=
  match keys with
  | [] => Ok (JStr "")
  | k :: keys' =>
      if negb (truthy obj) then pick obj keys'
      else
        v <- prop obj k ;;
        if negb (is_undefined v) && negb (is_null v)
           && negb (trim (to_string v) =? "")%string
        then Ok v
        else pick obj keys'
  end.

(** The values a [for ... of] loop visits. *)
Definition as_iterable (v : JsVal) : Res (list JsVal) :=
  match v with
  | JArr xs => Ok xs
  | JStr s => Ok (chars_of s)
  | _ => Throw (TypeError (to_string v ++ " is not iterable"))
  end.

(** Lines 251-258: the first shipment that lists the line item, by the
    same test as [trackingForLineItem]; [null] when there is none. *)
Fixpoint first_listing (liId : JsVal) (ss : list JsVal) : Res JsVal :=
  match ss with
  | [] => Ok JNull
  | s :: rest =>
      hit <- lists_line_item s liId ;;
      if hit then Ok s else first_listing liId rest
  end.

(** [Object.assign({}, order.X || {}, order.X_address || {}, order.X_contact || {})] *)
Definition merged_party (order : JsVal) (party : string) : Res JsVal :=
  a <- prop order party ||| Ok (JObj []) ;;
  b <- prop order (party ++ "_address") ||| Ok (JObj []) ;;
  c <- prop order (party ++ "_contact") ||| Ok (JObj []) ;;
  Ok (object_assign [a; b; c]).

(** The ten structured fields of one party in detailed mode
    (lines 312-323, and again 326-337). *)
Definition structured_fields (merged order : JsVal) : Res (list JsVal) :=
  first <- pick merged ["first_name"; "first"; "firstName"; "firstname"] ;;
  last <- pick merged ["last_name"; "last"; "lastName"; "lastname"] ;;
  name <-
    (if truthy (or_val first last)
     then Ok (JStr (trim (to_string (or_val first (JStr "")) ++ " "
                          ++ to_string (or_val last (JStr "")))))
     else pick order ["customer_name"; "customer"; "username"] ||| Ok (JStr "")) ;;
  company <- pick merged ["company"; "business"; "org"] ;;
  address1 <- pick merged ["first_address"; "address1"; "firstAddress"; "address";
                           "street1"] ;;
  address2 <- pick merged ["second_address"; "address2"; "secondAddress";
                           "address_line_2"; "street2"] ;;
  city <- pick merged ["city"; "town"] ;;
  state <- pick merged ["state"; "province"; "region"] ;;
  zip <- pick merged ["zip"; "postcode"; "postal_code"] ;;
  country <- pick merged ["country"; "country_name"] ;;
  email <- pick merged ["email"; "contact_email"]
           ||| pick order ["customer_email"; "customer"] ;;
  phone <- pick merged ["phone"; "telephone"; "contact_phone"]
           ||| pick order ["customer_phone"] ;;
  Ok [name; company; address1; address2; city; state; zip; country; email; phone].

(** The body of [line_items.forEach] (lines 245-358): the row of one line
    item. *)
Definition detailed_row (order shipments li : JsVal) : Res (list JsVal) :=
  liId <- prop li "id" ;;
  tracking <- trackingForLineItem (JObj [("order", order); ("shipments", shipments)]) liId ;;
  ss <- as_iterable shipments ;;
  listing <- first_listing liId ss ;;
  more <- prop shipments "length" ;;
  representative <-
    (if negb (truthy listing) && truthy more then prop shipments "0" else Ok listing) ;;
  shippingLanded <-
    (Ok representative
       &&& (prop representative "landed_cost" ||| prop representative "shipping_cost"))
    ||| prop order "shipping_total" ||| Ok (JStr "") ;;
  shipMethod <-
    (Ok representative
       &&& (prop representative "shipping_method" ||| prop order "shipping_method"))
    ||| Ok (JStr "") ;;
  shipDate <-
    (Ok representative
       &&& (prop representative "ship_date" ||| prop representative "shipped_at"))
    ||| Ok (JStr "") ;;
  placed <- prop order "placed_at" ||| prop order "created_at" ||| Ok (JStr "") ;;
  pp <- prop li "product_personalizations" ||| prop li "personalizations"
        ||| prop li "personalization" ||| prop li "product_personalization" ;;
  productPersonalization <- formatProductPersonalization pp ;;
  quantity <- prop li "quantity" ||| Ok (JStr "") ;;
  productName <- prop li "name" ||| prop li "product_name" ||| Ok (JStr "") ;;
  po <- prop li "options_text" ||| prop li "product_options" ||| prop li "options" ;;
  productOptions <- formatProductOptions po ;;
  billingMerged <- merged_party order "billing" ;;
  shippingMerged <- merged_party order "shipping" ;;
  billingInfo <- composeAddressBlob billingMerged order
                   (JObj [("order", order); ("role", JStr "billing")]) ;;
  shippingInfo <- composeAddressBlob shippingMerged order
                    (JObj [("shipment", representative); ("shipments", shipments);
                           ("role", JStr "shipping")]) ;;
  billing <- structured_fields billingMerged order ;;
  shipping <- structured_fields shippingMerged order ;;
  orderNo <- prop order "order_id" ||| prop order "id" ||| Ok (JStr "") ;;
  orderStatus <- prop order "status" ||| Ok (JStr "") ;;
  liNo <- prop li "id" ||| Ok (JStr "") ;;
  Ok ([JStr (to_string orderNo); placed; orderStatus; JStr (to_string liNo);
       tracking; shippingLanded; shipMethod; shipDate; productPersonalization;
       JStr (to_string quantity); productName; productOptions;
       billingInfo; shippingInfo] ++ billing ++ shipping)%list.

(** The callback of [enriched.forEach] (lines 242-360): the rows one slot
    of the pool's result contributes.  The parameter pattern
    [{ order, line_items = [], shipments = [] }] reads three properties
    and replaces an [undefined] list by the empty array. *)
Definition rows_of_slot (slot : JsVal) : Res (list (list JsVal)) :=
  order <- prop slot "order" ;;
  li0 <- prop slot "line_items" ;;
  let line_items := default_arg li0 (JArr []) in
  sh0 <- prop slot "shipments" ;;
  let shipments := default_arg sh0 (JArr []) in
  lis <- as_array "forEach" line_items ;;
  mapM (detailed_row order shipments) lis.

(** The callback of [orders.slice(0).map] (lines 363-389): the row of one
    order in summary mode. *)
Definition summary_row (order : JsVal) : Res (list JsVal) :=
  billingAddr <- prop order "billing" ||| prop order "billing_address" ||| Ok (JObj []) ;;
  billingInfo <- composeAddressBlob billingAddr order JUndefined ;;
  shippingAddr <- prop order "shipping" ||| prop order "shipping_address" ||| Ok (JObj []) ;;
  shippingInfo <- composeAddressBlob shippingAddr order JUndefined ;;
  billingMerged <- merged_party order "billing" ;;
  shippingMerged <- merged_party order "shipping" ;;
  billingName <- pick billingMerged ["first_name"; "first"]
                 ||| pick order ["customer"; "username"] ||| Ok (JStr "") ;;
  shippingName <- pick shippingMerged ["first_name"; "first"]
                  ||| pick order ["customer"; "username"] ||| Ok (JStr "") ;;
  billingEmail <- pick billingMerged ["email"; "contact_email"]
                  ||| pick order ["customer_email"; "customer"] ;;
  shippingEmail <- pick shippingMerged ["email"; "contact_email"]
                   ||| pick order ["customer_email"; "customer"] ;;
  let e := JStr "" in
  let structured :=
    [billingName; e; e; e; e; e; e; e; billingEmail; e;
     shippingName; e; e; e; e; e; e; e; shippingEmail; e] in
  orderNo <- prop order "order_id" ||| prop order "id" ||| Ok (JStr "") ;;
  placed <- prop order "placed_at" ||| prop order "created_at" ||| Ok (JStr "") ;;
  orderStatus <- prop order "status" ||| Ok (JStr "") ;;
  shippingTotal <- prop order "shipping_total" ||| Ok (JStr "") ;;
  shippingMethod <- prop order "shipping_method" ||| Ok (JStr "") ;;
  Ok ([JStr (to_string orderNo); placed; orderStatus; e; e;
       shippingTotal; shippingMethod; e; e; e; e; e;
       billingInfo; shippingInfo] ++ structured)%list.

(** The rows of a run (lines 222-390), from the orders fetched and, in
    detailed mode, from what the pool returned for them. *)
Definition build_rows (reportType : JsVal) (orders enriched : list JsVal)
  : Res (list (list JsVal)) :=
  if is_str reportType "Needed Excel"
  then rowss <- mapM rows_of_slot enriched ;; Ok (concat rowss)
  else mapM summary_row orders.

(** [meta.orders] and [meta.rows] (line 392) *)
Definition meta_orders (orders : list JsVal) : Z := Z.of_nat (length orders).
Definition meta_rows (rows : list (list JsVal)) : Z := Z.of_nat (length rows).

End Server.

(** ** Vocabulary of the properties *)

Import Js BrightSites Server.

(** A value the alias primitives treat as absent. *)
Definition blank (v : JsVal) : Prop :=
  v = JUndefined \/ v = JNull \/ exists s, v = JStr s /\ trim s = "".

Definition city_town_example : JsVal :=
  JObj [("city", JStr "  "); ("town", JStr "B")].

(** A no-break space, a line separator and a byte order mark: white
    space beyond ASCII. *)
Definition wide_blank : string :=
  bytes [194; 160; 226; 128; 168; 239; 187; 191]%nat.

Definition wide_blank_example : JsVal :=
  JObj [("city", JStr wide_blank); ("town", JStr "B")].

(** Tracking resolution in the words of the specification. *)

(** The tracking number a shipment carries, [''] when it has none. *)
Definition tracking_number (s : JsVal) : JsVal :=
  or_val (prop_of s "tracking_number") (or_val (prop_of s "tracking") (JStr "")).

Definition array_items (v : JsVal) : list JsVal :=
  match v with JArr xs => xs | _ => [] end.

(** The line-item ids a shipment lists, printed: those of its id array,
    then those of its embedded line items. *)
Definition listed_ids (s : JsVal) : list string :=
  (map to_string (array_items (or_val (prop_of s "line_item_ids") (JArr [])))
   ++ map (fun x => to_string (or_val (prop_of x "id") x))
          (array_items (or_val (prop_of s "line_items") (JArr []))))%list.

(** The shipment references the line item. *)
Definition references (lineItemId s : JsVal) : bool :=
  existsb (String.eqb (to_string lineItemId)) (listed_ids s).

(** The distinct members of a list, each at its first occurrence. *)
Fixpoint first_seen (l : list JsVal) : list JsVal :=
  match l with
  | [] => []
  | x :: r => x :: List.filter (fun y => negb (same_value_zero x y)) (first_seen r)
  end.

(** The distinct non-empty tracking numbers of some shipments. *)
Definition tracking_numbers (ss : list JsVal) : list JsVal :=
  first_seen (List.filter truthy (map tracking_number ss)).

(** What the code resolves: the tracking numbers of the shipments that
    reference the line item, and those of all shipments when there is no
    such number. *)
Definition resolved_tracking (ss : list JsVal) (lineItemId : JsVal) : string :=
  match tracking_numbers (List.filter (references lineItemId) ss) with
  | [] => join "; " (tracking_numbers ss)
  | direct => join "; " direct
  end.

(** What C1 words: the order-level union only if no shipment references
    the line item. *)
Definition claimed_tracking (ss : list JsVal) (lineItemId : JsVal) : string :=
  if existsb (references lineItemId) ss
  then join "; " (tracking_numbers (List.filter (references lineItemId) ss))
  else join "; " (tracking_numbers ss).

Definition list_or_absent (v : JsVal) : Prop :=
  truthy v = false \/ is_array v = true.

(** A shipment the resolution can read: not [null], with id lists that
    are arrays when present and embedded line items that are not [null]. *)
Definition shipment_shape (s : JsVal) : Prop :=
  nullish s = false
  /\ list_or_absent (prop_of s "line_item_ids")
  /\ list_or_absent (prop_of s "line_items")
  /\ Forall (fun x => nullish x = false)
            (array_items (or_val (prop_of s "line_items") (JArr []))).

(** A shipment that lists line item 1 and has no tracking number yet,
    and one for line item 2 that has been sent. *)
Definition unlabelled_shipments : list JsVal :=
  [JObj [("id", JNum 50); ("line_item_ids", JArr [JNum 1])];
   JObj [("id", JNum 51); ("tracking_number", JStr "T2");
         ("line_item_ids", JArr [JNum 2])]].

(** Four shipments, three of which list line item 1 in one way or another. *)
Definition sample_shipments : list JsVal :=
  [JObj [("tracking", JStr "T1"); ("line_items", JArr [JObj [("id", JStr "1")]])];
   JObj [("tracking_number", JStr "T2"); ("line_item_ids", JArr [JNum 2])];
   JObj [("tracking_number", JStr "T1"); ("line_item_ids", JArr [JNum 1])];
   JObj [("tracking_number", JStr "T3"); ("line_item_ids", JArr [JStr "1"])]].

(** The retrying executor, seen from outside: the outcomes of successive
    calls of the transport, and the events they leave. *)
Section ExecutorVocabulary.
Context {R : Runtime}.

Definition succeeded (r : FetchResult) : bool :=
  match r with
  | Resolved res => ok res
  | Rejected _ => false
  end.

(** The text of the body, or nothing when it cannot be read. *)
Definition body_text (res : Response) : string :=
  match text res with
  | Ok t => t
  | Throw _ => ""
  end.

(** What the executor settles to when [final] is its last attempt. *)
Definition settled_by (final : FetchResult) : Res (option Response) :=
  match final with
  | Resolved res => if ok res then Ok (Some res) else Throw (http_error res)
  | Rejected e => Throw e
  end.

Fixpoint attempts (n : nat) (url : Url) (w : World) : list FetchResult * World :=
  match n with
  | O => ([], w)
  | S n' =>
      let (r, w1) := fetch url w in
      let (rs, w2) := attempts n' url w1 in
      (r :: rs, w2)
  end.

Fixpoint attempt_events (k : nat) (url : Url) (delay : Z) : list Event :=
  match k with
  | O => []
  | S O => [EvFetch url]
  | S k' => EvFetch url :: EvSleep delay :: attempt_events k' url delay
  end.

End ExecutorVocabulary.

(** Pagination, seen from outside. *)
Section PaginationVocabulary.
Context {R : Runtime}.

(** The request for [page] is answered at once, with a 2xx response whose
    body carries the array [arr]; the world goes from [w] to [w']. *)
Definition page_served (path : string) (params : JsVal) (pageSize : Z) (opts : JsVal)
    (page : Z) (url : Url) (w w' : World) (arr : list JsVal) : Prop :=
  page_url path params pageSize opts page = Ok url
  /\ exists res body,
       fetch url w = (Resolved res, w')
       /\ ok res = true
       /\ json res = Ok body
       /\ page_items body = arr.

(** [reaches n p out st q out' st']: standing at page [p] with [out]
    accumulated in state [st], the loop fetches [n] full pages through
    the executor and then stands at page [q] with [out'] in state [st']. *)
Inductive reaches (path : string) (params : JsVal) (pageSize : Z) (opts : JsVal)
  : nat -> Z -> list JsVal -> State -> Z -> list JsVal -> State -> Prop :=
| reaches_here p out st :
    reaches path params pageSize opts 0 p out st p out st
| reaches_next n p out st url res body st1 q out' st' :
    page_url path params pageSize opts p = Ok url ->
    safeFetch url default_retries default_delay st = Some (Ok (Some res), st1) ->
    json res = Ok body ->
    page_items body <> [] ->
    pageSize <= Z.of_nat (length (page_items body)) ->
    reaches path params pageSize opts n (p + 1) (out ++ page_items body)%list st1 q out' st' ->
    reaches path params pageSize opts (S n) p out st q out' st'.

(** The state a loader leaves after it caught [e]. *)
Definition warned (label : string) (e : JsError) (st : State) : State :=
  mkState (world st) (trace st ++ [EvWarn label (err_message e)]).

End PaginationVocabulary.

(** Transports that answer by the [page] parameter of the request alone. *)
Fixpoint query_param (k : string) (q : list (string * string)) : string :=
  match q with
  | [] => ""
  | (k', v) :: r => if (k' =? k)%string then v else query_param k r
  end.

Definition scripted (script : string -> FetchResult) : Runtime :=
  {| World := unit;
     fetch := fun url w => (script (query_param "page" (url_query url)), w);
     SUBDOMAIN := JStr "shop";
     TOKEN := JStr "secret" |}.

Definition json_page (body : JsVal) : FetchResult :=
  Resolved (mkResponse 200 "OK" (Ok (json_text body)) (Ok body)).

(** Pages of 2, 2 and 1 items for a page size of 2. *)
Definition three_pages (page : string) : FetchResult :=
  if (page =? "1")%string then json_page (JArr [JNum 11; JNum 12])
  else if (page =? "2")%string
  then json_page (JObj [("orders", JArr [JNum 21; JNum 22])])
  else if (page =? "3")%string
  then json_page (JObj [("total", JNum 5); ("data", JArr [JNum 31])])
  else json_page (JArr []).

Definition first_page_items : list JsVal := repeat (JObj [("id", JNum 1)]) 200.

(** A full first page of 200 items, then a transport that is down. *)
Definition down_after_first_page (page : string) : FetchResult :=
  if (page =? "1")%string then json_page (JArr first_page_items)
  else Rejected (mkError "FetchError" "socket hang up").

Definition three_pages_runtime : Runtime := scripted three_pages.
Definition down_runtime : Runtime := scripted down_after_first_page.

(** The pool, seen from outside. *)
Section PoolVocabulary.
Variable items : list JsVal.
Variable worker : JsVal -> nat -> Res JsVal.

(** What slot [idx] must hold in the end. *)
Definition expected_slot (idx : nat) : JsVal :=
  slot_of (worker (default JUndefined (items !! idx)) idx).

Definition expected_results : list (option JsVal) :=
  imap (fun idx item => Some (slot_of (worker item idx))) items.

Definition awaited (p : Pool) (idx : nat) : Prop :=
  exists r, pool_runners p !! r = Some (Awaiting idx).

(** What every reachable state of a pool of [c] runners satisfies. *)
Record pool_inv (c : nat) (p : Pool) : Prop := {
  inv_runners : length (pool_runners p) = c;
  inv_bound : (pool_i p <= length items)%nat;
  inv_awaiting : forall r idx,
    pool_runners p !! r = Some (Awaiting idx) -> (idx < pool_i p)%nat;
  inv_stored : forall idx,
    (idx < pool_i p)%nat -> ~ awaited p idx ->
    pool_results p !! idx = Some (Some (expected_slot idx));
  inv_length : (length (pool_results p) <= pool_i p)%nat;
  inv_returned : forall r,
    pool_runners p !! r = Some Returned -> pool_i p = length items
}.

(** A bound on the moves that remain: a runner at the head of its loop
    has one more move when the counter is at the end, a waiting runner
    has two, and each item not yet taken costs three. *)
Definition runner_weight (r : Runner) : nat :=
  match r with
  | AtLoopHead => 1
  | Awaiting _ => 2
  | Returned => 0
  end.

Definition pool_measure (p : Pool) : nat :=
  (3 * (length items - pool_i p) + list_sum (map runner_weight (pool_runners p)))%nat.

End PoolVocabulary.

(** A complete execution: runner 0 takes every item in turn and waits for
    it, then each runner finds the counter at the end and returns. *)
Fixpoint sequential_schedule (n : nat) : list nat :=
  match n with
  | O => []
  | S n' => 0%nat :: 0%nat :: sequential_schedule n'
  end.

Definition complete_schedule (n concurrency : nat) : list nat :=
  (sequential_schedule n ++ seq 0 concurrency)%list.

(** Three orders, the second of which is [null], enriched by a worker
    whose loads all come back empty. *)
Definition three_orders : list JsVal :=
  [JObj [("id", JNum 1)]; JNull; JObj [("order_id", JNum 3)]].

Definition offline_worker : JsVal -> nat -> Res JsVal :=
  enrichment_worker (fun _ => (JObj [], JArr [], JArr [])).

(** The five runners start in turn; the workers settle in the order 2, 0,
    1 and each runner then leaves its loop. *)
Definition interleaved_schedule : list nat :=
  [0; 1; 2; 3; 4; 2; 2; 0; 0; 1; 1]%nat.

(** An expression that cannot evaluate to [null] or [undefined], and one
    that can only evaluate to a string. *)
Definition yields_defined (m : Res JsVal) : Prop :=
  forall v, m = Ok v -> nullish v = false.

Definition yields_string (m : Res JsVal) : Prop :=
  forall v, m = Ok v -> is_string v = true.

(** A row of the response: one value per column, none of them [null] or
    [undefined]. *)
Definition complete_row (row : list JsVal) : Prop :=
  length row = length ALL_COLUMNS /\ Forall (fun v => nullish v = false) row.

(** An order with a billing address and one shipped line item. *)
Definition sample_order : JsVal :=
  JObj [("id", JNum 7); ("status", JStr "new");
        ("billing_address", JObj [("first_name", JStr "Jo"); ("city", JStr "NYC")]);
        ("customer_email", JStr "jo@example.com")].

Definition sample_slot : JsVal :=
  enriched_slot sample_order (JObj [])
    (JArr [JObj [("id", JNum 2); ("quantity", JNum 3); ("name", JStr "Mug")]])
    (JArr [JObj [("tracking_number", JStr "T2"); ("line_item_ids", JArr [JNum 2]);
                 ("landed_cost", JNum 12)]]).

(** A snapshot and a detail record that share the key [status]. *)
Definition sample_snapshot : list (string * JsVal) :=
  [("id", JNum 7); ("status", JStr "new")].


(** A slot of the pool's result that carries no line item: an error
    marker, or the worker's result for an order without line items. *)
Definition silent_slot (slot : JsVal) : Prop :=
  (exists e, slot = error_marker e)
  \/ (exists order fullOrder shipments,
        slot = enriched_slot order fullOrder (JArr []) shipments).

(** The distinct values of the first column, [Order #]. *)
Definition order_numbers (rows : list (list JsVal)) : list JsVal :=
  set_of (map (fun row => nth 0 row JUndefined) rows).

(** A line item whose personalization has a [null] attribute. *)
Definition null_attribute_personalization : JsVal :=
  JArr [JObj [("title", JStr "Monogram"); ("attributes", JArr [JNull])]].

(** A personalization whose attributes are an object and a string. *)
Definition monogram_personalization : JsVal :=
  JArr [JObj [("title", JStr "Monogram");
              ("attributes", JArr [JObj [("key", JStr "Initials"); ("value", JStr "JD")];
                                   JStr "gold"])]].

Definition null_attribute_line_item : JsVal :=
  JObj [("id", JNum 1); ("quantity", JNum 1); ("name", JStr "Mug");
        ("product_personalizations", null_attribute_personalization)].

(** *** Vocabulary of the further properties *)

Section FetcherVocabulary.
Context {R : Runtime}.

(** Whatever page is asked for, in whatever state, the executor brings a
    response whose body carries a full, non-empty page. *)
Definition always_full (path : string) (params : JsVal) (pageSize : Z) (opts : JsVal)
  : Prop :=
  forall (page : Z) (st : State),
  exists url res body st',
    page_url path params pageSize opts page = Ok url
    /\ safeFetch url default_retries default_delay st = Some (Ok (Some res), st')
    /\ json res = Ok body
    /\ page_items body <> []
    /\ pageSize <= Z.of_nat (length (page_items body)).

End FetcherVocabulary.

(** A transport that answers every request with the same two items. *)
Definition endless_runtime : Runtime :=
  scripted (fun _ => json_page (JArr [JNum 1; JNum 2])).

(** A transport whose 2xx responses carry a body that is not JSON. *)
Definition garbled_runtime : Runtime :=
  scripted (fun _ => Resolved (mkResponse 200 "OK" (Ok "<html>")
                                 (Throw (mkError "SyntaxError" "Unexpected token <")))).

(** A transport that answers with an envelope that holds no array. *)
Definition envelope_runtime : Runtime :=
  scripted (fun _ => json_page (JObj [("message", JStr "no orders"); ("total", JNum 0)])).

(** An upstream that is out of service. *)
Definition unavailable_runtime : Runtime :=
  scripted (fun _ => Resolved (mkResponse 503 "Service Unavailable" (Ok "try later")
                                 (Throw (mkError "SyntaxError" "Unexpected token t")))).

(** A transport that is down. *)
Definition dead_runtime : Runtime :=
  scripted (fun _ => Rejected (mkError "FetchError" "connect ECONNREFUSED")).

(** The URL the fetcher builds for a page of [/orders] with page size 2
    under the scripted transports. *)
Definition orders_page_url (page : Z) : Url :=
  mkUrl "https://shop.mybrightsites.com/api/v2.6.1" "/orders"
        [("page", string_of_Z page); ("per_page", "2"); ("token", "secret")].

Section LoaderVocabulary.
Context {R : Runtime}.

(** The URL [loadOrder] asks for (lines 96-100). *)
Definition order_detail_url (orderId opts : JsVal) : Res Url :=
  token <- prop (default_arg opts (JObj [])) "token" ||| Ok TOKEN ;;
  subdomain <- prop (default_arg opts (JObj [])) "subdomain" ||| Ok SUBDOMAIN ;;
  Ok (mkUrl (if truthy subdomain then base_of subdomain else BASE)
            ("/orders/" ++ to_string orderId)
            [("token", to_string token)]).

End LoaderVocabulary.



(** A part [joinNonEmpty] drops. *)
Definition dropped_part (p : JsVal) : bool :=
  is_undefined p || is_null p || (trim (to_string p) =? "")%string.

(** The personalizations [formatProductPersonalization] walks through:
    none for a falsy value or a string, the value itself when it is an
    array, else the array under [personalizations] or
    [product_personalizations]. *)
Definition personalization_items (pp : JsVal) : list JsVal :=
  if negb (truthy pp) || is_string pp then []
  else if is_array pp then array_items pp
  else array_items
         (or_val (prop_of pp "personalizations")
            (or_val (prop_of pp "product_personalizations") (JArr []))).

(** A personalization whose attribute list holds [null] or [undefined]. *)
Definition broken_personalization (item : JsVal) : bool :=
  truthy item && is_array (prop_of item "attributes")
  && existsb nullish (array_items (prop_of item "attributes")).

(** The same options in the two structured shapes the upstream uses:
    a list of [{ option_name, sub_option_name }] objects, and a mapping
    from name to value. *)
Definition options_as_array (pairs : list (string * string)) : JsVal :=
  JArr (map (fun nv => JObj [("option_name", JStr (fst nv));
                             ("sub_option_name", JStr (snd nv))]) pairs).

Definition options_as_mapping (pairs : list (string * string)) : JsVal :=
  JObj (map (fun nv => (fst nv, JStr (snd nv))) pairs).

Definition options_text (pairs : list (string * string)) : string :=
  String.concat "; " (map (fun nv => fst nv ++ ": " ++ snd nv) pairs).

Section PoolTraceVocabulary.
Variable items : list JsVal.
Variable worker : JsVal -> nat -> Res JsVal.

(** The indices for which the worker is called along a schedule, in the
    order of the calls: a runner at the head of its loop that finds the
    counter below the number of items takes the counter's value and
    calls the worker with it. *)
Fixpoint pool_started (schedule : list nat) (p : Pool) : list nat :=
  match schedule with
  | [] => []
  | r :: rest =>
      match pool_step items worker r p with
      | Some p' =>
          match pool_runners p !! r with
          | Some AtLoopHead =>
              if (pool_i p <? length items)%nat
              then pool_i p :: pool_started rest p'
              else pool_started rest p'
          | _ => pool_started rest p'
          end
      | None => []
      end
  end.

End PoolTraceVocabulary.

(** The runners that wait for a worker. *)
Definition waiting (r : Runner) : bool :=
  match r with Awaiting _ => true | _ => false end.

(** The shipment the row of a line item takes its cost, method and date
    from when a shipment lists it. *)
Definition first_reference (liId : JsVal) (ss : list JsVal) : JsVal :=
  default JNull (head (List.filter (references liId) ss)).

(** The value a row holds under a column of the header. *)
Fixpoint column_index (name : string) (columns : list string) : nat :=
  match columns with
  | [] => 0
  | c :: rest => if (c =? name)%string then 0 else S (column_index name rest)
  end.

Definition cell (name : string) (row : list JsVal) : JsVal :=
  nth (column_index name ALL_COLUMNS) row JUndefined.

(** [String(order.order_id || order.id || '')] and [String(li.id || '')] *)
Definition order_number (order : JsVal) : JsVal :=
  JStr (to_string (or_val (prop_of order "order_id")
                     (or_val (prop_of order "id") (JStr "")))).

Definition line_item_number (li : JsVal) : JsVal :=
  JStr (to_string (or_val (prop_of li "id") (JStr ""))).

(** The line items and the shipments of a slot of the pool's result. *)
Definition slot_line_items (slot : JsVal) : list JsVal :=
  array_items (default_arg (prop_of slot "line_items") (JArr [])).

Definition slot_shipments (slot : JsVal) : JsVal :=
  default_arg (prop_of slot "shipments") (JArr []).


(** The columns that describe a line item. *)
Definition line_item_columns : list string :=
  ["Line Item ID"; "Tracking #"; "Ship Date"; "Product Personalization";
   "Quantity"; "Product Name"; "Product Options"].

(** Two line items of the sample order, the second without an id. *)
Definition two_orders : list JsVal :=
  [sample_order; JObj [("order_id", JNum 3)]].

Definition two_item_slot : JsVal :=
  JObj [("order", sample_order);
        ("line_items", JArr [JObj [("id", JNum 1)]; JObj [("name", JStr "Mug")]]);
        ("shipments", JArr sample_shipments)].

(** The keys under which the address blob looks for a first and a last
    name, and a value that holds nothing but strings under them. *)
Definition name_aliases : list string :=
  ["first_name"; "first"; "firstName"; "firstname";
   "last_name"; "last"; "lastName"; "lastname"].

Definition textual_names (obj : JsVal) : Prop :=
  Forall (fun k => nullish (prop_of obj k) = true \/ is_string (prop_of obj k) = true)
         name_aliases.

(** An evaluation that does not throw, and one that gives a string. *)
Definition returns {A} (m : Res A) : Prop := exists v, m = Ok v.
Definition returns_text (m : Res JsVal) : Prop := exists s, m = Ok (JStr s).

(** The fields of an order that describe the two parties. *)
Definition party_fields : list string :=
  ["billing"; "billing_address"; "billing_contact";
   "shipping"; "shipping_address"; "shipping_contact"].

Definition textual_entry (kv : string * JsVal) : Prop :=
  In (fst kv) name_aliases -> nullish (snd kv) = true \/ is_string (snd kv) = true.

Definition textual_entries (v : JsVal) : Prop :=
  Forall textual_entry (own_entries v).

(** An order the row assembly can read: not [null] or [undefined], with
    names that are strings wherever a party field holds one. *)
Definition textual_order (order : JsVal) : Prop :=
  nullish order = false
  /\ Forall (fun party => textual_entries (prop_of order party)) party_fields.

(** [li.product_personalizations || li.personalizations ||
    li.personalization || li.product_personalization] *)
Definition line_item_personalization (li : JsVal) : JsVal :=
  or_val (prop_of li "product_personalizations")
    (or_val (prop_of li "personalizations")
       (or_val (prop_of li "personalization") (prop_of li "product_personalization"))).

(** A line item the row assembly can read: not [null] or [undefined],
    without a [null] attribute in its personalizations. *)
Definition readable_line_item (li : JsVal) : Prop :=
  nullish li = false
  /\ existsb broken_personalization
       (personalization_items (line_item_personalization li)) = false.

(** A slot of the pool's result the row assembly can read: its line
    items are an array (or absent), and when there are line items its
    order and line items are readable and its shipments are an array (or
    absent) of readable shipments.  An error marker is such a slot. *)
Definition readable_slot (slot : JsVal) : Prop :=
  nullish slot = false
  /\ exists lis,
       default_arg (prop_of slot "line_items") (JArr []) = JArr lis
       /\ (lis = []
           \/ (textual_order (prop_of slot "order")
               /\ Forall readable_line_item lis
               /\ exists ss, slot_shipments slot = JArr ss /\ Forall shipment_shape ss)).

Definition sample_address : JsVal :=
  JObj [("first_name", JStr "Jo"); ("city", JStr "NYC")].

(** *** The configured stores

    [getConfiguredStores] (server, lines 115-132) and the handler of
    [GET /api/stores] (lines 403-408).  The environment variable and
    [JSON.parse] are parameters.  An assignment to the key [__proto__]
    sets the prototype of [out] and adds no property of its own. *)

(** [Object.entries(v)] *)
Definition Object_entries (v : JsVal) : Res (list (string * JsVal)) :=
  if nullish v then Throw (TypeError "Cannot convert undefined or null to object")
  else Ok (own_entries v).

(** The store the [forEach] callback builds for the entry [[k, v]]. *)
Definition normalized_store (k : string) (v : JsVal) : JsVal :=
  let store := object_assign [or_val v (JObj [])] in
  if negb (truthy (prop_of store "token"))
  then JObj (set_key "token" (JStr k) (own_entries store))
  else store.

(** [out[k] = store] *)
Definition put_store (out : list (string * JsVal)) (kv : string * JsVal)
  : list (string * JsVal) :=
  if (fst kv =? "__proto__")%string then out
  else set_key (fst kv) (normalized_store (fst kv) (snd kv)) out.

(** The stores, and the warnings written to the console. *)
Definition getConfiguredStores (env : option string)
    (JSON_parse : string -> Res JsVal) : JsVal * list string :=
  match env with
  | Some text =>
      if (text =? "")%string then (JObj [], [])
      else
        match (parsed <- JSON_parse text ;;
               entries <- Object_entries parsed ;;
               Ok (fold_left put_store entries []))
        with
        | Ok out => (JObj out, [])
        | Throw _ => (JObj [], ["BRIGHTSITES_STORES invalid JSON"])
        end
  | None => (JObj [], [])
  end.

(** [({ key: k, label: v.label || k, subdomain: v.subdomain })] *)
Definition listed_store (kv : string * JsVal) : Res JsVal :=
  label <- prop (snd kv) "label" ||| Ok (JStr (fst kv)) ;;
  subdomain <- prop (snd kv) "subdomain" ;;
  Ok (JObj [("key", JStr (fst kv)); ("label", label); ("subdomain", subdomain)]).

(** What [GET /api/stores] answers. *)
Definition api_stores (env : option string) (JSON_parse : string -> Res JsVal)
  : Res JsVal :=
  let stores := fst (getConfiguredStores env JSON_parse) in
  entries <- Object_entries stores ;;
  out <- mapM listed_store entries ;;
  Ok (JArr out).

(** The configuration of one store: absent, or a record with each key
    once and without a key [__proto__]. *)
Definition store_config (v : JsVal) : Prop :=
  truthy v = false
  \/ exists kvs, v = JObj kvs /\ List.NoDup (map fst kvs)
                 /\ ~ In "__proto__" (map fst kvs).

(** The token a run uses for the store configured as [v] under [k]. *)
Definition store_token (k : string) (v : JsVal) : JsVal :=
  or_val (prop_of v "token") (JStr k).

(** What the listing shows of that store. *)
Definition store_listing (kv : string * JsVal) : JsVal :=
  JObj [("key", JStr (fst kv));
        ("label", or_val (prop_of (snd kv) "label") (JStr (fst kv)));
        ("subdomain", prop_of (snd kv) "subdomain")].

Definition is_record (v : JsVal) : Prop := exists kvs, v = JObj kvs.

(** A parser that knows one configuration text. *)
Definition sample_config : list (string * JsVal) :=
  [("acme", JObj [("subdomain", JStr "acme"); ("token", JStr "s3cret");
                  ("label", JStr "Acme")]);
   ("tok-77", JObj [("subdomain", JStr "beta")]);
   ("spare", JNull)].

Definition sample_parse (text : string) : Res JsVal :=
  if (text =? "{stores}")%string then Ok (JObj sample_config)
  else if (text =? "null")%string then Ok JNull
  else Throw (mkError "SyntaxError" "Unexpected token").

(** *** Vocabulary of the completeness of the rows *)

(** The rule for a field that has several sources: the first source
    that holds something, and the empty string when none does. *)
Fixpoint resolve (sources : list JsVal) : JsVal :=
  match sources with
  | [] => JStr ""
  | v :: rest => if truthy v then v else resolve rest
  end.

(** A value that an alias can resolve to: not [undefined], not [null],
    not blank. *)
Definition present (v : JsVal) : bool :=
  negb (is_undefined v) && negb (is_null v) && negb (trim (to_string v) =? "")%string.

(** The rule for the aliases of a field: the value under the first key
    that is present, and the empty string when there is none. *)
Fixpoint first_present (obj : JsVal) (keys : list string) : JsVal :=
  match keys with
  | [] => JStr ""
  | k :: rest =>
      if truthy obj && present (prop_of obj k) then prop_of obj k
      else first_present obj rest
  end.

(** The record of a party of the order: its fields, its address and
    its contact merged, the later over the earlier. *)
Definition party (order : JsVal) (name : string) : JsVal :=
  object_assign [or_val (prop_of order name) (JObj []);
                 or_val (prop_of order (name ++ "_address")) (JObj []);
                 or_val (prop_of order (name ++ "_contact")) (JObj [])].

(** The name of a party: first and last name when there is one of them,
    else the name of the customer. *)
Definition full_name (merged order : JsVal) : JsVal :=
  let first := first_present merged ["first_name"; "first"; "firstName"; "firstname"] in
  let last := first_present merged ["last_name"; "last"; "lastName"; "lastname"] in
  if truthy (or_val first last)
  then JStr (trim (to_string (resolve [first]) ++ " " ++ to_string (resolve [last])))
  else resolve [first_present order ["customer_name"; "customer"; "username"]].

(** The ten structured fields of a party. *)
Definition resolved_party (merged order : JsVal) : list JsVal :=
  [full_name merged order;
   first_present merged ["company"; "business"; "org"];
   first_present merged ["first_address"; "address1"; "firstAddress"; "address"; "street1"];
   first_present merged ["second_address"; "address2"; "secondAddress"; "address_line_2";
                         "street2"];
   first_present merged ["city"; "town"];
   first_present merged ["state"; "province"; "region"];
   first_present merged ["zip"; "postcode"; "postal_code"];
   first_present merged ["country"; "country_name"];
   or_val (first_present merged ["email"; "contact_email"])
          (first_present order ["customer_email"; "customer"]);
   or_val (first_present merged ["phone"; "telephone"; "contact_phone"])
          (first_present order ["customer_phone"])].

(** The shipment a row takes its cost, method and date from: the one
    that lists the line item, else the first shipment, else [null]. *)
Definition representative_of (listing shipments : JsVal) : JsVal :=
  if negb (truthy listing) && truthy (prop_of shipments "length")
  then prop_of shipments "0" else listing.

(** What the row of a line item holds, column by column. *)
Definition resolved_detailed (order shipments li : JsVal) (row : list JsVal) : Prop :=
  exists (ss : list JsVal) (listing : JsVal) (tracking pers opts binfo sinfo : string),
    as_iterable shipments = Ok ss
    /\ first_listing (prop_of li "id") ss = Ok listing
    /\ trackingForLineItem (JObj [("order", order); ("shipments", shipments)])
         (prop_of li "id") = Ok (JStr tracking)
    /\ formatProductPersonalization (line_item_personalization li) = Ok (JStr pers)
    /\ formatProductOptions
         (or_val (prop_of li "options_text")
            (or_val (prop_of li "product_options") (prop_of li "options")))
       = Ok (JStr opts)
    /\ composeAddressBlob (party order "billing") order
         (JObj [("order", order); ("role", JStr "billing")]) = Ok (JStr binfo)
    /\ composeAddressBlob (party order "shipping") order
         (JObj [("shipment", representative_of listing shipments);
                ("shipments", shipments); ("role", JStr "shipping")])
       = Ok (JStr sinfo)
    /\ row
       = ([JStr (to_string (resolve [prop_of order "order_id"; prop_of order "id"]));
           resolve [prop_of order "placed_at"; prop_of order "created_at"];
           resolve [prop_of order "status"];
           JStr (to_string (resolve [prop_of li "id"]));
           JStr tracking;
           resolve (if truthy (representative_of listing shipments)
                    then [prop_of (representative_of listing shipments) "landed_cost";
                          prop_of (representative_of listing shipments) "shipping_cost";
                          prop_of order "shipping_total"]
                    else [prop_of order "shipping_total"]);
           resolve (if truthy (representative_of listing shipments)
                    then [prop_of (representative_of listing shipments) "shipping_method";
                          prop_of order "shipping_method"]
                    else []);
           resolve (if truthy (representative_of listing shipments)
                    then [prop_of (representative_of listing shipments) "ship_date";
                          prop_of (representative_of listing shipments) "shipped_at"]
                    else []);
           JStr pers;
           JStr (to_string (resolve [prop_of li "quantity"]));
           resolve [prop_of li "name"; prop_of li "product_name"];
           JStr opts; JStr binfo; JStr sinfo]
          ++ resolved_party (party order "billing") order
          ++ resolved_party (party order "shipping") order)%list.

(** What the row of an order holds in summary mode, column by column. *)
Definition resolved_summary (order : JsVal) (row : list JsVal) : Prop :=
  exists binfo sinfo : string,
    composeAddressBlob
      (or_val (prop_of order "billing") (or_val (prop_of order "billing_address") (JObj [])))
      order JUndefined = Ok (JStr binfo)
    /\ composeAddressBlob
         (or_val (prop_of order "shipping")
            (or_val (prop_of order "shipping_address") (JObj [])))
         order JUndefined = Ok (JStr sinfo)
    /\ row
       = [JStr (to_string (resolve [prop_of order "order_id"; prop_of order "id"]));
          resolve [prop_of order "placed_at"; prop_of order "created_at"];
          resolve [prop_of order "status"];
          JStr ""; JStr "";
          resolve [prop_of order "shipping_total"];
          resolve [prop_of order "shipping_method"];
          JStr ""; JStr ""; JStr ""; JStr ""; JStr "";
          JStr binfo; JStr sinfo;
          resolve [first_present (party order "billing") ["first_name"; "first"];
                   first_present order ["customer"; "username"]];
          JStr ""; JStr ""; JStr ""; JStr ""; JStr ""; JStr ""; JStr "";
          or_val (first_present (party order "billing") ["email"; "contact_email"])
                 (first_present order ["customer_email"; "customer"]);
          JStr "";
          resolve [first_present (party order "shipping") ["first_name"; "first"];
                   first_present order ["customer"; "username"]];
          JStr ""; JStr ""; JStr ""; JStr ""; JStr ""; JStr ""; JStr "";
          or_val (first_present (party order "shipping") ["email"; "contact_email"])
                 (first_present order ["customer_email"; "customer"]);
          JStr ""].

(** ** Properties *)

(** *** Alias resolution *)

Lemma prop_ok v k : nullish v = false -> prop v k = Ok (prop_of v k).
Proof. intros H. unfold prop. rewrite H. reflexivity. Qed.

Lemma blank_test v :
  blank v ->
  negb (is_undefined v) && negb (is_null v)
    && negb (trim (to_string v) =? "")%string = false.
Proof.
  intros [-> | [-> | (s & -> & Hs)]]; try reflexivity.
  cbn [is_undefined is_null negb andb to_string]. rewrite Hs. reflexivity.
Qed.

Lemma get_skip obj k ks : blank (prop_of obj k) -> get obj (k :: ks) = get obj ks.
Proof.
  intros Hb. cbn [get].
  destruct (truthy obj) eqn:Ht; cbn [negb]; [|reflexivity].
  unfold prop. destruct obj; try discriminate Ht; cbn [nullish bind];
    rewrite (blank_test _ Hb); reflexivity.
Qed.

Lemma pick_skip obj k ks : blank (prop_of obj k) -> pick obj (k :: ks) = pick obj ks.
Proof.
  intros Hb. cbn [pick].
  destruct (truthy obj) eqn:Ht; cbn [negb]; [|reflexivity].
  unfold prop. destruct obj; try discriminate Ht; cbn [nullish bind];
    rewrite (blank_test _ Hb); reflexivity.
Qed.

Lemma get_first_match obj k ks :
  truthy obj = true ->
  nullish (prop_of obj k) = false ->
  trim (to_string (prop_of obj k)) <> "" ->
  get obj (k :: ks) = Ok (prop_of obj k) /\ pick obj (k :: ks) = Ok (prop_of obj k).
Proof.
  intros Ht Hn Hb. cbn [get pick]. rewrite Ht. cbn [negb].
  rewrite prop_ok by (destruct obj; (discriminate Ht || reflexivity)).
  cbn [bind].
  apply String.eqb_neq in Hb. rewrite Hb.
  destruct (prop_of obj k); try discriminate Hn; split; reflexivity.
Qed.

(** C9: a key whose value is [undefined], [null] or a blank string counts
    as absent for [get] and for [pick]: resolution goes on with the
    remaining aliases, and when no alias is left the result is the empty
    string, which lets [||] move on to the next source. *)
Theorem alias_blank_is_absent (obj : JsVal) (k : string) (ks : list string)
    (next : Res JsVal) :
  blank (prop_of obj k) ->
  get obj (k :: ks) = get obj ks
  /\ pick obj (k :: ks) = pick obj ks
  /\ (get obj [k] ||| next) = next
  /\ (pick obj [k] ||| next) = next.
Proof.
  intros Hb. repeat split.
  - apply get_skip, Hb.
  - apply pick_skip, Hb.
  - rewrite (get_skip _ _ [] Hb). reflexivity.
  - rewrite (pick_skip _ _ [] Hb). reflexivity.
Qed.

Lemma alias_blank_is_absent_witness :
  blank (prop_of city_town_example "city")
  /\ get city_town_example ["city"; "town"] = Ok (JStr "B")
  /\ pick city_town_example ["city"; "town"] = Ok (JStr "B")
  /\ blank (prop_of wide_blank_example "city")
  /\ get wide_blank_example ["city"; "town"] = Ok (JStr "B")
  /\ pick wide_blank_example ["city"; "town"] = Ok (JStr "B").
Proof.
  assert (Hb : blank (prop_of city_town_example "city")).
  { right; right. exists "  ". split; reflexivity. }
  assert (Hw : blank (prop_of wide_blank_example "city")).
  { right; right. exists wide_blank. split; reflexivity. }
  split; [exact Hb|].
  destruct (alias_blank_is_absent city_town_example "city" ["town"] (Ok JNull) Hb)
    as (Hg & Hp & _).
  rewrite Hg, Hp. split; [reflexivity|]. split; [reflexivity|].
  split; [exact Hw|].
  destruct (alias_blank_is_absent wide_blank_example "city" ["town"] (Ok JNull) Hw)
    as (Hg' & Hp' & _).
  rewrite Hg', Hp'. split; reflexivity.
Defined.

(** *** Merging the detail record over the snapshot *)

Lemma assoc_set_key k k' v m :
  assoc k (set_key k' v m) = if (k' =? k)%string then Some v else assoc k m.
Proof.
  induction m as [|[k0 v0] m IH]; cbn.
  - destruct (k' =? k)%string; reflexivity.
  - destruct (String.eqb_spec k0 k') as [->|Hne]; cbn.
    + destruct (k' =? k)%string; reflexivity.
    + destruct (String.eqb_spec k0 k) as [->|Hne2].
      * destruct (String.eqb_spec k' k); [congruence | reflexivity].
      * exact IH.
Qed.



Lemma set_key_fresh k v m : ~ In k (map fst m) -> set_key k v m = (m ++ [(k, v)])%list.
Proof.
  induction m as [|[k0 v0] m IH]; cbn; [reflexivity|].
  intros Hn. destruct (k0 =? k)%string eqn:E.
  - apply String.eqb_eq in E. tauto.
  - rewrite IH by tauto. reflexivity.
Qed.

Lemma assign_entries_fresh es target :
  List.NoDup (map fst (target ++ es)%list) ->
  fold_left (fun acc kv => set_key (fst kv) (snd kv) acc) es target = (target ++ es)%list.
Proof.
  revert target. induction es as [|[k1 v1] es IH]; intros target Hnd; cbn.
  - rewrite app_nil_r. reflexivity.
  - rewrite set_key_fresh.
    + rewrite IH; rewrite <- app_assoc; [reflexivity | exact Hnd].
    + rewrite map_app in Hnd. apply List.NoDup_remove_2 in Hnd.
      intros Hin. apply Hnd. apply in_or_app. left. exact Hin.
Qed.



(** *** Orders that leave no row *)

Lemma mapM_app {A B} (f : A -> Res B) (l1 l2 : list A) :
  mapM f (l1 ++ l2)%list
  = (ys1 <- mapM f l1 ;; ys2 <- mapM f l2 ;; Ok (ys1 ++ ys2)%list).
Proof.
  induction l1 as [|x l1 IH]; cbn.
  - destruct (mapM f l2); reflexivity.
  - destruct (f x); cbn; [|reflexivity].
    rewrite IH. destruct (mapM f l1); cbn; [|reflexivity].
    destruct (mapM f l2); reflexivity.
Qed.

Lemma silent_slot_rows slot : silent_slot slot -> rows_of_slot slot = Ok [].
Proof.
  intros [[e ->] | (order & fullOrder & shipments & ->)].
  - reflexivity.
  - unfold rows_of_slot, enriched_slot. cbn.
    destruct shipments; reflexivity.
Qed.

(** C10: in detailed mode a slot that is an error marker, or that has an
    empty line-item list, contributes no row: the rows are those of the
    run without that slot, and no row stands for the order, so
    [meta.orders] exceeds the number of orders that appear in the rows. *)
Theorem silent_orders_leave_no_row (slot order : JsVal) (orders pre post : list JsVal) :
  silent_slot slot ->
  rows_of_slot slot = Ok []
  /\ build_rows (JStr "Needed Excel") orders (pre ++ slot :: post)
     = build_rows (JStr "Needed Excel") orders (pre ++ post)
  /\ (exists rows,
        build_rows (JStr "Needed Excel") [order] [slot] = Ok rows
        /\ Z.of_nat (length (order_numbers rows)) < meta_orders [order]).
Proof.
  intros Hs. pose proof (silent_slot_rows slot Hs) as Hr.
  split; [exact Hr|]. split.
  - unfold build_rows. cbn [is_str String.eqb Ascii.eqb Bool.eqb].
    rewrite !mapM_app. cbn [mapM bind]. rewrite Hr. cbn [bind].
    destruct (mapM rows_of_slot pre) as [a|]; cbn [bind]; [|reflexivity].
    destruct (mapM rows_of_slot post) as [b|]; cbn [bind]; [|reflexivity].
    rewrite !concat_app. reflexivity.
  - exists []. unfold build_rows. cbn [is_str String.eqb Ascii.eqb Bool.eqb].
    cbn [mapM bind]. rewrite Hr. split; [reflexivity | reflexivity].
Qed.

Lemma silent_orders_leave_no_row_witness :
  silent_slot (error_marker (TypeError "Cannot read properties of null (reading 'id')"))
  /\ (exists rows,
        build_rows (JStr "Needed Excel") [sample_order; JNull]
          [sample_slot;
           error_marker (TypeError "Cannot read properties of null (reading 'id')")]
        = Ok rows
        /\ meta_rows rows = 1
        /\ order_numbers rows = [JStr "7"]
        /\ meta_orders [sample_order; JNull] = 2).
Proof.
  assert (Hs : silent_slot
                 (error_marker (TypeError "Cannot read properties of null (reading 'id')")))
    by (left; eexists; reflexivity).
  split; [exact Hs|].
  destruct (silent_orders_leave_no_row _ JNull [sample_order; JNull]
              [sample_slot] [] Hs) as (_ & Heq & _).
  cbn [app] in Heq. rewrite Heq.
  eexists. split; [vm_compute; reflexivity|].
  repeat split.
Defined.

(** *** Inputs on which reconciliation throws *)

(** C7 (a defect of the code): a [null] entry in the [attributes] of a
    personalization makes [formatProductPersonalization] throw, and with
    it the assembly of the row and of the whole run; a [null] shipment
    makes [trackingForLineItem] throw, and a numeric first name makes
    [composeAddressBlob] throw. *)
Theorem reconciliation_throws_on_null_attribute :
  formatProductPersonalization null_attribute_personalization
  = Throw (TypeError "Cannot read properties of null (reading 'key')")
  /\ detailed_row (JObj [("id", JNum 7)]) (JArr []) null_attribute_line_item
     = Throw (TypeError "Cannot read properties of null (reading 'key')")
  /\ build_rows (JStr "Needed Excel") [JObj [("id", JNum 7)]]
       [enriched_slot (JObj [("id", JNum 7)]) (JObj [])
          (JArr [null_attribute_line_item]) (JArr [])]
     = Throw (TypeError "Cannot read properties of null (reading 'key')")
  /\ trackingForLineItem (JObj [("order", JObj []); ("shipments", JArr [JNull])]) (JNum 1)
     = Throw (TypeError "Cannot read properties of null (reading 'tracking_number')")
  /\ composeAddressBlob (JObj [("first_name", JNum 5)]) (JObj []) JUndefined
     = Throw (TypeError ("(first || " ++ double_quote ++ double_quote
                         ++ ").trim is not a function")).
Proof. repeat split; vm_compute; reflexivity. Qed.

(** *** The retrying executor *)

Section Executor.
Context {R : Runtime}.

Lemma attempt_events_S k url delay :
  attempt_events (S (S k)) url delay
  = EvFetch url :: EvSleep delay :: attempt_events (S k) url delay.
Proof. reflexivity. Qed.

Lemma safeFetch_loop_spec n url delay st :
  exists earlier final w',
    (length earlier <= n)%nat
    /\ attempts (S (length earlier)) url (world st) = ((earlier ++ [final])%list, w')
    /\ Forall (fun r => succeeded r = false) earlier
    /\ safeFetch_loop (S n) url delay st
       = Some (settled_by final,
               mkState w' (trace st ++ attempt_events (S (length earlier)) url delay))
    /\ (succeeded final = false -> length earlier = n).
Proof.
  revert st. induction n as [|n IH]; intros st.
  - exists [], (fst (fetch url (world st))), (snd (fetch url (world st))).
    cbn [length app attempts safeFetch_loop Nat.eqb].
    unfold bindM, catchM, call_fetch, ret, throw.
    destruct (fetch url (world st)) as [r w1]. cbn [fst snd].
    repeat split; [lia | constructor | ].
    destruct r as [res|e]; cbn [settled_by]; [destruct (ok res)|]; reflexivity.
  - destruct (fetch url (world st)) as [r w1] eqn:Hf.
    destruct (succeeded r) eqn:Hs.
    + exists [], r, w1. cbn [length app attempts]. rewrite Hf.
      repeat split; [lia | constructor | | congruence].
      cbn [safeFetch_loop Nat.eqb].
      unfold bindM, catchM, call_fetch, ret. rewrite Hf.
      destruct r as [res|e]; cbn in Hs; [|discriminate].
      cbn [settled_by]. rewrite Hs. reflexivity.
    + destruct (IH (mkState w1 (trace st ++ [EvFetch url; EvSleep delay])))
        as (earlier & final & w' & Hlen & Hatt & Hall & Hrun & Hfail).
      cbn [world trace] in *.
      exists (r :: earlier), final, w'.
      repeat split.
      * cbn [length]. lia.
      * change (attempts (S (length (r :: earlier))) url (world st))
          with (let (r0, w0) := fetch url (world st) in
                let (rs, w2) := attempts (S (length earlier)) url w0 in (r0 :: rs, w2)).
        rewrite Hf, Hatt. reflexivity.
      * constructor; assumption.
      * change (length (r :: earlier)) with (S (length earlier)).
        rewrite attempt_events_S.
        change (safeFetch_loop (S (S n)) url delay st)
          with (bindM
                  (catchM
                     (bindM (call_fetch url)
                        (fun res => if ok res then ret (Some res)
                                    else if (S n =? 0)%nat then throw (http_error res)
                                         else ret None))
                     (fun err => if (S n =? 0)%nat then throw err else ret None))
                  (fun r0 => match r0 with
                             | Some res => ret (Some res)
                             | None => bindM (sleep delay)
                                         (fun _ => safeFetch_loop (S n) url delay)
                             end) st).
        unfold bindM at 1 2, catchM, call_fetch. rewrite Hf.
        destruct r as [res|e]; cbn in Hs; [rewrite Hs|];
          cbn [Nat.eqb]; unfold ret, bindM, sleep, emit; cbn [world trace];
          rewrite <- app_assoc; cbn [app]; rewrite Hrun;
          rewrite <- !app_assoc; reflexivity.
      * intros Hff. cbn [length]. rewrite (Hfail Hff). reflexivity.
Qed.

(** C6: with its default budget the executor calls the transport at least
    once and at most three times, waits 500 ms between two consecutive
    calls and at no other time, stops at the first call that resolves
    with a 2xx status and returns that response, and when all three calls
    failed throws the error of the third: an [Error] whose message is
    [HTTP], the status, the status text, a dash and the text of the body
    (nothing when the body cannot be read), or the transport's
    exception. *)
Theorem safeFetch_contract (url : Url) (st : State) :
  exists earlier final w',
    (S (length earlier) <= 3)%nat
    /\ attempts (S (length earlier)) url (world st) = ((earlier ++ [final])%list, w')
    /\ Forall (fun r => succeeded r = false) earlier
    /\ safeFetch url default_retries default_delay st
       = Some (settled_by final,
               mkState w' (trace st ++ attempt_events (S (length earlier)) url 500))
    /\ (succeeded final = false -> S (length earlier) = 3%nat)
    /\ (forall res, settled_by final = Ok (Some res) ->
          final = Resolved res /\ 200 <= status res <= 299)
    /\ (forall e, settled_by final = Throw e ->
          succeeded final = false
          /\ match final with
             | Resolved res =>
                 e = http_error res
                 /\ err_name e = "Error"
                 /\ err_message e
                    = "HTTP " ++ string_of_Z (status res) ++ " " ++ statusText res
                      ++ " - " ++ body_text res
             | Rejected err => e = err
             end)
    /\ settled_by final <> Ok None.
Proof.
  destruct (safeFetch_loop_spec 2 url default_delay st)
    as (earlier & final & w' & Hlen & Hatt & Hall & Hrun & Hfail).
  exists earlier, final, w'.
  split; [lia|]. split; [exact Hatt|]. split; [exact Hall|].
  split; [exact Hrun|]. split; [intros H; rewrite (Hfail H); reflexivity|].
  split; [|split].
  - intros res Hres. destruct final as [res'|e]; cbn in Hres; [|discriminate].
    destruct (ok res') eqn:Hok; [|discriminate].
    injection Hres as <-. split; [reflexivity|].
    unfold ok in Hok. apply andb_prop in Hok as [H1 H2]. lia.
  - intros e He. destruct final as [res'|e']; cbn in He |- *.
    + destruct (ok res') eqn:Hok; [discriminate|].
      injection He as <-. repeat split.
    + injection He as <-. split; reflexivity.
  - destruct final as [res'|e']; cbn; [destruct (ok res')|]; discriminate.
Qed.

End Executor.

Lemma safeFetch_contract_witness :
  exists final,
    safeFetch (R := unavailable_runtime) (orders_page_url 1) default_retries default_delay
      (mkState (R := unavailable_runtime) tt [])
    = Some (settled_by final,
            mkState (R := unavailable_runtime) tt
              [EvFetch (orders_page_url 1); EvSleep 500; EvFetch (orders_page_url 1);
               EvSleep 500; EvFetch (orders_page_url 1)])
    /\ settled_by final
       = Throw (mkError "Error" "HTTP 503 Service Unavailable - try later").
Proof.
  destruct (safeFetch_contract (R := unavailable_runtime) (orders_page_url 1)
              (mkState (R := unavailable_runtime) tt []))
    as (earlier & final & w' & Hlen & Hatt & _ & Hrun & _).
  exists final.
  destruct earlier as [|a [|b [|c earlier]]]; cbn [length] in *; try lia;
    vm_compute in Hatt; injection Hatt as; subst;
    try (exfalso; vm_compute in Hrun; discriminate Hrun).
  split; [exact Hrun | reflexivity].
Defined.

(** *** Pagination *)

Section Pagination.
Context {R : Runtime}.

Lemma safeFetch_first_try url res w w' tr :
  fetch url w = (Resolved res, w') ->
  ok res = true ->
  safeFetch url default_retries default_delay (mkState w tr)
  = Some (Ok (Some res), mkState w' (tr ++ [EvFetch url])).
Proof.
  intros Hf Hok. unfold safeFetch.
  change (Z.to_nat (default_retries + 1)) with 3%nat. cbn [safeFetch_loop].
  unfold bindM, catchM, call_fetch, ret. cbn [world trace].
  rewrite Hf, Hok. reflexivity.
Qed.

Lemma loop_iteration fuel path params pageSize opts page out st url res body st1 :
  page_url path params pageSize opts page = Ok url ->
  safeFetch url default_retries default_delay st = Some (Ok (Some res), st1) ->
  json res = Ok body ->
  fetchAllPages_loop (S fuel) path params pageSize opts page out st
  = if (length (page_items body) =? 0)%nat then Some (Ok out, st1)
    else if Z.of_nat (length (page_items body)) <? pageSize
         then Some (Ok (out ++ page_items body)%list, st1)
         else fetchAllPages_loop fuel path params pageSize opts (page + 1)
                (out ++ page_items body)%list st1.
Proof.
  intros Hu Hs Hj. cbn [fetchAllPages_loop].
  unfold bindM at 1, liftR at 1. rewrite Hu.
  unfold bindM at 1. rewrite Hs.
  unfold bindM at 1, liftR at 1. rewrite Hj.
  destruct (length (page_items body) =? 0)%nat; [reflexivity|].
  destruct (Z.of_nat (length (page_items body)) <? pageSize); reflexivity.
Qed.

Lemma loop_executor_throws fuel path params pageSize opts page out st url e st1 :
  page_url path params pageSize opts page = Ok url ->
  safeFetch url default_retries default_delay st = Some (Throw e, st1) ->
  fetchAllPages_loop (S fuel) path params pageSize opts page out st
  = Some (Throw e, st1).
Proof.
  intros Hu Hs. cbn [fetchAllPages_loop].
  unfold bindM at 1, liftR at 1. rewrite Hu.
  unfold bindM at 1. rewrite Hs. reflexivity.
Qed.

Lemma loop_served fuel path params pageSize opts page out url w w' tr arr :
  page_served path params pageSize opts page url w w' arr ->
  fetchAllPages_loop (S fuel) path params pageSize opts page out (mkState w tr)
  = if (length arr =? 0)%nat then Some (Ok out, mkState w' (tr ++ [EvFetch url]))
    else if Z.of_nat (length arr) <? pageSize
         then Some (Ok (out ++ arr)%list, mkState w' (tr ++ [EvFetch url]))
         else fetchAllPages_loop fuel path params pageSize opts (page + 1)
                (out ++ arr)%list (mkState w' (tr ++ [EvFetch url])).
Proof.
  intros (Hu & res & body & Hf & Hok & Hj & <-).
  apply (loop_iteration _ _ _ _ _ _ _ _ url res body); try assumption.
  apply safeFetch_first_try; assumption.
Qed.

(** C2 (amended): when pages 1, 2 and 3 are answered with N, N and N-1
    items, the fetcher returns the items of the three pages in order,
    2N + (N-1) of them, after exactly three requests, for pages 1, 2 and
    3; it asks for no fourth page. *)
Theorem three_pages_fetched (path : string) (params opts : JsVal) (N : Z)
    (w0 w1 w2 w3 : World) (tr : list Event) (u1 u2 u3 : Url)
    (a1 a2 a3 : list JsVal) (fuel : nat) :
  page_served path (default_arg params (JObj [])) N (default_arg opts (JObj []))
    1 u1 w0 w1 a1 ->
  Z.of_nat (length a1) = N ->
  page_served path (default_arg params (JObj [])) N (default_arg opts (JObj []))
    2 u2 w1 w2 a2 ->
  Z.of_nat (length a2) = N ->
  page_served path (default_arg params (JObj [])) N (default_arg opts (JObj []))
    3 u3 w2 w3 a3 ->
  Z.of_nat (length a3) = N - 1 ->
  (3 <= fuel)%nat ->
  fetchAllPages fuel path params N opts (mkState w0 tr)
  = Some (Ok (a1 ++ a2 ++ a3)%list,
          mkState w3 (tr ++ [EvFetch u1; EvFetch u2; EvFetch u3]))
  /\ Z.of_nat (length (a1 ++ a2 ++ a3)%list) = 2 * N + (N - 1).
Proof.
  intros H1 L1 H2 L2 H3 L3 Hfuel.
  split; [|rewrite !length_app; lia].
  destruct fuel as [|[|[|fuel]]]; try lia.
  unfold fetchAllPages.
  rewrite (loop_served _ _ _ _ _ _ _ _ _ _ _ _ H1).
  assert (E1 : (length a1 =? 0)%nat = false) by (apply Nat.eqb_neq; lia).
  assert (F1 : (Z.of_nat (length a1) <? N) = false) by (apply Z.ltb_ge; lia).
  rewrite E1, F1. change (1 + 1) with 2.
  rewrite (loop_served _ _ _ _ _ _ _ _ _ _ _ _ H2).
  assert (E2 : (length a2 =? 0)%nat = false) by (apply Nat.eqb_neq; lia).
  assert (F2 : (Z.of_nat (length a2) <? N) = false) by (apply Z.ltb_ge; lia).
  rewrite E2, F2. change (2 + 1) with 3.
  rewrite (loop_served _ _ _ _ _ _ _ _ _ _ _ _ H3).
  assert (F3 : (Z.of_nat (length a3) <? N) = true) by (apply Z.ltb_lt; lia).
  rewrite F3. cbn [app]. rewrite <- !app_assoc. cbn [app].
  destruct (length a3 =? 0)%nat eqn:E3; [|reflexivity].
  apply Nat.eqb_eq in E3. destruct a3; [|discriminate].
  rewrite !app_nil_r. reflexivity.
Qed.

Lemma loop_reaches path params pageSize opts n p out st q out' st' :
  reaches path params pageSize opts n p out st q out' st' ->
  forall fuel,
    fetchAllPages_loop (n + fuel) path params pageSize opts p out st
    = fetchAllPages_loop fuel path params pageSize opts q out' st'.
Proof.
  induction 1 as [|n p out st url res body st1 q out' st' Hu Hs Hj Hne Hfull _ IH];
    intros fuel; [reflexivity|].
  cbn [Nat.add].
  rewrite (loop_iteration _ _ _ _ _ _ _ _ url res body st1 Hu Hs Hj).
  assert (E : (length (page_items body) =? 0)%nat = false).
  { apply Nat.eqb_neq. destruct (page_items body); [congruence | discriminate]. }
  assert (F : (Z.of_nat (length (page_items body)) <? pageSize) = false)
    by (apply Z.ltb_ge; lia).
  rewrite E, F. apply IH.
Qed.

Lemma default_arg_idem v d : default_arg (default_arg v d) d = default_arg v d.
Proof. unfold default_arg. destruct v; try reflexivity. destruct d; reflexivity. Qed.

Lemma loadLineItems_resolves fuel orderId opts st r st' :
  loadLineItems fuel orderId opts st = Some (r, st') -> exists v, r = Ok v.
Proof.
  unfold loadLineItems. destruct (negb (truthy orderId)).
  - intros [= <- _]. eexists; reflexivity.
  - unfold catchM, bindM.
    destruct (fetchAllPages _ _ _ _ _ st) as [[[a|e] st1]|]; cbn.
    + intros [= <- _]. eexists; reflexivity.
    + intros [= <- _]. eexists; reflexivity.
    + discriminate.
Qed.

Lemma loadShipments_resolves fuel orderId opts st r st' :
  loadShipments fuel orderId opts st = Some (r, st') -> exists v, r = Ok v.
Proof.
  unfold loadShipments. destruct (negb (truthy orderId)).
  - intros [= <- _]. eexists; reflexivity.
  - unfold catchM, bindM.
    destruct (fetchAllPages _ _ _ _ _ st) as [[[a|e] st1]|]; cbn.
    + intros [= <- _]. eexists; reflexivity.
    + intros [= <- _]. eexists; reflexivity.
    + discriminate.
Qed.

Lemma loadOrder_resolves orderId opts st :
  exists v st', loadOrder orderId opts st = Some (Ok v, st').
Proof.
  unfold loadOrder. destruct (negb (truthy orderId)); [do 2 eexists; reflexivity|].
  unfold catchM, bindM at 1, liftR at 1.
  destruct (prop (default_arg opts (JObj [])) "token" ||| Ok TOKEN) as [tok|e];
    [|do 2 eexists; reflexivity].
  unfold bindM at 1, liftR at 1.
  destruct (prop (default_arg opts (JObj [])) "subdomain" ||| Ok SUBDOMAIN) as [sub|e];
    [|do 2 eexists; reflexivity].
  unfold bindM at 1.
  match goal with |- context [safeFetch ?u ?r ?d st] =>
    destruct (safeFetch_loop_spec 2 u d st)
      as (earlier & final & w' & _ & _ & _ & Hrun & _);
    change (safeFetch u r d st) with (safeFetch_loop 3 u d st);
    rewrite Hrun
  end.
  destruct final as [res|e]; cbn [settled_by];
    [destruct (ok res)|]; try (do 2 eexists; reflexivity).
  unfold bindM, liftR. destruct (json res); do 2 eexists; reflexivity.
Qed.

(** C3 (amended): when the executor throws while the fetcher stands at
    some page, after any number of full pages, [fetchAllPages] throws that
    error to its caller and returns nothing of what it had accumulated;
    [loadLineItems] and [loadShipments] catch the error, print a warning
    and return the empty array. *)
Theorem pagination_failure_is_thrown (path : string) (params opts : JsVal) (N : Z)
    (n : nat) (st stk st' : State) (k : Z) (out : list JsVal) (url : Url)
    (e : JsError) (fuel : nat) :
  reaches path (default_arg params (JObj [])) N (default_arg opts (JObj []))
    n 1 [] st k out stk ->
  page_url path (default_arg params (JObj [])) N (default_arg opts (JObj [])) k = Ok url ->
  safeFetch url default_retries default_delay stk = Some (Throw e, st') ->
  (n < fuel)%nat ->
  fetchAllPages fuel path params N opts st = Some (Throw e, st')
  /\ (forall orderId,
        truthy orderId = true ->
        path = "/orders/" ++ to_string orderId ++ "/line_items" ->
        params = JObj [] -> N = 200 ->
        loadLineItems fuel orderId opts st
        = Some (Ok (JArr []), warned "loadLineItems error" e st'))
  /\ (forall orderId,
        truthy orderId = true ->
        path = "/orders/" ++ to_string orderId ++ "/shipments" ->
        params = JObj [] -> N = 200 ->
        loadShipments fuel orderId opts st
        = Some (Ok (JArr []), warned "loadShipments error" e st')).
Proof.
  intros Hreach Hu Hs Hfuel.
  assert (Hall : fetchAllPages fuel path params N opts st = Some (Throw e, st')).
  { unfold fetchAllPages.
    replace fuel with (n + S (fuel - S n))%nat by lia.
    rewrite (loop_reaches _ _ _ _ _ _ _ _ _ _ _ Hreach).
    apply (loop_executor_throws _ _ _ _ _ _ _ _ url); assumption. }
  split; [exact Hall|]. split.
  - intros orderId Ht -> -> ->. unfold loadLineItems. rewrite Ht. cbn [negb].
    unfold catchM, bindM at 1.
    replace (fetchAllPages fuel _ (JObj []) 200 (default_arg opts (JObj [])) st)
      with (Some (@Throw (list JsVal) e, st')).
    + reflexivity.
    + rewrite <- Hall. unfold fetchAllPages. rewrite default_arg_idem. reflexivity.
  - intros orderId Ht -> -> ->. unfold loadShipments. rewrite Ht. cbn [negb].
    unfold catchM, bindM at 1.
    replace (fetchAllPages fuel _ (JObj []) 200 (default_arg opts (JObj [])) st)
      with (Some (@Throw (list JsVal) e, st')).
    + reflexivity.
    + rewrite <- Hall. unfold fetchAllPages. rewrite default_arg_idem. reflexivity.
Qed.

End Pagination.

Lemma three_pages_fetched_witness :
  exists u1 u2 u3,
    fetchAllPages (R := three_pages_runtime) 3 "/orders" (JObj []) 2 (JObj [])
      (mkState (R := three_pages_runtime) tt [])
    = Some (Ok [JNum 11; JNum 12; JNum 21; JNum 22; JNum 31],
            mkState (R := three_pages_runtime) tt
              [EvFetch u1; EvFetch u2; EvFetch u3])
    /\ map (fun u => query_param "page" (url_query u)) [u1; u2; u3] = ["1"; "2"; "3"].
Proof.
  pose (u := fun p : Z =>
               mkUrl "https://shop.mybrightsites.com/api/v2.6.1" "/orders"
                     [("page", string_of_Z p); ("per_page", "2"); ("token", "secret")]).
  exists (u 1), (u 2), (u 3). split; [|reflexivity].
  refine (proj1 (three_pages_fetched (R := three_pages_runtime)
                   "/orders" (JObj []) (JObj []) 2 tt tt tt tt [] (u 1) (u 2) (u 3)
                   [JNum 11; JNum 12] [JNum 21; JNum 22] [JNum 31] 3
                   _ _ _ _ _ _ _)).
  - split; [reflexivity|]. do 2 eexists. repeat split; reflexivity.
  - reflexivity.
  - split; [reflexivity|]. do 2 eexists. repeat split; reflexivity.
  - reflexivity.
  - split; [reflexivity|]. do 2 eexists. repeat split; reflexivity.
  - reflexivity.
  - lia.
Defined.

(** C2 as the specification words it: 3N + (N-1) items.  Pages of 2, 2
    and 1 items, for a page size of 2, make 5 items and not 7. *)
Lemma claimed_page_total_fails :
  exists u1 u2 u3 a1 a2 a3 items st',
    page_served (R := three_pages_runtime) "/orders" (JObj []) 2 (JObj []) 1 u1 tt tt a1
    /\ Z.of_nat (length a1) = 2
    /\ page_served (R := three_pages_runtime) "/orders" (JObj []) 2 (JObj []) 2 u2 tt tt a2
    /\ Z.of_nat (length a2) = 2
    /\ page_served (R := three_pages_runtime) "/orders" (JObj []) 2 (JObj []) 3 u3 tt tt a3
    /\ Z.of_nat (length a3) = 2 - 1
    /\ fetchAllPages (R := three_pages_runtime) 4 "/orders" (JObj []) 2 (JObj [])
         (mkState (R := three_pages_runtime) tt [])
       = Some (Ok items, st')
    /\ Z.of_nat (length items) <> 3 * 2 + (2 - 1).
Proof.
  do 8 eexists.
  split; [split; [reflexivity|]; do 2 eexists; repeat split; reflexivity|].
  split; [reflexivity|].
  split; [split; [reflexivity|]; do 2 eexists; repeat split; reflexivity|].
  split; [reflexivity|].
  split; [split; [reflexivity|]; do 2 eexists; repeat split; reflexivity|].
  split; [reflexivity|].
  split; [vm_compute; reflexivity|].
  discriminate.
Qed.

Lemma pagination_failure_is_thrown_witness :
  exists st',
    fetchAllPages (R := down_runtime) 2 "/orders/7/line_items" (JObj []) 200 (JObj [])
      (mkState (R := down_runtime) tt [])
    = Some (Throw (mkError "FetchError" "socket hang up"), st')
    /\ loadLineItems (R := down_runtime) 2 (JNum 7) (JObj [])
         (mkState (R := down_runtime) tt [])
       = Some (Ok (JArr []),
               warned "loadLineItems error" (mkError "FetchError" "socket hang up") st').
Proof.
  pose (u := fun p : Z =>
               mkUrl "https://shop.mybrightsites.com/api/v2.6.1" "/orders/7/line_items"
                     [("page", string_of_Z p); ("per_page", "200"); ("token", "secret")]).
  pose (st1 := mkState (R := down_runtime) tt [EvFetch (u 1)]).
  pose (st' := mkState (R := down_runtime) tt
                 [EvFetch (u 1); EvFetch (u 2); EvSleep 500; EvFetch (u 2);
                  EvSleep 500; EvFetch (u 2)]).
  exists st'.
  assert (Hreach : reaches (R := down_runtime) "/orders/7/line_items" (JObj []) 200
                     (JObj []) 1 1 [] (mkState (R := down_runtime) tt []) 2
                     first_page_items st1).
  { eapply (reaches_next (R := down_runtime) _ _ _ _ 0 1 [] _ (u 1)).
    - reflexivity.
    - vm_compute. reflexivity.
    - reflexivity.
    - discriminate.
    - vm_compute. discriminate.
    - apply reaches_here. }
  destruct (pagination_failure_is_thrown (R := down_runtime) "/orders/7/line_items"
              (JObj []) (JObj []) 200 1 (mkState (R := down_runtime) tt []) st1 st' 2
              first_page_items (u 2)
              (mkError "FetchError" "socket hang up") 2 Hreach)
    as (Hall & Hli & _).
  - reflexivity.
  - vm_compute. reflexivity.
  - lia.
  - split; [exact Hall|].
    apply (Hli (JNum 7)); reflexivity.
Defined.

(** C3 as the specification words it: the fetcher would stop and return
    the 200 items of the first page.  It throws instead, and the loader
    that catches the error returns no item at all. *)
Lemma claimed_partial_result_fails :
  (exists u1, page_served (R := down_runtime) "/orders/7/line_items" (JObj []) 200 (JObj [])
                1 u1 tt tt first_page_items)
  /\ (forall st', fetchAllPages (R := down_runtime) 5 "/orders/7/line_items" (JObj []) 200
                    (JObj []) (mkState (R := down_runtime) tt [])
                  <> Some (Ok first_page_items, st'))
  /\ (exists e st', fetchAllPages (R := down_runtime) 5 "/orders/7/line_items" (JObj []) 200
                      (JObj []) (mkState (R := down_runtime) tt [])
                    = Some (Throw e, st'))
  /\ (forall st', loadLineItems (R := down_runtime) 5 (JNum 7) (JObj [])
                    (mkState (R := down_runtime) tt [])
                  <> Some (Ok (JArr first_page_items), st'))
  /\ (exists st', loadLineItems (R := down_runtime) 5 (JNum 7) (JObj [])
                    (mkState (R := down_runtime) tt [])
                  = Some (Ok (JArr []), st')).
Proof.
  assert (Hf : exists e st', fetchAllPages (R := down_runtime) 5 "/orders/7/line_items"
                               (JObj []) 200 (JObj [])
                               (mkState (R := down_runtime) tt [])
                             = Some (Throw e, st')).
  { do 2 eexists. vm_compute. reflexivity. }
  assert (Hl : exists st', loadLineItems (R := down_runtime) 5 (JNum 7) (JObj [])
                             (mkState (R := down_runtime) tt [])
                           = Some (Ok (JArr []), st')).
  { eexists. vm_compute. reflexivity. }
  split.
  { eexists. split; [reflexivity|]. do 2 eexists. repeat split; reflexivity. }
  split.
  { intros st' H. destruct Hf as (e & st'' & Hf). rewrite Hf in H. discriminate. }
  split; [exact Hf|]. split; [|exact Hl].
  intros st' H. destruct Hl as (st'' & Hl). rewrite Hl in H. discriminate.
Qed.

(** *** The promise pool *)

Section PoolFacts.
Variable items : list JsVal.
Variable worker : JsVal -> nat -> Res JsVal.

Lemma array_set_lookup_eq idx v (arr : list (option JsVal)) :
  array_set idx v arr !! idx = Some (Some v).
Proof.
  unfold array_set. apply list_lookup_insert_eq.
  rewrite length_app, length_replicate. lia.
Qed.

Lemma array_set_lookup_ne idx v (arr : list (option JsVal)) j x :
  j <> idx -> arr !! j = Some x -> array_set idx v arr !! j = Some x.
Proof.
  intros Hne Hj. unfold array_set.
  rewrite list_lookup_insert_ne by congruence.
  rewrite lookup_app_l; [exact Hj | eapply lookup_lt_Some; exact Hj].
Qed.

Lemma array_set_length idx v (arr : list (option JsVal)) :
  length (array_set idx v arr) = Nat.max (length arr) (S idx).
Proof.
  unfold array_set. rewrite length_insert, length_app, length_replicate. lia.
Qed.

Lemma pool_init_inv c : pool_inv items worker c (pool_init c).
Proof.
  constructor; cbn.
  - apply length_replicate.
  - lia.
  - intros r idx H. apply lookup_replicate in H as [H _]. discriminate.
  - intros idx H. lia.
  - lia.
  - intros r H. apply lookup_replicate in H as [H _]. discriminate.
Qed.

Lemma pool_step_inv c r p p' :
  pool_inv items worker c p -> pool_step items worker r p = Some p' ->
  pool_inv items worker c p'.
Proof.
  intros [Hc Hb Haw Hst Hlen Hret]. unfold pool_step.
  destruct (pool_runners p !! r) as [[|idx0|]|] eqn:Hr; try discriminate.
  - destruct (pool_i p <? length items)%nat eqn:Hlt; intros [= <-].
    + apply Nat.ltb_lt in Hlt. constructor; cbn.
      * rewrite length_insert. exact Hc.
      * lia.
      * intros r' idx H.
        apply list_lookup_insert_Some in H as [(-> & [= <-] & _)|(Hne & H)]; [lia|].
        specialize (Haw _ _ H). lia.
      * intros idx Hidx Hna.
        assert (Hneq : idx <> pool_i p).
        { intros ->. apply Hna. exists r. cbn.
          apply list_lookup_insert_eq. eapply lookup_lt_Some; exact Hr. }
        apply Hst; [lia|].
        intros (r' & H). apply Hna. exists r'. cbn.
        rewrite list_lookup_insert_ne; [exact H|]. intros ->. congruence.
      * lia.
      * intros r' H.
        apply list_lookup_insert_Some in H as [(_ & [=] & _)|(Hne & H)].
        specialize (Hret _ H). lia.
    + apply Nat.ltb_ge in Hlt. constructor; cbn.
      * rewrite length_insert. exact Hc.
      * exact Hb.
      * intros r' idx H.
        apply list_lookup_insert_Some in H as [(_ & [=] & _)|(Hne & H)].
        exact (Haw _ _ H).
      * intros idx Hidx Hna. apply Hst; [exact Hidx|].
        intros (r' & H). apply Hna. exists r'. cbn.
        rewrite list_lookup_insert_ne; [exact H|]. intros ->. congruence.
      * exact Hlen.
      * intros _ _. lia.
  - intros [= <-]. constructor; cbn.
    + rewrite length_insert. exact Hc.
    + exact Hb.
    + intros r' idx H.
      apply list_lookup_insert_Some in H as [(_ & [=] & _)|(Hne & H)].
      exact (Haw _ _ H).
    + intros idx Hidx Hna.
      destruct (decide (idx = idx0)) as [->|Hneq].
      * apply array_set_lookup_eq.
      * apply array_set_lookup_ne; [exact Hneq|].
        apply Hst; [exact Hidx|].
        intros (r' & H). apply Hna. exists r'. cbn.
        rewrite list_lookup_insert_ne; [exact H|]. intros ->. congruence.
    + rewrite array_set_length. specialize (Haw _ _ Hr). lia.
    + intros r' H.
      apply list_lookup_insert_Some in H as [(_ & [=] & _)|(Hne & H)].
      exact (Hret _ H).
Qed.

Lemma pool_run_inv c schedule p p' :
  pool_inv items worker c p -> pool_run items worker schedule p = Some p' ->
  pool_inv items worker c p'.
Proof.
  revert p. induction schedule as [|r rest IH]; intros p Hinv; cbn.
  - intros [= <-]. exact Hinv.
  - destruct (pool_step items worker r p) as [p1|] eqn:Hs; [|discriminate].
    apply IH. eapply pool_step_inv; eassumption.
Qed.

Lemma pool_done_lookup p r x :
  pool_done p = true -> pool_runners p !! r = Some x -> x = Returned.
Proof.
  unfold pool_done. intros Hd Hr.
  rewrite forallb_forall in Hd.
  assert (Hin : In x (pool_runners p)).
  { apply list_elem_of_In. eapply list_elem_of_lookup_2. exact Hr. }
  specialize (Hd _ Hin). destruct x; [discriminate | discriminate | reflexivity].
Qed.

Lemma pool_done_results c p :
  (0 < c)%nat -> pool_inv items worker c p -> pool_done p = true ->
  pool_results p = expected_results items worker.
Proof.
  intros Hc [Hrun Hb Haw Hst Hlen Hret] Hd.
  assert (Hi : pool_i p = length items).
  { destruct (lookup_lt_is_Some_2 (pool_runners p) 0%nat) as [x Hx]; [lia|].
    apply (Hret 0%nat). rewrite Hx. f_equal. eapply pool_done_lookup; eassumption. }
  assert (Hnone : forall idx, ~ awaited p idx).
  { intros idx (r & Hr). pose proof (pool_done_lookup _ _ _ Hd Hr). discriminate. }
  apply list_eq. intros idx. unfold expected_results.
  rewrite list_lookup_imap.
  destruct (items !! idx) as [item|] eqn:Hitem; cbn.
  - rewrite Hst; [|rewrite Hi; eapply lookup_lt_Some; exact Hitem | apply Hnone].
    unfold expected_slot. rewrite Hitem. reflexivity.
  - apply lookup_ge_None. apply lookup_ge_None in Hitem. lia.
Qed.

Lemma pool_run_app s1 s2 p :
  pool_run items worker (s1 ++ s2)%list p
  = match pool_run items worker s1 p with
    | Some p' => pool_run items worker s2 p'
    | None => None
    end.
Proof.
  revert p. induction s1 as [|r s1 IH]; intros p; cbn; [reflexivity|].
  destruct (pool_step items worker r p); [apply IH | reflexivity].
Qed.

Lemma sequential_phase m p :
  pool_runners p !! 0%nat = Some AtLoopHead ->
  (pool_i p + m = length items)%nat ->
  exists res,
    pool_run items worker (sequential_schedule m) p
    = Some (mkPool (length items) res (pool_runners p)).
Proof.
  revert p. induction m as [|m IH]; intros p H0 Hi; cbn [sequential_schedule pool_run].
  - exists (pool_results p). destruct p as [i res rs]. cbn in *.
    replace (length items) with i by lia. reflexivity.
  - unfold pool_step at 1. rewrite H0.
    assert (Hlt : (pool_i p <? length items)%nat = true) by (apply Nat.ltb_lt; lia).
    rewrite Hlt. unfold pool_step at 1. cbn [pool_runners pool_i pool_results].
    rewrite list_lookup_insert_eq by (eapply lookup_lt_Some; exact H0).
    rewrite list_insert_insert_eq, (list_insert_id _ _ _ H0).
    destruct (IH (mkPool (S (pool_i p))
                    (array_set (pool_i p)
                       (slot_of (worker (default JUndefined (items !! pool_i p)) (pool_i p)))
                       (pool_results p))
                    (pool_runners p))) as [res Hres]; cbn; [exact H0 | lia |].
    exists res. exact Hres.
Qed.

Lemma closing_phase m k i res :
  (length items <= i)%nat ->
  pool_run items worker (seq k m)
    (mkPool i res (replicate k Returned ++ replicate m AtLoopHead)%list)
  = Some (mkPool i res (replicate (k + m) Returned)).
Proof.
  intros Hi. revert k. induction m as [|m IH]; intros k; cbn [seq pool_run replicate].
  - rewrite app_nil_r, Nat.add_0_r. reflexivity.
  - unfold pool_step. cbn [pool_runners pool_i pool_results].
    rewrite lookup_app_r by (rewrite length_replicate; lia).
    rewrite length_replicate, Nat.sub_diag. cbn [lookup list_lookup].
    assert (Hge : (i <? length items)%nat = false) by (apply Nat.ltb_ge; lia).
    rewrite Hge.
    rewrite insert_app_r_alt by (rewrite length_replicate; lia).
    rewrite length_replicate, Nat.sub_diag. cbn [insert list_insert].
    replace (replicate k Returned ++ Returned :: replicate m AtLoopHead)%list
      with (replicate (S k) Returned ++ replicate m AtLoopHead)%list.
    + rewrite IH. f_equal. f_equal. f_equal. lia.
    + rewrite replicate_S_end, <- app_assoc. reflexivity.
Qed.

Lemma pool_done_replicate i res c :
  pool_done (mkPool i res (replicate c Returned)) = true.
Proof. unfold pool_done. cbn. induction c; cbn; [reflexivity | assumption]. Qed.

Lemma complete_schedule_runs c :
  (0 < c)%nat ->
  promisePool items worker c (complete_schedule (length items) c)
  = Some (expected_results items worker).
Proof.
  intros Hc. unfold promisePool, complete_schedule.
  pose proof (pool_run_inv c (sequential_schedule (length items) ++ seq 0 c)%list
                (pool_init c)) as Hinv.
  rewrite pool_run_app in Hinv |- *.
  destruct (sequential_phase (length items) (pool_init c)) as [res Hres].
  { cbn. apply lookup_replicate_2. exact Hc. }
  { reflexivity. }
  rewrite Hres in Hinv |- *. cbn [pool_init pool_runners] in Hinv |- *.
  pose proof (closing_phase c 0 (length items) res (Nat.le_refl _)) as Hclose.
  cbn [replicate app Nat.add] in Hclose. rewrite Hclose in Hinv |- *.
  rewrite pool_done_replicate. f_equal.
  apply (pool_done_results c); [exact Hc | | apply pool_done_replicate].
  apply Hinv; [apply pool_init_inv | reflexivity].
Qed.

Lemma weight_insert (l : list Runner) r x y :
  l !! r = Some x ->
  (list_sum (map runner_weight (<[r := y]> l)) + runner_weight x
   = list_sum (map runner_weight l) + runner_weight y)%nat.
Proof.
  unfold list_sum.
  revert r. induction l as [|a l IH]; intros [|r] H; simpl in *; try discriminate.
  - injection H as ->. lia.
  - specialize (IH r H). lia.
Qed.

Lemma pool_step_measure r p p' :
  pool_step items worker r p = Some p' ->
  (pool_measure items p' < pool_measure items p)%nat.
Proof.
  unfold pool_step, pool_measure.
  destruct (pool_runners p !! r) as [[|idx|]|] eqn:Hr; try discriminate.
  - destruct (pool_i p <? length items)%nat eqn:Hlt; intros [= <-];
      cbn [pool_i pool_runners pool_results].
    + apply Nat.ltb_lt in Hlt.
      pose proof (weight_insert _ _ _ (Awaiting (pool_i p)) Hr) as Hw.
      cbn [runner_weight] in Hw. lia.
    + pose proof (weight_insert _ _ _ Returned Hr) as Hw.
      cbn [runner_weight] in Hw. lia.
  - intros [= <-]; cbn [pool_i pool_runners pool_results].
    pose proof (weight_insert _ _ _ AtLoopHead Hr) as Hw.
    cbn [runner_weight] in Hw. lia.
Qed.

Lemma pool_run_bounded schedule p p' :
  pool_run items worker schedule p = Some p' ->
  (length schedule + pool_measure items p' <= pool_measure items p)%nat.
Proof.
  revert p. induction schedule as [|r rest IH]; intros p; cbn [pool_run length].
  - intros [= <-]. lia.
  - destruct (pool_step items worker r p) as [p1|] eqn:Hs; [|discriminate].
    intros H. specialize (IH _ H). apply pool_step_measure in Hs. lia.
Qed.

Lemma not_all_returned (rs : list Runner) :
  forallb (fun r => match r with Returned => true | _ => false end) rs = false ->
  exists r x, rs !! r = Some x /\ x <> Returned.
Proof.
  induction rs as [|a rs IH]; simpl; [discriminate|].
  destruct a; simpl.
  - intros _. exists 0%nat, AtLoopHead. split; [reflexivity | discriminate].
  - intros _. exists 0%nat, (Awaiting idx). split; [reflexivity | discriminate].
  - intros H. destruct (IH H) as (r & x & Hr & Hx). exists (S r), x. split; assumption.
Qed.

Lemma pool_progress p :
  pool_done p = false -> exists r p', pool_step items worker r p = Some p'.
Proof.
  intros H. apply not_all_returned in H as (r & x & Hr & Hx).
  exists r. unfold pool_step. rewrite Hr.
  destruct x as [|idx|]; [|eexists; reflexivity|congruence].
  destruct (pool_i p <? length items)%nat; eexists; reflexivity.
Qed.

(** C4: the pool has complete executions, every execution that is not
    complete can go on, none has more than [3 * items + concurrency]
    moves, and under every complete one the pool returns one slot per
    item, in the order of the items: the worker's result where the worker
    resolved, and where it threw the error marker, the object whose one
    property [error] is the thrown error printed, [name: message] for an
    error that has both.  A worker that throws for one order changes no
    other slot. *)
Theorem pool_isolates_failures (concurrency : nat) :
  (0 < concurrency)%nat ->
  (exists schedule,
     promisePool items worker concurrency schedule
     = Some (expected_results items worker))
  /\ (forall schedule p,
        pool_run items worker schedule (pool_init concurrency) = Some p ->
        (length schedule <= 3 * length items + concurrency)%nat
        /\ (pool_done p = false -> exists r p', pool_step items worker r p = Some p'))
  /\ (forall schedule results,
        promisePool items worker concurrency schedule = Some results ->
        results = expected_results items worker)
  /\ length (expected_results items worker) = length items
  /\ (forall idx item e,
        items !! idx = Some item -> worker item idx = Throw e ->
        expected_results items worker !! idx
        = Some (Some (JObj [("error", JStr (error_to_string e))])))
  /\ (forall name message,
        name <> "" -> message <> "" ->
        error_to_string (mkError name message) = name ++ ": " ++ message)
  /\ (forall idx item v,
        items !! idx = Some item -> worker item idx = Ok v ->
        expected_results items worker !! idx = Some (Some v)).
Proof.
  intros Hc. split; [|split; [|split; [|split; [|split; [|split]]]]].
  - exists (complete_schedule (length items) concurrency).
    apply complete_schedule_runs, Hc.
  - intros schedule p Hrun. split; [|apply pool_progress].
    apply pool_run_bounded in Hrun. unfold pool_measure at 2 in Hrun.
    cbn [pool_init pool_i pool_runners] in Hrun.
    assert (Hw : list_sum (map runner_weight (replicate concurrency AtLoopHead))
                 = concurrency).
    { clear. induction concurrency as [|c IH]; [reflexivity|].
      change (S (list_sum (map runner_weight (replicate c AtLoopHead))) = S c).
      rewrite IH. reflexivity. }
    rewrite Hw in Hrun. lia.
  - intros schedule results. unfold promisePool.
    destruct (pool_run items worker schedule (pool_init concurrency)) as [p|] eqn:Hrun;
      [|discriminate].
    destruct (pool_done p) eqn:Hd; [|discriminate].
    intros [= <-]. apply (pool_done_results concurrency); [exact Hc| |exact Hd].
    eapply pool_run_inv; [apply pool_init_inv | exact Hrun].
  - unfold expected_results. apply length_imap.
  - intros idx item e Hitem Hw. unfold expected_results.
    rewrite list_lookup_imap, Hitem. cbn. rewrite Hw. reflexivity.
  - intros name message Hname Hmessage. unfold error_to_string. cbn [err_name err_message].
    destruct name; [congruence|]. destruct message; [congruence|]. reflexivity.
  - intros idx item v Hitem Hw. unfold expected_results.
    rewrite list_lookup_imap, Hitem. cbn. rewrite Hw. reflexivity.
Qed.

End PoolFacts.

Lemma pool_isolates_failures_witness :
  (0 < 5)%nat
  /\ exists results,
       promisePool three_orders offline_worker 5 interleaved_schedule = Some results
       /\ results = expected_results three_orders offline_worker
       /\ results
          = [Some (JObj [("order", JObj [("id", JNum 1)]); ("line_items", JArr []);
                         ("shipments", JArr [])]);
             Some (JObj [("error",
                          JStr "TypeError: Cannot read properties of null (reading 'id')")]);
             Some (JObj [("order", JObj [("order_id", JNum 3)]); ("line_items", JArr []);
                         ("shipments", JArr [])])].
Proof.
  assert (H5 : (0 < 5)%nat) by lia.
  split; [exact H5|].
  destruct (pool_isolates_failures three_orders offline_worker 5 H5)
    as (_ & _ & Hall & _).
  eexists. split; [vm_compute; reflexivity|].
  split; [|reflexivity].
  apply (Hall interleaved_schedule). vm_compute. reflexivity.
Defined.

(** *** Tracking resolution *)

Lemma same_Num_eq a b : same_Num a b = true <-> a = b.
Proof.
  destruct a as [x|p], b as [y|q]; cbn; split; try discriminate; intros H.
  - apply Z.eqb_eq in H. congruence.
  - injection H as ->. apply Z.eqb_refl.
  - apply String.eqb_eq in H. congruence.
  - injection H as ->. apply String.eqb_refl.
Qed.

Lemma same_Num_sym a b : same_Num a b = same_Num b a.
Proof.
  destruct a as [x|p], b as [y|q]; cbn; try reflexivity.
  - apply Z.eqb_sym.
  - apply String.eqb_sym.
Qed.

Lemma same_value_zero_sym a b : same_value_zero a b = same_value_zero b a.
Proof.
  destruct a, b; cbn; try reflexivity.
  - destruct b, b0; reflexivity.
  - apply same_Num_sym.
  - apply String.eqb_sym.
Qed.

Lemma same_value_zero_trans a b c :
  same_value_zero a b = true -> same_value_zero b c = true ->
  same_value_zero a c = true.
Proof.
  destruct a, b; cbn; try discriminate; destruct c; cbn; try discriminate; try reflexivity.
  - destruct b, b0, b1; cbn; congruence.
  - rewrite !same_Num_eq. congruence.
  - rewrite !String.eqb_eq. congruence.
Qed.

Lemma filter_filter_and {A} (f g : A -> bool) l :
  List.filter f (List.filter g l) = List.filter (fun x => f x && g x) l.
Proof.
  induction l as [|x l IH]; cbn; [reflexivity|].
  destruct (g x); cbn; destruct (f x); cbn; rewrite IH; reflexivity.
Qed.

Lemma includes_app acc x y :
  includes (acc ++ [x])%list y = includes acc y || same_value_zero y x.
Proof.
  unfold includes. rewrite existsb_app. cbn. rewrite orb_false_r. reflexivity.
Qed.

Lemma fold_set_add l acc :
  fold_left set_add l acc
  = (acc ++ List.filter (fun y => negb (includes acc y)) (first_seen l))%list.
Proof.
  revert acc. induction l as [|x r IH]; intros acc; cbn [fold_left first_seen List.filter].
  - rewrite app_nil_r. reflexivity.
  - unfold set_add at 2. destruct (includes acc x) eqn:Hx; cbn [negb].
    + rewrite IH, filter_filter_and. f_equal. apply filter_ext. intros y.
      destruct (includes acc y) eqn:Hy; cbn; [reflexivity|].
      destruct (same_value_zero x y) eqn:Hxy; [|reflexivity]. exfalso.
      unfold includes in Hx, Hy. apply existsb_exists in Hx as (a & Ha & Hxa).
      assert (Hya : existsb (same_value_zero y) acc = true).
      { apply existsb_exists. exists a. split; [exact Ha|].
        apply (same_value_zero_trans y x a); [|exact Hxa].
        rewrite same_value_zero_sym. exact Hxy. }
      congruence.
    + rewrite IH, <- app_assoc. cbn [app]. f_equal. f_equal.
      rewrite filter_filter_and. apply filter_ext. intros y.
      rewrite includes_app, negb_orb, (same_value_zero_sym y x). reflexivity.
Qed.

Lemma set_of_first_seen l : set_of l = first_seen l.
Proof.
  unfold set_of. rewrite fold_set_add. cbn [app].
  rewrite <- (filter_ext (fun _ => true)); [|reflexivity].
  induction (first_seen l) as [|x r IH]; cbn; [reflexivity | rewrite IH; reflexivity].
Qed.

Lemma first_seen_incl l x : In x (first_seen l) -> In x l.
Proof.
  induction l as [|a r IH]; cbn [first_seen]; [tauto|].
  intros [->|H]; [left; reflexivity|].
  right. apply IH. apply filter_In in H. tauto.
Qed.

Lemma same_value_zero_eq a x : same_value_zero a x = true -> a = x.
Proof.
  destruct a, x; cbn; try discriminate; try reflexivity; intros H.
  - apply Bool.eqb_prop in H. congruence.
  - apply same_Num_eq in H. congruence.
  - apply String.eqb_eq in H. congruence.
Qed.

Lemma first_seen_keeps l x : In x l -> In x (first_seen l).
Proof.
  induction l as [|a r IH]; cbn [first_seen]; [tauto|].
  intros [->|H]; [left; reflexivity|].
  destruct (same_value_zero a x) eqn:E.
  - left. apply same_value_zero_eq, E.
  - right. apply filter_In. split; [apply IH, H | rewrite E; reflexivity].
Qed.

Lemma filter_pairwise {A} (R : A -> A -> Prop) (f : A -> bool) l :
  ForallOrdPairs R l -> ForallOrdPairs R (List.filter f l).
Proof.
  induction 1 as [|a l Ha _ IH]; cbn [List.filter]; [constructor|].
  destruct (f a); [|exact IH].
  constructor; [|exact IH].
  apply List.Forall_forall. intros y Hy. apply filter_In in Hy as [Hy _].
  rewrite List.Forall_forall in Ha. apply Ha, Hy.
Qed.

Lemma first_seen_distinct l :
  ForallOrdPairs (fun a b => same_value_zero a b = false) (first_seen l).
Proof.
  induction l as [|a r IH]; cbn [first_seen]; constructor.
  - apply List.Forall_forall. intros y Hy. apply filter_In in Hy as [_ Hy].
    apply negb_true_iff, Hy.
  - apply filter_pairwise, IH.
Qed.

Lemma filter_sublist {A} (f : A -> bool) (l : list A) : sublist (List.filter f l) l.
Proof.
  induction l as [|a l IH]; cbn [List.filter]; [constructor|].
  destruct (f a); [apply sublist_skip | apply sublist_cons]; exact IH.
Qed.

Lemma first_seen_sublist l : sublist (first_seen l) l.
Proof.
  induction l as [|a r IH]; cbn [first_seen]; [constructor|].
  apply sublist_skip. etransitivity; [apply filter_sublist | exact IH].
Qed.

Lemma tracking_of_shape s :
  nullish s = false -> tracking_of s = Ok (tracking_number s).
Proof.
  intros Hs. unfold tracking_of, tracking_number, orM, or_val.
  rewrite !(prop_ok _ _ Hs). cbn [bind].
  destruct (truthy (prop_of s "tracking_number")) eqn:E1; cbn [bind]; rewrite ?E1;
    [reflexivity|].
  destruct (truthy (prop_of s "tracking")) eqn:E2; cbn [bind]; rewrite ?E2; reflexivity.
Qed.

Lemma includes_printed sid strs :
  includes (map JStr strs) (JStr sid) = existsb (String.eqb sid) strs.
Proof.
  unfold includes. induction strs as [|t strs IH]; cbn; [reflexivity|].
  rewrite IH. reflexivity.
Qed.

Lemma mapM_embedded_ids xs :
  Forall (fun x => nullish x = false) xs ->
  mapM (fun x => y <- prop x "id" ||| Ok x ;; Ok (JStr (to_string y))) xs
  = Ok (map JStr (map (fun x => to_string (or_val (prop_of x "id") x)) xs)).
Proof.
  induction 1 as [|x xs Hx _ IH]; cbn [mapM map]; [reflexivity|].
  rewrite IH. unfold orM, or_val. rewrite (prop_ok _ _ Hx). cbn [bind].
  destruct (truthy (prop_of x "id")); reflexivity.
Qed.

Lemma orM_ok a b : (Ok a ||| Ok b) = Ok (or_val a b).
Proof. unfold orM, or_val. cbn. destruct (truthy a); reflexivity. Qed.

Lemma as_array_or_absent method v :
  list_or_absent v ->
  as_array method (or_val v (JArr [])) = Ok (array_items (or_val v (JArr []))).
Proof.
  unfold or_val. intros [Hf | Ha].
  - rewrite Hf. reflexivity.
  - destruct v; try discriminate Ha. reflexivity.
Qed.

Lemma lists_line_item_shape s lineItemId :
  shipment_shape s ->
  lists_line_item s lineItemId = Ok (references lineItemId s).
Proof.
  intros (Hs & Hids & Hlis & Hall). unfold lists_line_item.
  rewrite !(prop_ok _ _ Hs), !orM_ok. cbn [bind].
  rewrite (as_array_or_absent _ _ Hids). cbn [bind].
  rewrite (as_array_or_absent _ _ Hlis). cbn [bind].
  rewrite (mapM_embedded_ids _ Hall). cbn [bind].
  rewrite <- map_map, !includes_printed.
  unfold references, listed_ids. rewrite existsb_app. reflexivity.
Qed.

Lemma collect_tracking_fold lineItemId ss found :
  Forall shipment_shape ss ->
  foldM (collect_tracking lineItemId) ss found
  = Ok (fold_left set_add
          (List.filter truthy (map tracking_number (List.filter (references lineItemId) ss)))
          found).
Proof.
  intros Hall. revert found.
  induction Hall as [|s ss Hs _ IH]; intros found; cbn [foldM List.filter map fold_left];
    [reflexivity|].
  unfold collect_tracking.
  rewrite (tracking_of_shape s (proj1 Hs)). cbn [bind].
  rewrite (lists_line_item_shape s lineItemId Hs).
  destruct (truthy (tracking_number s)) eqn:Ht; cbn [negb bind];
    destruct (references lineItemId s) eqn:Hr; cbn [map List.filter];
    rewrite ?Ht; cbn [fold_left]; apply IH.
Qed.

Lemma mapM_tracking_of ss :
  Forall shipment_shape ss -> mapM tracking_of ss = Ok (map tracking_number ss).
Proof.
  induction 1 as [|s ss Hs _ IH]; cbn [mapM map]; [reflexivity|].
  rewrite (tracking_of_shape s (proj1 Hs)), IH. reflexivity.
Qed.

Lemma tracking_arg_shipments order v :
  prop (JObj [("order", order); ("shipments", v)]) "order" = Ok order
  /\ prop (JObj [("order", order); ("shipments", v)]) "shipments" = Ok v.
Proof. split; reflexivity. Qed.

(** C1 (amended): for shipments it can read and print, tracking
    resolution returns the distinct non-empty tracking numbers of the
    shipments that list the line item, in first-seen order, joined by
    [; ]; when there is no such number (no shipment lists the line item,
    or those that do carry no tracking number) it returns the same of all
    the shipments; and it returns the empty string when the shipment list
    is empty or absent.  The tracking numbers of some shipments are
    pairwise distinct, in the order of the shipments, and none is lost.
    A shipment or a line-item id that holds an object with a property
    [toString] of its own makes [String] or [join] throw, and is left
    out. *)
Theorem tracking_resolution (order lineItemId : JsVal) (ss : list JsVal) :
  Forall shipment_shape ss ->
  Forall (fun s => printable s = true) ss ->
  printable lineItemId = true ->
  trackingForLineItem (JObj [("order", order); ("shipments", JArr ss)]) lineItemId
  = Ok (JStr (resolved_tracking ss lineItemId))
  /\ (forall shipments,
        ForallOrdPairs (fun a b => same_value_zero a b = false)
                       (tracking_numbers shipments)
        /\ sublist (tracking_numbers shipments)
                   (List.filter truthy (map tracking_number shipments))
        /\ (forall t, In t (tracking_numbers shipments)
                      <-> In t (List.filter truthy (map tracking_number shipments))))
  /\ resolved_tracking [] lineItemId = ""
  /\ trackingForLineItem (JObj [("order", order)]) lineItemId = Ok (JStr "")
  /\ trackingForLineItem (JObj [("order", order); ("shipments", JNull)]) lineItemId
     = Ok (JStr "")
  /\ trackingForLineItem JUndefined lineItemId = Ok (JStr "").
Proof.
  intros Hall _ _. split; [|split; [|repeat split]].
  2: { intros shipments. unfold tracking_numbers. split; [apply first_seen_distinct|].
       split; [apply first_seen_sublist|].
       intros t. split; [apply first_seen_incl | apply first_seen_keeps]. }
  unfold trackingForLineItem, default_arg. cbn [is_undefined].
  destruct (tracking_arg_shipments order (JArr ss)) as [-> ->]. cbn [bind truthy negb].
  unfold prop. cbn [nullish prop_of bind String.eqb Ascii.eqb Bool.eqb].
  destruct ss as [|s0 ss0]; [reflexivity|].
  set (ss := s0 :: ss0) in *.
  replace (is_num (JNum (Z.of_nat (length ss))) 0) with false
    by (subst ss; reflexivity).
  cbn [as_array bind].
  rewrite (collect_tracking_fold lineItemId ss [] Hall). cbn [bind].
  change (fold_left set_add ?l []) with (set_of l).
  rewrite set_of_first_seen. fold (tracking_numbers (List.filter (references lineItemId) ss)).
  unfold resolved_tracking.
  destruct (tracking_numbers (List.filter (references lineItemId) ss)) as [|d ds];
    [|reflexivity].
  cbn [length Nat.ltb Nat.leb].
  rewrite (mapM_tracking_of ss Hall). cbn [bind]. unfold filter_Boolean.
  rewrite set_of_first_seen. fold (tracking_numbers ss). unfold tracking_numbers.
  destruct (List.filter truthy (map tracking_number ss)); reflexivity.
Qed.

Ltac shape_by_computation :=
  split; [reflexivity|];
  split; [first [left; reflexivity | right; reflexivity]|];
  split; [first [left; reflexivity | right; reflexivity]|];
  repeat constructor.

Lemma tracking_resolution_witness :
  Forall shipment_shape sample_shipments
  /\ forallb printable sample_shipments = true
  /\ trackingForLineItem
       (JObj [("order", JObj []); ("shipments", JArr sample_shipments)]) (JNum 1)
     = Ok (JStr "T1; T3")
  /\ Forall shipment_shape unlabelled_shipments
  /\ forallb printable unlabelled_shipments = true
  /\ trackingForLineItem
       (JObj [("order", JObj []); ("shipments", JArr unlabelled_shipments)]) (JNum 1)
     = Ok (JStr "T2").
Proof.
  assert (H1 : Forall shipment_shape sample_shipments).
  { repeat (apply List.Forall_cons; [shape_by_computation|]). apply List.Forall_nil. }
  assert (H2 : Forall shipment_shape unlabelled_shipments).
  { repeat (apply List.Forall_cons; [shape_by_computation|]). apply List.Forall_nil. }
  assert (P1 : Forall (fun s => printable s = true) sample_shipments)
    by (repeat constructor).
  assert (P2 : Forall (fun s => printable s = true) unlabelled_shipments)
    by (repeat constructor).
  split; [exact H1|]. split; [reflexivity|]. split.
  - rewrite (proj1 (tracking_resolution (JObj []) (JNum 1) sample_shipments H1 P1
                      eq_refl)).
    reflexivity.
  - split; [exact H2|]. split; [reflexivity|].
    rewrite (proj1 (tracking_resolution (JObj []) (JNum 1) unlabelled_shipments H2 P2
                      eq_refl)).
    reflexivity.
Defined.

(** C1 as the specification words it: a shipment lists line item 1, so
    the answer would be the tracking numbers of that shipment, of which
    there is none.  The code answers with the order-level union. *)
Lemma claimed_tracking_fails :
  existsb (references (JNum 1)) unlabelled_shipments = true
  /\ claimed_tracking unlabelled_shipments (JNum 1) = ""
  /\ trackingForLineItem
       (JObj [("order", JObj []); ("shipments", JArr unlabelled_shipments)]) (JNum 1)
     = Ok (JStr "T2")
  /\ trackingForLineItem
       (JObj [("order", JObj []); ("shipments", JArr unlabelled_shipments)]) (JNum 1)
     <> Ok (JStr (claimed_tracking unlabelled_shipments (JNum 1))).
Proof. repeat split; try reflexivity. vm_compute. discriminate. Qed.


(** *** Completeness of the rows *)

(** Take apart an equation [H : e = Ok v], where [e] is a chain of
    binds, conditionals and matches that ends in [Ok _]. *)
Ltac res_inv H :=
  repeat
    (match type of H with
     | bind ?m _ = Ok _ =>
         let E := fresh "E" in
         destruct m eqn:E; cbn [bind] in H; [|discriminate H]
     | try_catch ?m _ = Ok _ => unfold try_catch in H
     | (if ?c then _ else _) = Ok _ => destruct c
     | match ?x with _ => _ end = Ok _ => destruct x
     | Throw _ = Ok _ => discriminate H
     end).

Lemma string_defined v : is_string v = true -> nullish v = false.
Proof. destruct v; (discriminate || reflexivity). Qed.

Lemma truthy_defined v : truthy v = true -> nullish v = false.
Proof. destruct v; (discriminate || reflexivity). Qed.

Lemma yields_string_defined m : yields_string m -> yields_defined m.
Proof. intros H v Hv. apply string_defined, (H v Hv). Qed.

Lemma yields_defined_ok v : nullish v = false -> yields_defined (Ok v).
Proof. intros H w [= <-]. exact H. Qed.

Lemma yields_defined_or a b : yields_defined b -> yields_defined (a ||| b).
Proof.
  intros Hb v H. unfold orM in H.
  destruct a as [x|]; cbn [bind] in H; [|discriminate H].
  destruct (truthy x) eqn:Hx.
  - injection H as <-. apply truthy_defined, Hx.
  - apply Hb, H.
Qed.

Lemma yields_defined_if (c : bool) a b :
  yields_defined a -> yields_defined b -> yields_defined (if c then a else b).
Proof. destruct c; auto. Qed.

Lemma yields_defined_pick obj ks : yields_defined (pick obj ks).
Proof.
  induction ks as [|k ks IH]; intros v H; cbn [pick] in H.
  - injection H as <-. reflexivity.
  - destruct (negb (truthy obj)); [exact (IH v H)|].
    destruct (prop obj k) as [x|]; cbn [bind] in H; [|discriminate H].
    destruct x; cbn in H; try (exact (IH v H));
      (destruct (negb _); [injection H as <-; reflexivity | exact (IH v H)]).
Qed.

Lemma yields_string_tracking arg lineItemId :
  yields_string (trackingForLineItem arg lineItemId).
Proof.
  intros v H. unfold trackingForLineItem in H. res_inv H;
    injection H as <-; reflexivity.
Qed.

Lemma yields_string_options opts : yields_string (formatProductOptions opts).
Proof.
  intros v H. unfold formatProductOptions in H.
  destruct (negb (truthy opts)); [injection H as <-; reflexivity|].
  destruct (is_string opts) eqn:Hs; [injection H as <-; exact Hs|].
  res_inv H; injection H as <-; reflexivity.
Qed.

Lemma yields_string_personalization pp :
  yields_string (formatProductPersonalization pp).
Proof.
  intros v H. unfold formatProductPersonalization in H.
  destruct (negb (truthy pp)); [injection H as <-; reflexivity|].
  destruct (is_string pp) eqn:Hs; [injection H as <-; exact Hs|].
  res_inv H; injection H as <-; reflexivity.
Qed.

Lemma yields_string_blob addr order extras :
  yields_string (composeAddressBlob addr order extras).
Proof.
  intros v H. unfold composeAddressBlob in H. res_inv H.
  injection H as <-. reflexivity.
Qed.

Ltac yields_defined_tac :=
  repeat first
    [ simple apply yields_string_defined;
      first [ simple apply yields_string_tracking
            | simple apply yields_string_options
            | simple apply yields_string_personalization
            | simple apply yields_string_blob ]
    | simple apply yields_defined_pick
    | simple apply yields_defined_or
    | simple apply yields_defined_if
    | simple apply yields_defined_ok; reflexivity ].

Ltac defined_by_origin :=
  first
    [ reflexivity
    | match goal with
      | E : ?m = Ok ?x |- nullish ?x = false =>
          refine ((_ : yields_defined m) x E); solve [yields_defined_tac]
      end ].

Lemma structured_fields_complete merged order fields :
  structured_fields merged order = Ok fields ->
  length fields = 10%nat /\ Forall (fun v => nullish v = false) fields.
Proof.
  intros H. unfold structured_fields in H. res_inv H. injection H as <-.
  split; [reflexivity|].
  repeat (apply List.Forall_cons; [defined_by_origin|]). apply List.Forall_nil.
Qed.

Lemma detailed_row_complete order shipments li row :
  detailed_row order shipments li = Ok row -> complete_row row.
Proof.
  intros H. unfold detailed_row in H. res_inv H. injection H as <-.
  match goal with
  | E1 : structured_fields _ _ = Ok ?b, E2 : structured_fields _ _ = Ok ?s
    |- context [(?b ++ ?s)%list] =>
      destruct (structured_fields_complete _ _ _ E1) as [Lb Fb];
      destruct (structured_fields_complete _ _ _ E2) as [Ls Fs]
  end.
  split.
  - cbn [length]. rewrite length_app, Lb, Ls. reflexivity.
  - repeat (apply List.Forall_cons; [defined_by_origin|]).
    apply Forall_app. split; assumption.
Qed.

Lemma summary_row_complete order row :
  summary_row order = Ok row -> complete_row row.
Proof.
  intros H. unfold summary_row in H. res_inv H. injection H as <-.
  split; [reflexivity|]. cbn [app].
  repeat (apply List.Forall_cons; [defined_by_origin|]). apply List.Forall_nil.
Qed.

Lemma mapM_Forall {A B} (f : A -> Res B) (P : B -> Prop) l ys :
  (forall x y, f x = Ok y -> P y) ->
  mapM f l = Ok ys -> Forall P ys.
Proof.
  intros Hf. revert ys. induction l as [|x l IH]; intros ys H; cbn [mapM] in H.
  - injection H as <-. apply List.Forall_nil.
  - res_inv H. injection H as <-. apply List.Forall_cons; [eapply Hf; eassumption|].
    apply IH. reflexivity.
Qed.

Lemma rows_of_slot_complete slot rows :
  rows_of_slot slot = Ok rows -> Forall complete_row rows.
Proof.
  intros H. unfold rows_of_slot in H. res_inv H.
  eapply mapM_Forall; [|exact H].
  intros li row. apply detailed_row_complete.
Qed.


(** ** Further properties of the code *)

(** *** The fetcher beyond three pages *)

Section FetcherFacts.
Context {R : Runtime}.

Lemma reaches_page path params pageSize opts n p out st q out' st' :
  reaches path params pageSize opts n p out st q out' st' ->
  q = p + Z.of_nat n
  /\ Z.of_nat (length out) + pageSize * Z.of_nat n <= Z.of_nat (length out')
  /\ exists fetched, out' = (out ++ fetched)%list.
Proof.
  induction 1 as [|n p out st url res body st1 q out' st' Hu Hs Hj Hne Hfull _ IH].
  - split; [lia|]. split; [lia|]. exists []. rewrite app_nil_r. reflexivity.
  - destruct IH as (-> & Hlen & fetched & ->).
    split; [lia|]. split.
    + rewrite length_app in Hlen. lia.
    + exists (page_items body ++ fetched)%list. rewrite app_assoc. reflexivity.
Qed.

(** X1: the fetcher returns the items of all the pages up to and
    including the first page that is shorter than the page size, in
    order, and asks for no page after that one; after [n] full pages it
    stands at page [n + 1] and holds at least [n] times the page size. *)
Theorem pages_until_short_page (path : string) (params opts : JsVal) (N : Z)
    (n : nat) (st stk st' : State) (k : Z) (out : list JsVal) (url : Url)
    (res : Response) (body : JsVal) (fuel : nat) :
  reaches path (default_arg params (JObj [])) N (default_arg opts (JObj []))
    n 1 [] st k out stk ->
  page_url path (default_arg params (JObj [])) N (default_arg opts (JObj [])) k = Ok url ->
  safeFetch url default_retries default_delay stk = Some (Ok (Some res), st') ->
  json res = Ok body ->
  Z.of_nat (length (page_items body)) < N ->
  (n < fuel)%nat ->
  fetchAllPages fuel path params N opts st
  = Some (Ok (out ++ page_items body)%list, st')
  /\ k = 1 + Z.of_nat n
  /\ N * Z.of_nat n <= Z.of_nat (length out).
Proof.
  intros Hreach Hu Hs Hj Hshort Hfuel.
  destruct (reaches_page _ _ _ _ _ _ _ _ _ _ _ Hreach) as (Hk & Hlen & _).
  split; [|split; [exact Hk | cbn [length] in Hlen; lia]].
  unfold fetchAllPages.
  replace fuel with (n + S (fuel - S n))%nat by lia.
  rewrite (loop_reaches _ _ _ _ _ _ _ _ _ _ _ Hreach).
  rewrite (loop_iteration _ _ _ _ _ _ _ _ url res body st' Hu Hs Hj).
  apply Z.ltb_lt in Hshort. rewrite Hshort.
  destruct (length (page_items body) =? 0)%nat eqn:E; [|reflexivity].
  apply Nat.eqb_eq in E. destruct (page_items body); [|discriminate].
  rewrite app_nil_r. reflexivity.
Qed.

(** X2: when the first page comes back with a body that carries no
    array, or an empty one, the fetcher returns the empty list after
    exactly one request. *)
Theorem empty_first_page (path : string) (params opts : JsVal) (N : Z)
    (url : Url) (w w' : World) (tr : list Event) (fuel : nat) :
  page_served path (default_arg params (JObj [])) N (default_arg opts (JObj []))
    1 url w w' [] ->
  (0 < fuel)%nat ->
  fetchAllPages fuel path params N opts (mkState w tr)
  = Some (Ok [], mkState w' (tr ++ [EvFetch url])).
Proof.
  intros Hserved Hfuel. destruct fuel as [|fuel]; [lia|].
  unfold fetchAllPages.
  rewrite (loop_served _ _ _ _ _ _ _ _ _ _ _ _ Hserved). reflexivity.
Qed.

(** X3: the loop has no page limit of its own: against an upstream that
    answers every page with a full page the fetcher never returns,
    whatever number of iterations it is given. *)
Theorem no_page_limit (path : string) (params opts : JsVal) (N : Z) (st : State)
    (fuel : nat) :
  always_full path (default_arg params (JObj [])) N (default_arg opts (JObj [])) ->
  fetchAllPages fuel path params N opts st = None.
Proof.
  intros Hfull. unfold fetchAllPages.
  generalize 1%Z as page. generalize (@nil JsVal) as out. revert st.
  induction fuel as [|fuel IH]; intros st out page; [reflexivity|].
  destruct (Hfull page st) as (url & res & body & st' & Hu & Hs & Hj & Hne & Hlen).
  rewrite (loop_iteration _ _ _ _ _ _ _ _ url res body st' Hu Hs Hj).
  assert (E : (length (page_items body) =? 0)%nat = false).
  { apply Nat.eqb_neq. destruct (page_items body); [congruence | discriminate]. }
  assert (F : (Z.of_nat (length (page_items body)) <? N) = false)
    by (apply Z.ltb_ge; lia).
  rewrite E, F. apply IH.
Qed.

(** X4: a 2xx response whose body cannot be parsed is not retried: the
    fetcher rejects with the parser's error after that one request, and
    what the earlier pages brought is not returned. *)
Theorem unparseable_body_is_thrown (path : string) (params opts : JsVal) (N : Z)
    (n : nat) (st : State) (k : Z) (out : list JsVal) (w w' : World)
    (tr : list Event) (url : Url) (res : Response) (e : JsError) (fuel : nat) :
  reaches path (default_arg params (JObj [])) N (default_arg opts (JObj []))
    n 1 [] st k out (mkState w tr) ->
  page_url path (default_arg params (JObj [])) N (default_arg opts (JObj [])) k = Ok url ->
  fetch url w = (Resolved res, w') ->
  ok res = true ->
  json res = Throw e ->
  (n < fuel)%nat ->
  fetchAllPages fuel path params N opts st
  = Some (Throw e, mkState w' (tr ++ [EvFetch url])).
Proof.
  intros Hreach Hu Hf Hok Hj Hfuel. unfold fetchAllPages.
  replace fuel with (n + S (fuel - S n))%nat by lia.
  rewrite (loop_reaches _ _ _ _ _ _ _ _ _ _ _ Hreach).
  cbn [fetchAllPages_loop].
  unfold bindM at 1, liftR at 1. rewrite Hu.
  unfold bindM at 1. rewrite (safeFetch_first_try _ _ _ _ _ Hf Hok).
  unfold bindM at 1, liftR at 1. rewrite Hj. reflexivity.
Qed.

(** X5: for every retry budget [retries >= 0] and every delay the
    executor calls the transport between 1 and [retries + 1] times, waits
    [delay] between two consecutive calls and at no other time, stops at
    the first 2xx response, and throws the last failure only when the
    budget is used up; with a negative budget it calls nothing and
    returns [undefined]. *)
Theorem safeFetch_budget (url : Url) (retries delay : Z) (st : State) :
  (0 <= retries ->
   exists earlier final w',
     Z.of_nat (length earlier) <= retries
     /\ attempts (S (length earlier)) url (world st) = ((earlier ++ [final])%list, w')
     /\ Forall (fun r => succeeded r = false) earlier
     /\ safeFetch url retries delay st
        = Some (settled_by final,
                mkState w' (trace st ++ attempt_events (S (length earlier)) url delay))
     /\ (succeeded final = false -> Z.of_nat (length earlier) = retries))
  /\ (retries < 0 -> safeFetch url retries delay st = Some (Ok None, st)).
Proof.
  split.
  - intros Hr.
    destruct (safeFetch_loop_spec (Z.to_nat retries) url delay st)
      as (earlier & final & w' & Hlen & Hatt & Hall & Hrun & Hfail).
    exists earlier, final, w'.
    split; [lia|]. split; [exact Hatt|]. split; [exact Hall|]. split.
    + unfold safeFetch. replace (Z.to_nat (retries + 1)) with (S (Z.to_nat retries)) by lia.
      exact Hrun.
    + intros H. rewrite (Hfail H). lia.
  - intros Hr. unfold safeFetch.
    replace (Z.to_nat (retries + 1)) with 0%nat by lia. reflexivity.
Qed.

End FetcherFacts.

Lemma pages_until_short_page_witness :
  fetchAllPages (R := three_pages_runtime) 3 "/orders" (JObj []) 2 (JObj [])
    (mkState (R := three_pages_runtime) tt [])
  = Some (Ok [JNum 11; JNum 12; JNum 21; JNum 22; JNum 31],
          mkState (R := three_pages_runtime) tt
            [EvFetch (orders_page_url 1); EvFetch (orders_page_url 2);
             EvFetch (orders_page_url 3)]).
Proof.
  assert (Hreach : reaches (R := three_pages_runtime) "/orders" (JObj []) 2 (JObj [])
                     2 1 [] (mkState (R := three_pages_runtime) tt []) 3
                     [JNum 11; JNum 12; JNum 21; JNum 22]
                     (mkState (R := three_pages_runtime) tt
                        [EvFetch (orders_page_url 1); EvFetch (orders_page_url 2)])).
  { eapply (reaches_next (R := three_pages_runtime) _ _ _ _ 1 1 [] _ (orders_page_url 1));
      [reflexivity | vm_compute; reflexivity | reflexivity | discriminate
      | vm_compute; discriminate |].
    eapply (reaches_next (R := three_pages_runtime) _ _ _ _ 0 2 _ _ (orders_page_url 2));
      [reflexivity | vm_compute; reflexivity | reflexivity | discriminate
      | vm_compute; discriminate |].
    apply reaches_here. }
  pose (body := JObj [("total", JNum 5); ("data", JArr [JNum 31])]).
  refine (proj1 (pages_until_short_page (R := three_pages_runtime) "/orders"
                   (JObj []) (JObj []) 2 2 _ _
                   (mkState (R := three_pages_runtime) tt
                      [EvFetch (orders_page_url 1); EvFetch (orders_page_url 2);
                       EvFetch (orders_page_url 3)])
                   3 _ (orders_page_url 3)
                   (mkResponse 200 "OK" (Ok (json_text body)) (Ok body)) body 3
                   Hreach _ _ _ _ _)).
  - reflexivity.
  - vm_compute. reflexivity.
  - reflexivity.
  - vm_compute. reflexivity.
  - lia.
Defined.

Lemma empty_first_page_witness :
  fetchAllPages (R := envelope_runtime) 1 "/orders" (JObj []) 2 (JObj [])
    (mkState (R := envelope_runtime) tt [])
  = Some (Ok [], mkState (R := envelope_runtime) tt [EvFetch (orders_page_url 1)]).
Proof.
  apply (empty_first_page (R := envelope_runtime) "/orders" (JObj []) (JObj []) 2
           (orders_page_url 1) tt tt [] 1).
  - split; [reflexivity|]. do 2 eexists. repeat split; reflexivity.
  - lia.
Defined.

Lemma no_page_limit_witness :
  always_full (R := endless_runtime) "/orders" (JObj []) 2 (JObj [])
  /\ fetchAllPages (R := endless_runtime) 1000 "/orders" (JObj []) 2 (JObj [])
       (mkState (R := endless_runtime) tt [])
     = None.
Proof.
  assert (Hfull : always_full (R := endless_runtime) "/orders" (JObj []) 2 (JObj [])).
  { intros page [w tr].
    exists (orders_page_url page).
    eexists. exists (JArr [JNum 1; JNum 2]). eexists.
    split; [reflexivity|]. split.
    - apply (safeFetch_first_try (R := endless_runtime)); reflexivity.
    - split; [reflexivity|]. split; [discriminate|]. vm_compute. discriminate. }
  split; [exact Hfull|].
  apply (no_page_limit (R := endless_runtime) "/orders" (JObj []) (JObj []) 2 _ 1000).
  exact Hfull.
Defined.

Lemma unparseable_body_is_thrown_witness :
  fetchAllPages (R := garbled_runtime) 1 "/orders" (JObj []) 2 (JObj [])
    (mkState (R := garbled_runtime) tt [])
  = Some (Throw (mkError "SyntaxError" "Unexpected token <"),
          mkState (R := garbled_runtime) tt [EvFetch (orders_page_url 1)]).
Proof.
  apply (unparseable_body_is_thrown (R := garbled_runtime) "/orders" (JObj []) (JObj [])
           2 0 _ 1 [] tt tt [] (orders_page_url 1)
           (mkResponse 200 "OK" (Ok "<html>")
              (Throw (mkError "SyntaxError" "Unexpected token <")))).
  - apply reaches_here.
  - reflexivity.
  - reflexivity.
  - reflexivity.
  - reflexivity.
  - lia.
Defined.

Lemma safeFetch_budget_witness :
  (exists (earlier : list FetchResult) (final : FetchResult) w',
     Z.of_nat (length earlier) <= 1
     /\ safeFetch (R := dead_runtime) (orders_page_url 1) 1 100
          (mkState (R := dead_runtime) tt [])
        = Some (settled_by final,
                mkState (R := dead_runtime) w'
                  (attempt_events (S (length earlier)) (orders_page_url 1) 100))
     /\ (succeeded final = false -> Z.of_nat (length earlier) = 1))
  /\ safeFetch (R := dead_runtime) (orders_page_url 1) (-1) 100
       (mkState (R := dead_runtime) tt [])
     = Some (Ok None, mkState (R := dead_runtime) tt []).
Proof.
  destruct (safeFetch_budget (R := dead_runtime) (orders_page_url 1) 1 100
              (mkState (R := dead_runtime) tt [])) as [Hpos _].
  destruct (safeFetch_budget (R := dead_runtime) (orders_page_url 1) (-1) 100
              (mkState (R := dead_runtime) tt [])) as [_ Hneg].
  split.
  - destruct Hpos as (earlier & final & w' & Hlen & _ & _ & Hrun & Hfail); [lia|].
    exists earlier, final, w'. split; [exact Hlen|]. split; [exact Hrun | exact Hfail].
  - apply Hneg. lia.
Defined.

(** *** The loaders and the enrichment worker *)

Section LoaderFacts.
Context {R : Runtime}.

Lemma loadOrder_by_url orderId opts st :
  truthy orderId = true ->
  loadOrder orderId opts st
  = catchM
      (url <~ liftR (order_detail_url orderId opts) ;;
       res <~ safeFetch url default_retries default_delay ;;
       match res with
       | None => ret (JObj [])
       | Some res =>
           body <~ liftR (json res) ;;
           ret (if truthy body then body else JObj [])
       end)
      (fun err =>
         _ <~ emit (EvWarn "loadOrder error" (err_message err)) ;;
         ret (JObj [])) st.
Proof.
  intros Ht. unfold loadOrder, order_detail_url. rewrite Ht. cbn [negb].
  unfold catchM, bindM, liftR.
  destruct (prop (default_arg opts (JObj [])) "token" ||| Ok TOKEN) as [tok|e];
    cbn [bind]; [|reflexivity].
  destruct (prop (default_arg opts (JObj [])) "subdomain" ||| Ok SUBDOMAIN) as [sub|e];
    cbn [bind]; reflexivity.
Qed.

(** X6: the three loaders never reject.  Whatever the transport does,
    [loadLineItems] and [loadShipments] resolve to an array and
    [loadOrder] resolves to a truthy value; for a falsy order id they
    resolve at once, to an empty array or object, and issue no request. *)
Theorem loaders_always_resolve (fuel : nat) (orderId opts : JsVal) (st : State) :
  (forall r st', loadLineItems fuel orderId opts st = Some (r, st') ->
                 exists items, r = Ok (JArr items))
  /\ (forall r st', loadShipments fuel orderId opts st = Some (r, st') ->
                    exists items, r = Ok (JArr items))
  /\ (exists v st', loadOrder orderId opts st = Some (Ok v, st') /\ truthy v = true)
  /\ (truthy orderId = false ->
      loadLineItems fuel orderId opts st = Some (Ok (JArr []), st)
      /\ loadShipments fuel orderId opts st = Some (Ok (JArr []), st)
      /\ loadOrder orderId opts st = Some (Ok (JObj []), st)).
Proof.
  split; [|split; [|split]].
  - unfold loadLineItems. destruct (negb (truthy orderId)).
    + intros r st' [= <- _]. eexists; reflexivity.
    + unfold catchM, bindM.
      destruct (fetchAllPages _ _ _ _ _ st) as [[[a|e] st1]|]; cbn;
        intros r st' H; [| |discriminate]; injection H as <- _; eexists; reflexivity.
  - unfold loadShipments. destruct (negb (truthy orderId)).
    + intros r st' [= <- _]. eexists; reflexivity.
    + unfold catchM, bindM.
      destruct (fetchAllPages _ _ _ _ _ st) as [[[a|e] st1]|]; cbn;
        intros r st' H; [| |discriminate]; injection H as <- _; eexists; reflexivity.
  - destruct (truthy orderId) eqn:Ht.
    + rewrite (loadOrder_by_url _ _ _ Ht). unfold catchM, bindM at 1, liftR at 1.
      destruct (order_detail_url orderId opts) as [url|e];
        [|do 2 eexists; split; reflexivity].
      unfold bindM at 1.
      destruct (safeFetch_loop_spec 2 url default_delay st)
        as (earlier & final & w' & _ & _ & _ & Hrun & _).
      change (safeFetch url default_retries default_delay st)
        with (safeFetch_loop 3 url default_delay st).
      rewrite Hrun.
      destruct final as [res|e]; cbn [settled_by];
        [destruct (ok res)|]; try (do 2 eexists; split; reflexivity).
      unfold bindM, liftR. destruct (json res) as [body|e];
        [|do 2 eexists; split; reflexivity].
      do 2 eexists. split; [reflexivity|].
      destruct (truthy body) eqn:Hb; [exact Hb | reflexivity].
    + unfold loadOrder. rewrite Ht. do 2 eexists. split; reflexivity.
  - intros Ht. unfold loadLineItems, loadShipments, loadOrder. rewrite Ht.
    repeat split.
Qed.

(** X7: when the executor fails on the detail request, [loadOrder] logs a
    warning and resolves to the empty object, and the slot the worker
    then builds carries the snapshot unchanged as its order: a failed
    detail fetch leaves no error marker.  The order id and the options
    print, so that the URL can be built, and the snapshot has each key
    once and no key [__proto__]. *)
Theorem failed_detail_keeps_snapshot (orderId opts : JsVal) (url : Url)
    (st st' : State) (e : JsError) (snapshot : list (string * JsVal))
    (line_items shipments : JsVal) :
  truthy orderId = true ->
  printable orderId = true ->
  printable opts = true ->
  order_detail_url orderId opts = Ok url ->
  safeFetch url default_retries default_delay st = Some (Throw e, st') ->
  List.NoDup (map fst snapshot) ->
  ~ In "__proto__" (map fst snapshot) ->
  loadOrder orderId opts st = Some (Ok (JObj []), warned "loadOrder error" e st')
  /\ enriched_slot (JObj snapshot) (JObj []) line_items shipments
     = JObj [("order", JObj snapshot); ("line_items", line_items);
             ("shipments", shipments)].
Proof.
  intros Ht _ _ Hu Hs Hnd _. split.
  - rewrite (loadOrder_by_url _ _ _ Ht). unfold catchM, bindM at 1, liftR at 1.
    rewrite Hu. unfold bindM at 1. rewrite Hs. reflexivity.
  - unfold enriched_slot, mergedOrder, object_assign, or_val, assign1. cbn.
    rewrite assign_entries_fresh by exact Hnd. reflexivity.
Qed.

End LoaderFacts.

Lemma or_val_assoc a b c : or_val (or_val a b) c = or_val a (or_val b c).
Proof. unfold or_val. destruct (truthy a) eqn:E; rewrite ?E; reflexivity. Qed.


Lemma dead_detail_url :
  order_detail_url (R := dead_runtime) (JNum 7) (JObj [])
  = Ok (mkUrl "https://shop.mybrightsites.com/api/v2.6.1" "/orders/7"
              [("token", "secret")]).
Proof. reflexivity. Qed.

Lemma failed_detail_keeps_snapshot_witness :
  exists st',
    loadOrder (R := dead_runtime) (JNum 7) (JObj []) (mkState (R := dead_runtime) tt [])
    = Some (Ok (JObj []),
            warned "loadOrder error" (mkError "FetchError" "connect ECONNREFUSED") st')
    /\ enriched_slot (JObj sample_snapshot) (JObj []) (JArr []) (JArr [])
       = JObj [("order", JObj sample_snapshot); ("line_items", JArr []);
               ("shipments", JArr [])].
Proof.
  eexists.
  eapply (failed_detail_keeps_snapshot (R := dead_runtime) (JNum 7) (JObj [])
            (mkUrl "https://shop.mybrightsites.com/api/v2.6.1" "/orders/7"
                   [("token", "secret")])).
  - reflexivity.
  - reflexivity.
  - reflexivity.
  - exact dead_detail_url.
  - vm_compute. reflexivity.
  - repeat constructor; cbn; intuition discriminate.
  - cbn; intuition discriminate.
Defined.

Lemma loaders_always_resolve_witness :
  (exists st',
     loadLineItems (R := dead_runtime) 3 (JNum 7) (JObj [])
       (mkState (R := dead_runtime) tt [])
     = Some (Ok (JArr []), st'))
  /\ loadShipments (R := dead_runtime) 3 JUndefined (JObj [])
       (mkState (R := dead_runtime) tt [])
     = Some (Ok (JArr []), mkState (R := dead_runtime) tt []).
Proof.
  destruct (loaders_always_resolve (R := dead_runtime) 3 (JNum 7) (JObj [])
              (mkState (R := dead_runtime) tt [])) as (Hli & _).
  destruct (loaders_always_resolve (R := dead_runtime) 3 JUndefined (JObj [])
              (mkState (R := dead_runtime) tt [])) as (_ & _ & _ & Hfalsy).
  split.
  - eexists. vm_compute. reflexivity.
  - apply Hfalsy. reflexivity.
Defined.

(** *** The query of a page request *)






Section QueryFacts.
Context {R : Runtime}.


End QueryFacts.


(** *** joinNonEmpty *)

Lemma concat_nonempty sep s l : s <> "" -> String.concat sep (s :: l) <> "".
Proof.
  intros Hs. destruct s as [|c s]; [congruence|].
  destruct l; cbn; discriminate.
Qed.

Lemma trim_empty : trim "" = "".
Proof. reflexivity. Qed.

(** X10: for parts that print, [joinNonEmpty] returns the empty string
    exactly when every part is [undefined], [null] or blank, whatever the
    separator; in general it returns the parts that are not, printed and
    joined. *)
Theorem joinNonEmpty_empty_iff (parts : list JsVal) (sep : string) :
  Forall (fun p => printable p = true) parts ->
  (joinNonEmpty parts sep = JStr ""
   <-> Forall (fun p => dropped_part p = true) parts)
  /\ joinNonEmpty parts sep
     = JStr (join sep (List.filter (fun p => negb (dropped_part p)) parts)).
Proof.
  intros _.
  assert (Hfilter : forall l,
             List.filter (fun p => negb (is_undefined p) && negb (is_null p)
                                   && negb (trim (to_string p) =? "")%string) l
             = List.filter (fun p => negb (dropped_part p)) l).
  { intros l. apply filter_ext. intros p. unfold dropped_part.
    rewrite !negb_orb. reflexivity. }
  split; [|unfold joinNonEmpty; rewrite Hfilter; reflexivity].
  unfold joinNonEmpty. rewrite Hfilter. split.
  - intros H. injection H as H.
    apply List.Forall_forall. intros p Hp.
    destruct (dropped_part p) eqn:Hd; [reflexivity|]. exfalso.
    assert (Hin : In p (List.filter (fun p => negb (dropped_part p)) parts)).
    { apply filter_In. split; [exact Hp | rewrite Hd; reflexivity]. }
    destruct (List.filter (fun p => negb (dropped_part p)) parts) as [|x l] eqn:Hf;
      [destruct Hin|].
    assert (Hx : dropped_part x = false).
    { assert (Hxin : In x (List.filter (fun p => negb (dropped_part p)) parts))
        by (rewrite Hf; left; reflexivity).
      apply filter_In in Hxin as [_ Hx]. apply negb_true_iff, Hx. }
    unfold join in H. cbn [map] in H. revert H. apply concat_nonempty.
    unfold dropped_part in Hx. apply orb_false_iff in Hx as [Hx Htrim].
    apply orb_false_iff in Hx as [Hu Hn].
    unfold join_piece.
    replace (nullish x) with false by (destruct x; (discriminate || reflexivity)).
    intros E. rewrite E in Htrim. discriminate.
  - intros Hall. f_equal.
    replace (List.filter (fun p => negb (dropped_part p)) parts) with (@nil JsVal);
      [reflexivity|].
    symmetry. induction Hall as [|p l Hp _ IH]; cbn; [reflexivity|].
    rewrite Hp. exact IH.
Qed.

Lemma joinNonEmpty_empty_iff_witness :
  joinNonEmpty [JStr wide_blank; JNull; JUndefined; JStr "  "] " | " = JStr ""
  /\ joinNonEmpty [JStr wide_blank; JStr "a"; JNum 0] "-" = JStr "a-0".
Proof.
  split.
  - apply (proj1 (joinNonEmpty_empty_iff [JStr wide_blank; JNull; JUndefined; JStr "  "]
                    " | " ltac:(repeat constructor))).
    repeat constructor.
  - rewrite (proj2 (joinNonEmpty_empty_iff [JStr wide_blank; JStr "a"; JNum 0] "-"
                      ltac:(repeat constructor))).
    reflexivity.
Defined.

(** *** The formatters *)

Lemma mapM_total {A B} (f : A -> Res B) (l : list A) :
  (forall x, In x l -> exists y, f x = Ok y) -> exists ys, mapM f l = Ok ys.
Proof.
  induction l as [|x l IH]; intros H; cbn [mapM]; [eexists; reflexivity|].
  destruct (H x (or_introl eq_refl)) as [y ->]. cbn [bind].
  destruct IH as [ys ->]; [intros z Hz; apply H; right; exact Hz|].
  eexists; reflexivity.
Qed.

Lemma format_option_total o : exists v, format_option o = Ok v.
Proof.
  unfold format_option. destruct (nullish o) eqn:Hn; [eexists; reflexivity|].
  destruct (is_string o); [eexists; reflexivity|].
  rewrite !(prop_ok _ _ Hn), !orM_ok. cbn [bind].
  destruct (truthy _); eexists; reflexivity.
Qed.

Lemma formatProductOptions_string opts :
  exists s, formatProductOptions opts = Ok (JStr s).
Proof.
  unfold formatProductOptions.
  destruct (negb (truthy opts)); [eexists; reflexivity|].
  destruct (is_string opts) eqn:Hs;
    [destruct opts; try discriminate Hs; eexists; reflexivity|].
  destruct (is_array opts) eqn:Ha.
  - destruct opts as [| | | | |xs|]; try discriminate Ha. cbn [as_array bind].
    destruct (mapM_total format_option xs) as [ys ->];
      [intros x _; apply format_option_total|].
    eexists; reflexivity.
  - destruct (typeof_object opts); eexists; reflexivity.
Qed.

(** X11: [formatProductOptions] never throws for options that print,
    whatever their shape, and always returns a string; it is the empty
    string for options that are absent or falsy and the string itself
    for options that are a string. *)
Theorem formatProductOptions_total (opts : JsVal) :
  printable opts = true ->
  (exists s, formatProductOptions opts = Ok (JStr s))
  /\ (truthy opts = false -> formatProductOptions opts = Ok (JStr ""))
  /\ (forall s, formatProductOptions (JStr s) = Ok (JStr s)).
Proof.
  intros _. split; [|split].
  - apply formatProductOptions_string.
  - intros Hf. unfold formatProductOptions. rewrite Hf. reflexivity.
  - intros s. unfold formatProductOptions. destruct s; reflexivity.
Qed.

Lemma formatProductOptions_total_witness :
  formatProductOptions (JNum 0) = Ok (JStr "")
  /\ exists s,
       formatProductOptions
         (JArr [JObj [("option_name", JStr "Size"); ("sub_option_name", JNum 42)];
                JNull; JStr "gift wrap"; JObj [("sku", JStr "A-1")]])
       = Ok (JStr s)
       /\ s = "Size: 42; gift wrap; {" ++ double_quote ++ "sku" ++ double_quote ++ ":"
               ++ double_quote ++ "A-1" ++ double_quote ++ "}".
Proof.
  split.
  - exact (proj1 (proj2 (formatProductOptions_total (JNum 0) eq_refl)) eq_refl).
  - destruct (proj1 (formatProductOptions_total
                       (JArr [JObj [("option_name", JStr "Size");
                                    ("sub_option_name", JNum 42)];
                              JNull; JStr "gift wrap"; JObj [("sku", JStr "A-1")]])
                       eq_refl)) as [s Hs].
    exists s. split; [exact Hs|].
    vm_compute in Hs. injection Hs as <-. reflexivity.
Defined.

Lemma format_attribute_outcome a :
  if nullish a
  then exists e, format_attribute a = Throw e /\ err_name e = "TypeError"
  else exists s, format_attribute a = Ok (JStr s).
Proof.
  destruct (nullish a) eqn:Hn.
  - destruct a; try discriminate Hn; eexists; split; reflexivity.
  - unfold format_attribute. destruct (is_string a) eqn:Hs.
    + destruct a; try discriminate Hs. eexists; reflexivity.
    + rewrite !(prop_ok _ _ Hn), !orM_ok. cbn [bind]. eexists; reflexivity.
Qed.

Lemma mapM_format_attribute xs :
  if existsb nullish xs
  then exists e, mapM format_attribute xs = Throw e /\ err_name e = "TypeError"
  else exists ys, mapM format_attribute xs = Ok ys.
Proof.
  induction xs as [|a xs IH]; cbn [existsb mapM]; [eexists; reflexivity|].
  pose proof (format_attribute_outcome a) as Ha.
  destruct (nullish a); cbn [orb].
  - destruct Ha as (e & -> & He). exists e. split; [reflexivity | exact He].
  - destruct Ha as (s & ->). cbn [bind].
    destruct (existsb nullish xs).
    + destruct IH as (e & -> & He). exists e. split; [reflexivity | exact He].
    + destruct IH as (ys & ->). eexists; reflexivity.
Qed.

Lemma format_personalization_outcome item :
  if broken_personalization item
  then exists e, format_personalization item = Throw e /\ err_name e = "TypeError"
  else exists s, format_personalization item = Ok (JStr s).
Proof.
  unfold broken_personalization, format_personalization.
  destruct (truthy item) eqn:Ht; cbn [negb andb]; [|eexists; reflexivity].
  assert (Hn : nullish item = false) by (destruct item; (discriminate || reflexivity)).
  rewrite !(prop_ok _ _ Hn), !orM_ok. cbn [bind].
  destruct (is_array (prop_of item "attributes")) eqn:Ha; cbn [andb].
  - destruct (prop_of item "attributes") as [| | | | |xs|]; try discriminate Ha.
    cbn [as_array bind array_items].
    pose proof (mapM_format_attribute xs) as Hxs.
    destruct (existsb nullish xs).
    + destruct Hxs as (e & -> & He). exists e. split; [reflexivity | exact He].
    + destruct Hxs as (ys & ->). cbn [bind].
      destruct (truthy (prop_of item "price_modifier")) eqn:Hp; cbn [bind].
      * assert (Hpn : nullish (prop_of item "price_modifier") = false)
          by (destruct (prop_of item "price_modifier"); (discriminate || reflexivity)).
        rewrite !(prop_ok _ _ Hpn), !orM_ok. cbn [bind]. eexists; reflexivity.
      * eexists; reflexivity.
  - cbn [bind].
    destruct (truthy (prop_of item "price_modifier")) eqn:Hp; cbn [bind].
    + assert (Hpn : nullish (prop_of item "price_modifier") = false)
        by (destruct (prop_of item "price_modifier"); (discriminate || reflexivity)).
      rewrite !(prop_ok _ _ Hpn), !orM_ok. cbn [bind]. eexists; reflexivity.
    + eexists; reflexivity.
Qed.

Lemma mapM_format_personalization items :
  if existsb broken_personalization items
  then exists e, mapM format_personalization items = Throw e /\ err_name e = "TypeError"
  else exists ys, mapM format_personalization items = Ok ys.
Proof.
  induction items as [|a xs IH]; cbn [existsb mapM]; [eexists; reflexivity|].
  pose proof (format_personalization_outcome a) as Ha.
  destruct (broken_personalization a); cbn [orb].
  - destruct Ha as (e & -> & He). exists e. split; [reflexivity | exact He].
  - destruct Ha as (s & ->). cbn [bind].
    destruct (existsb broken_personalization xs).
    + destruct IH as (e & -> & He). exists e. split; [reflexivity | exact He].
    + destruct IH as (ys & ->). eexists; reflexivity.
Qed.

Lemma personalization_outcome pp :
  if existsb broken_personalization (personalization_items pp)
  then exists e, formatProductPersonalization pp = Throw e /\ err_name e = "TypeError"
  else exists s, formatProductPersonalization pp = Ok (JStr s).
Proof.
  unfold formatProductPersonalization, personalization_items.
  destruct (truthy pp) eqn:Ht; cbn [negb].
  - assert (Hn : nullish pp = false) by (destruct pp; (discriminate || reflexivity)).
    destruct (is_string pp) eqn:Hs; cbn [orb].
    + destruct pp; try discriminate Hs. eexists; reflexivity.
    + destruct (is_array pp) eqn:Ha.
      * destruct pp as [| | | | |xs|]; try discriminate Ha. cbn [bind array_items].
        pose proof (mapM_format_personalization xs) as Hxs.
        destruct xs as [|x xs]; [eexists; reflexivity|].
        destruct (existsb broken_personalization (x :: xs)).
        -- destruct Hxs as (e & -> & He). exists e. split; [reflexivity | exact He].
        -- destruct Hxs as (ys & ->). eexists; reflexivity.
      * rewrite !(prop_ok _ _ Hn), !orM_ok, or_val_assoc. cbn [bind].
        destruct (or_val (prop_of pp "personalizations")
                    (or_val (prop_of pp "product_personalizations") (JArr [])))
          as [| | | | |xs|]; cbn [array_items existsb]; try (eexists; reflexivity).
        pose proof (mapM_format_personalization xs) as Hxs.
        destruct xs as [|x xs]; [eexists; reflexivity|].
        destruct (existsb broken_personalization (x :: xs)).
        -- destruct Hxs as (e & -> & He). exists e. split; [reflexivity | exact He].
        -- destruct Hxs as (ys & ->). eexists; reflexivity.
  - cbn [orb existsb]. eexists; reflexivity.
Qed.

(** X12: for a value that prints, [formatProductPersonalization] throws,
    a [TypeError], exactly when one of the personalizations it walks
    through is truthy and has an [attributes] array that holds [null] or
    [undefined]; for every other value, of whatever shape, it returns a
    string. *)
Theorem personalization_throws_only_on_null_attribute (pp : JsVal) :
  printable pp = true ->
  (existsb broken_personalization (personalization_items pp) = true ->
   exists e, formatProductPersonalization pp = Throw e /\ err_name e = "TypeError")
  /\ (existsb broken_personalization (personalization_items pp) = false ->
      exists s, formatProductPersonalization pp = Ok (JStr s)).
Proof.
  intros _. pose proof (personalization_outcome pp) as H.
  destruct (existsb broken_personalization (personalization_items pp));
    split; intros E; (discriminate E || exact H).
Qed.

Lemma personalization_throws_only_on_null_attribute_witness :
  (exists e, formatProductPersonalization null_attribute_personalization = Throw e
             /\ err_name e = "TypeError")
  /\ exists s, formatProductPersonalization monogram_personalization = Ok (JStr s)
               /\ s = "Monogram | Attributes: Initials: JD, gold".
Proof.
  split.
  - exact (proj1 (personalization_throws_only_on_null_attribute
                    null_attribute_personalization eq_refl) eq_refl).
  - destruct (proj2 (personalization_throws_only_on_null_attribute
                       monogram_personalization eq_refl) eq_refl) as [s Hs].
    exists s. split; [exact Hs|].
    vm_compute in Hs. injection Hs as <-. reflexivity.
Defined.

Lemma options_array_text pairs :
  Forall (fun nv => fst nv <> "" /\ snd nv <> "") pairs ->
  exists ys,
    mapM format_option
      (map (fun nv => JObj [("option_name", JStr (fst nv));
                            ("sub_option_name", JStr (snd nv))]) pairs)
    = Ok ys
    /\ filter_Boolean ys = ys
    /\ map join_piece ys = map (fun nv => fst nv ++ ": " ++ snd nv) pairs.
Proof.
  induction 1 as [|[n v] pairs [Hn Hv] _ IH]; cbn [map mapM fst snd].
  - exists []. repeat split.
  - destruct IH as (ys & -> & Hf & Hm).
    destruct n as [|c n]; [exfalso; apply Hn; reflexivity|].
    destruct v as [|d v]; [exfalso; apply Hv; reflexivity|].
    eexists. split; [reflexivity|]. split.
    + cbn [filter_Boolean List.filter]. unfold filter_Boolean in Hf.
      cbn. rewrite Hf. reflexivity.
    + cbn [map]. rewrite Hm. reflexivity.
Qed.

(** X13: options with non-empty names and values render to the same
    text, [name: value] pairs joined by [; ], whether they come as a
    list of [{ option_name, sub_option_name }] objects or as a mapping
    from name to value.  In the mapping each name stands once and none
    is an array index, so that the mapping enumerates the names in the
    order in which they are listed. *)
Theorem options_shapes_agree (pairs : list (string * string)) :
  Forall (fun nv => fst nv <> "" /\ snd nv <> "") pairs ->
  List.NoDup (map fst pairs) ->
  Forall (fun nv => array_index (fst nv) = false) pairs ->
  formatProductOptions (options_as_array pairs) = Ok (JStr (options_text pairs))
  /\ formatProductOptions (options_as_mapping pairs) = Ok (JStr (options_text pairs)).
Proof.
  intros Hall _ _. split.
  - unfold formatProductOptions, options_as_array, options_text.
    cbn [truthy negb is_string is_array as_array bind].
    destruct (options_array_text pairs Hall) as (ys & -> & Hf & Hm).
    cbn [bind]. rewrite Hf. unfold join. rewrite Hm. reflexivity.
  - unfold formatProductOptions, options_as_mapping, options_text.
    cbn [truthy negb is_string is_array typeof_object try_catch own_entries].
    unfold join. rewrite !map_map. cbn [fst snd join_piece nullish to_string].
    reflexivity.
Qed.

Lemma options_shapes_agree_witness :
  formatProductOptions
    (JArr [JObj [("option_name", JStr "Size"); ("sub_option_name", JStr "L")];
           JObj [("option_name", JStr "Color"); ("sub_option_name", JStr "Red")]])
  = Ok (JStr "Size: L; Color: Red")
  /\ formatProductOptions (JObj [("Size", JStr "L"); ("Color", JStr "Red")])
     = Ok (JStr "Size: L; Color: Red").
Proof.
  apply (options_shapes_agree [("Size", "L"); ("Color", "Red")]).
  - repeat constructor; discriminate.
  - repeat constructor; cbn; intuition discriminate.
  - repeat constructor.
Defined.

(** *** The pool's calls of the worker *)

Section PoolTrace.
Variable items : list JsVal.
Variable worker : JsVal -> nat -> Res JsVal.

Lemma pool_started_counter schedule p p' :
  pool_run items worker schedule p = Some p' ->
  (pool_i p <= pool_i p')%nat
  /\ pool_started items worker schedule p = seq (pool_i p) (pool_i p' - pool_i p).
Proof.
  revert p. induction schedule as [|r rest IH]; intros p; cbn [pool_run pool_started].
  - intros [= <-]. rewrite Nat.sub_diag. split; [lia | reflexivity].
  - destruct (pool_step items worker r p) as [p1|] eqn:Hs; [|discriminate].
    intros Hrun. destruct (IH _ Hrun) as [Hle Hst]. rewrite Hst.
    unfold pool_step in Hs.
    destruct (pool_runners p !! r) as [[|idx|]|]; try discriminate Hs.
    + destruct (pool_i p <? length items)%nat; injection Hs as <-;
        cbn [pool_i] in *.
      * split; [lia|].
        replace (pool_i p' - pool_i p)%nat with (S (pool_i p' - S (pool_i p))) by lia.
        reflexivity.
      * split; [lia | reflexivity].
    + injection Hs as <-. cbn [pool_i] in *. split; [lia | reflexivity].
Qed.

(** X14: in every complete execution of the pool with at least one
    runner, whatever the interleaving, the worker is called exactly once
    for each item, and the calls are started in the order of the items. *)
Theorem pool_calls_each_item_once (concurrency : nat) (schedule : list nat)
    (results : list (option JsVal)) :
  (0 < concurrency)%nat ->
  promisePool items worker concurrency schedule = Some results ->
  pool_started items worker schedule (pool_init concurrency)
  = seq 0 (length items).
Proof.
  intros Hc. unfold promisePool.
  destruct (pool_run items worker schedule (pool_init concurrency)) as [p|] eqn:Hrun;
    [|discriminate].
  destruct (pool_done p) eqn:Hd; [|discriminate]. intros _.
  destruct (pool_started_counter _ _ _ Hrun) as [_ ->]. cbn [pool_init pool_i].
  rewrite Nat.sub_0_r.
  pose proof (pool_run_inv items worker concurrency _ _ _
                (pool_init_inv items worker concurrency) Hrun) as Hinv.
  destruct (pool_runners p !! 0%nat) as [x|] eqn:H0.
  - rewrite (pool_done_lookup _ _ _ Hd H0) in H0.
    rewrite (inv_returned _ _ _ _ Hinv _ H0). reflexivity.
  - apply lookup_ge_None in H0. rewrite (inv_runners _ _ _ _ Hinv) in H0. lia.
Qed.

Lemma waiting_distinct_step r p p' :
  (forall r' idx, pool_runners p !! r' = Some (Awaiting idx) -> (idx < pool_i p)%nat) ->
  (forall r1 r2 idx,
     pool_runners p !! r1 = Some (Awaiting idx) ->
     pool_runners p !! r2 = Some (Awaiting idx) -> r1 = r2) ->
  pool_step items worker r p = Some p' ->
  forall r1 r2 idx,
    pool_runners p' !! r1 = Some (Awaiting idx) ->
    pool_runners p' !! r2 = Some (Awaiting idx) -> r1 = r2.
Proof.
  intros Haw Hd. unfold pool_step.
  destruct (pool_runners p !! r) as [[|idx0|]|] eqn:Hr; try discriminate.
  - destruct (pool_i p <? length items)%nat; intros [= <-] r1 r2 idx; cbn;
      intros H1 H2.
    + apply list_lookup_insert_Some in H1 as [(E1 & [= I1] & _)|(N1 & H1)];
        apply list_lookup_insert_Some in H2 as [(E2 & [= I2] & _)|(N2 & H2)].
      * congruence.
      * specialize (Haw _ _ H2). lia.
      * specialize (Haw _ _ H1). lia.
      * eapply Hd; eassumption.
    + apply list_lookup_insert_Some in H1 as [(_ & [=] & _)|(N1 & H1)].
      apply list_lookup_insert_Some in H2 as [(_ & [=] & _)|(N2 & H2)].
      eapply Hd; eassumption.
  - intros [= <-] r1 r2 idx; cbn; intros H1 H2.
    apply list_lookup_insert_Some in H1 as [(_ & [=] & _)|(N1 & H1)].
    apply list_lookup_insert_Some in H2 as [(_ & [=] & _)|(N2 & H2)].
    eapply Hd; eassumption.
Qed.

Lemma waiting_distinct c schedule p p' :
  pool_inv items worker c p ->
  (forall r1 r2 idx,
     pool_runners p !! r1 = Some (Awaiting idx) ->
     pool_runners p !! r2 = Some (Awaiting idx) -> r1 = r2) ->
  pool_run items worker schedule p = Some p' ->
  forall r1 r2 idx,
    pool_runners p' !! r1 = Some (Awaiting idx) ->
    pool_runners p' !! r2 = Some (Awaiting idx) -> r1 = r2.
Proof.
  revert p. induction schedule as [|r rest IH]; intros p Hinv Hd; cbn [pool_run].
  - intros [= <-]. exact Hd.
  - destruct (pool_step items worker r p) as [p1|] eqn:Hs; [|discriminate].
    apply IH.
    + eapply pool_step_inv; eassumption.
    + eapply waiting_distinct_step; [|exact Hd|exact Hs].
      exact (inv_awaiting _ _ _ _ Hinv).
Qed.

(** X15: at every point of every execution of the pool, at most
    [concurrency] workers are in flight, they work on items of the list,
    and no two runners wait for the same item. *)
Theorem pool_in_flight (concurrency : nat) (schedule : list nat) (p : Pool) :
  pool_run items worker schedule (pool_init concurrency) = Some p ->
  (length (List.filter waiting (pool_runners p)) <= concurrency)%nat
  /\ (forall r idx,
        pool_runners p !! r = Some (Awaiting idx) -> (idx < length items)%nat)
  /\ (forall r1 r2 idx,
        pool_runners p !! r1 = Some (Awaiting idx) ->
        pool_runners p !! r2 = Some (Awaiting idx) -> r1 = r2).
Proof.
  intros Hrun.
  pose proof (pool_run_inv items worker concurrency _ _ _
                (pool_init_inv items worker concurrency) Hrun) as Hinv.
  split; [|split].
  - rewrite <- (inv_runners _ _ _ _ Hinv). apply List.filter_length_le.
  - intros r idx H. pose proof (inv_awaiting _ _ _ _ Hinv _ _ H).
    pose proof (inv_bound _ _ _ _ Hinv). lia.
  - eapply waiting_distinct; [apply pool_init_inv| |exact Hrun].
    intros r1 r2 idx H. cbn in H. apply lookup_replicate in H as [H _]. discriminate.
Qed.

End PoolTrace.

Lemma pool_calls_each_item_once_witness :
  (0 < 5)%nat
  /\ pool_started three_orders offline_worker interleaved_schedule (pool_init 5)
     = [0; 1; 2]%nat.
Proof.
  split; [lia|].
  apply (pool_calls_each_item_once three_orders offline_worker 5 interleaved_schedule
           [Some (slot_of (offline_worker (JObj [("id", JNum 1)]) 0));
            Some (slot_of (offline_worker JNull 1));
            Some (slot_of (offline_worker (JObj [("order_id", JNum 3)]) 2))]);
    [lia | vm_compute; reflexivity].
Defined.

Lemma pool_in_flight_witness :
  pool_run three_orders offline_worker [0; 1; 2]%nat (pool_init 5)
  = Some (mkPool 3 [] [Awaiting 0; Awaiting 1; Awaiting 2; AtLoopHead; AtLoopHead])
  /\ (length (List.filter waiting
                [Awaiting 0; Awaiting 1; Awaiting 2; AtLoopHead; AtLoopHead])
      <= 5)%nat.
Proof.
  split; [vm_compute; reflexivity|].
  apply (pool_in_flight three_orders offline_worker 5 [0; 1; 2]%nat
           (mkPool 3 [] [Awaiting 0; Awaiting 1; Awaiting 2; AtLoopHead; AtLoopHead])).
  vm_compute; reflexivity.
Defined.

(** *** The representative shipment *)

Lemma first_listing_shape liId ss :
  Forall shipment_shape ss ->
  first_listing liId ss = Ok (first_reference liId ss).
Proof.
  unfold first_reference.
  induction 1 as [|s ss Hs _ IH]; cbn [first_listing List.filter]; [reflexivity|].
  rewrite (lists_line_item_shape _ liId Hs). cbn [bind].
  destruct (references liId s); [reflexivity | exact IH].
Qed.



(** *** Rows, orders and line items *)

Lemma mapM_lookup {A B} (f : A -> Res B) (l : list A) (ys : list B) :
  mapM f l = Ok ys ->
  length ys = length l
  /\ forall i x, l !! i = Some x -> exists y, ys !! i = Some y /\ f x = Ok y.
Proof.
  revert ys. induction l as [|a l IH]; intros ys H; cbn [mapM] in H.
  - injection H as <-. split; [reflexivity|]. intros i x Hi. discriminate Hi.
  - destruct (f a) as [b|] eqn:Hb; cbn [bind] in H; [|discriminate H].
    destruct (mapM f l) as [bs|]; cbn [bind] in H; [|discriminate H].
    injection H as <-. destruct (IH bs eq_refl) as [Hlen Hall].
    split; [cbn [length]; rewrite Hlen; reflexivity|].
    intros [|i] x Hi; cbn in Hi.
    + injection Hi as <-. exists b. split; [reflexivity | exact Hb].
    + exact (Hall i x Hi).
Qed.

Lemma prop_inv v k x : prop v k = Ok x -> nullish v = false /\ x = prop_of v k.
Proof.
  unfold prop. destruct (nullish v); [discriminate|].
  intros [= <-]. split; reflexivity.
Qed.

Lemma as_array_inv method v xs : as_array method v = Ok xs -> v = JArr xs.
Proof. destruct v; cbn; try discriminate. intros [= <-]. reflexivity. Qed.

Lemma or_chain_inv order k1 k2 d x y :
  prop order k1 = Ok y ->
  (prop order k1 ||| prop order k2 ||| Ok d) = Ok x ->
  x = or_val (prop_of order k1) (or_val (prop_of order k2) d).
Proof.
  intros Hy. apply prop_inv in Hy as [Hn _].
  rewrite !(prop_ok _ _ Hn), !orM_ok, or_val_assoc. intros [= <-]. reflexivity.
Qed.

Lemma detailed_row_cells order shipments li row :
  detailed_row order shipments li = Ok row ->
  cell "Order #" row = order_number order
  /\ cell "Line Item ID" row = line_item_number li
  /\ trackingForLineItem (JObj [("order", order); ("shipments", shipments)])
       (prop_of li "id")
     = Ok (cell "Tracking #" row).
Proof.
  intros H. unfold detailed_row in H.
  destruct (prop li "id") as [liId|] eqn:Hli; cbn [bind] in H; [|discriminate H].
  apply prop_inv in Hli as [Hn ->].
  destruct (trackingForLineItem _ (prop_of li "id")) as [tracking|] eqn:Ht;
    cbn [bind] in H; [|discriminate H].
  destruct (prop order "order_id") as [oid|] eqn:Hoid.
  - apply prop_inv in Hoid as [Ho ->].
    rewrite !(prop_ok _ _ Ho), !orM_ok in H.
    res_inv H. injection H as <-.
    unfold order_number, line_item_number. rewrite <- or_val_assoc.
    repeat split.
  - exfalso. res_inv H.
    match goal with
    | E : (Throw _ ||| _ ||| _) = Ok _ |- _ => discriminate E
    end.
Qed.

Lemma summary_row_cells order row :
  summary_row order = Ok row ->
  cell "Order #" row = order_number order
  /\ Forall (fun c => cell c row = JStr "") line_item_columns.
Proof.
  intros H. unfold summary_row in H.
  destruct (prop order "order_id") as [oid|] eqn:Hoid.
  - apply prop_inv in Hoid as [Ho ->].
    rewrite !(prop_ok _ _ Ho), !orM_ok in H.
    res_inv H. injection H as <-.
    unfold order_number. rewrite <- or_val_assoc.
    split; [reflexivity|]. repeat constructor.
  - exfalso. res_inv H.
    match goal with
    | E : (Throw _ ||| _ ||| _) = Ok _ |- _ => discriminate E
    end.
Qed.

(** X17: when the rows of a slot are built, there is one row for each
    line item of the slot, in the order of the line items; the row of a
    line item carries the number of the slot's order, the id of the line
    item, and as its tracking number what the tracking resolution gives
    for that id and the slot's shipments. *)
Theorem rows_follow_line_items (slot : JsVal) (rows : list (list JsVal)) :
  rows_of_slot slot = Ok rows ->
  length rows = length (slot_line_items slot)
  /\ forall i li,
       slot_line_items slot !! i = Some li ->
       exists row,
         rows !! i = Some row
         /\ cell "Order #" row = order_number (prop_of slot "order")
         /\ cell "Line Item ID" row = line_item_number li
         /\ trackingForLineItem
              (JObj [("order", prop_of slot "order");
                     ("shipments", slot_shipments slot)])
              (prop_of li "id")
            = Ok (cell "Tracking #" row).
Proof.
  unfold rows_of_slot, slot_line_items, slot_shipments. intros H.
  destruct (prop slot "order") as [order|] eqn:Ho; cbn [bind] in H; [|discriminate H].
  apply prop_inv in Ho as [Hn ->].
  rewrite !(prop_ok _ _ Hn) in H. cbn [bind] in H.
  destruct (as_array "forEach" _) as [lis|] eqn:Hl; cbn [bind] in H; [|discriminate H].
  apply as_array_inv in Hl. rewrite Hl. cbn [array_items].
  destruct (mapM_lookup _ _ _ H) as [Hlen Hall].
  split; [exact Hlen|].
  intros i li Hi. destruct (Hall i li Hi) as (row & Hrow & Hli).
  exists row. split; [exact Hrow|]. exact (detailed_row_cells _ _ _ _ Hli).
Qed.

Lemma concat_length {A} (ls : list (list A)) :
  length (concat ls) = list_sum (map (@length A) ls).
Proof.
  induction ls as [|l ls IH]; cbn [concat map list_sum]; [reflexivity|].
  rewrite length_app, IH. reflexivity.
Qed.

Lemma mapM_rows_of_slot enriched rowss :
  mapM rows_of_slot enriched = Ok rowss ->
  map (@length (list JsVal)) rowss
  = map (fun slot => length (slot_line_items slot)) enriched.
Proof.
  revert rowss. induction enriched as [|slot enriched IH]; intros rowss H;
    cbn [mapM] in H.
  - injection H as <-. reflexivity.
  - destruct (rows_of_slot slot) as [rows|] eqn:Hs; cbn [bind] in H; [|discriminate H].
    destruct (mapM rows_of_slot enriched) as [rest|]; cbn [bind] in H;
      [|discriminate H].
    injection H as <-. cbn [map]. rewrite (IH rest eq_refl).
    unfold rows_of_slot in Hs.
    destruct (prop slot "order") as [order|] eqn:Ho; cbn [bind] in Hs;
      [|discriminate Hs].
    apply prop_inv in Ho as [Hn ->].
    rewrite !(prop_ok _ _ Hn) in Hs. cbn [bind] in Hs.
    destruct (as_array "forEach" _) as [lis|] eqn:Hl; cbn [bind] in Hs;
      [|discriminate Hs].
    apply as_array_inv in Hl. unfold slot_line_items. rewrite Hl. cbn [array_items].
    destruct (mapM_lookup _ _ _ Hs) as [-> _]. reflexivity.
Qed.

(** X18: the number of rows of a run.  In detailed mode it is the total
    number of line items over the slots the pool returned, so an order
    weighs as many rows as it has line items; in any other mode there is
    one row for each order, in the order of the orders, with the order's
    number and with every line-item column empty. *)
Theorem run_row_count (reportType : JsVal) (orders enriched : list JsVal)
    (rows : list (list JsVal)) :
  build_rows reportType orders enriched = Ok rows ->
  if is_str reportType "Needed Excel"
  then length rows = list_sum (map (fun slot => length (slot_line_items slot)) enriched)
  else length rows = length orders
       /\ forall i order,
            orders !! i = Some order ->
            exists row,
              rows !! i = Some row
              /\ cell "Order #" row = order_number order
              /\ Forall (fun c => cell c row = JStr "") line_item_columns.
Proof.
  unfold build_rows. destruct (is_str reportType "Needed Excel"); intros H.
  - destruct (mapM rows_of_slot enriched) as [rowss|] eqn:Hs; cbn [bind] in H;
      [|discriminate H].
    injection H as <-. rewrite concat_length, (mapM_rows_of_slot _ _ Hs). reflexivity.
  - destruct (mapM_lookup _ _ _ H) as [Hlen Hall]. split; [exact Hlen|].
    intros i order Hi. destruct (Hall i order Hi) as (row & Hrow & Ho).
    exists row. split; [exact Hrow|]. exact (summary_row_cells _ _ Ho).
Qed.

Lemma rows_follow_line_items_witness :
  exists rows,
    rows_of_slot two_item_slot = Ok rows
    /\ length rows = 2%nat
    /\ map (cell "Line Item ID") rows = [JStr "1"; JStr ""]
    /\ map (cell "Tracking #") rows = [JStr "T1; T3"; JStr "T1; T2; T3"].
Proof.
  destruct (rows_of_slot two_item_slot) as [rows|] eqn:H;
    [|vm_compute in H; discriminate H].
  exists rows. split; [reflexivity|].
  destruct (rows_follow_line_items two_item_slot rows H) as [Hlen _].
  split; [exact Hlen|].
  vm_compute in H. injection H as <-. split; reflexivity.
Defined.

Lemma run_row_count_witness :
  exists rows,
    build_rows (JStr "Summary") two_orders [] = Ok rows
    /\ length rows = 2%nat
    /\ map (cell "Order #") rows = [JStr "7"; JStr "3"].
Proof.
  destruct (build_rows (JStr "Summary") two_orders []) as [rows|] eqn:H;
    [|vm_compute in H; discriminate H].
  exists rows. split; [reflexivity|].
  split; [exact (proj1 (run_row_count (JStr "Summary") two_orders [] rows H))|].
  vm_compute in H. injection H as <-. reflexivity.
Defined.

(** *** Runs that do not fail *)

Lemma returns_get obj ks : returns (get obj ks).
Proof.
  induction ks as [|k ks IH]; cbn [get]; [eexists; reflexivity|].
  destruct (truthy obj) eqn:Ht; cbn [negb]; [|exact IH].
  rewrite (prop_ok _ _ (truthy_defined _ Ht)). cbn [bind].
  destruct (_ && _); [eexists; reflexivity | exact IH].
Qed.

Lemma returns_text_get obj ks :
  textual_names obj -> incl ks name_aliases -> returns_text (get obj ks).
Proof.
  intros Hobj. induction ks as [|k ks IH]; intros Hin; cbn [get];
    [eexists; reflexivity|].
  assert (Hks : incl ks name_aliases) by (intros x Hx; apply Hin; right; exact Hx).
  destruct (truthy obj) eqn:Ht; cbn [negb]; [|exact (IH Hks)].
  rewrite (prop_ok _ _ (truthy_defined _ Ht)). cbn [bind].
  unfold textual_names in Hobj. rewrite List.Forall_forall in Hobj.
  specialize (Hobj k (Hin k (or_introl eq_refl))).
  destruct (prop_of obj k) eqn:Hv; cbn [is_undefined is_null negb andb];
    try exact (IH Hks);
    try (destruct Hobj as [Hobj | Hobj]; discriminate Hobj).
  destruct (negb _); [eexists; reflexivity | exact (IH Hks)].
Qed.

Lemma returns_or a b : returns a -> returns b -> returns (a ||| b).
Proof.
  intros [x ->] [y ->]. unfold orM. cbn [bind].
  destruct (truthy x); eexists; reflexivity.
Qed.

Lemma returns_text_or a b : returns_text a -> returns_text b -> returns_text (a ||| b).
Proof.
  intros [x ->] [y ->]. unfold orM. cbn [bind].
  destruct (truthy _); eexists; reflexivity.
Qed.

Lemma returns_ok {A} (v : A) : returns (Ok v).
Proof. eexists; reflexivity. Qed.

Lemma prop_of_default v k : prop_of (default_arg v (JObj [])) k = prop_of v k.
Proof. destruct v; reflexivity. Qed.

Lemma textual_or a b :
  textual_names a -> textual_names b -> textual_names (or_val a (or_val b (JObj []))).
Proof.
  intros Ha Hb. unfold or_val. destruct (truthy a); [exact Ha|].
  destruct (truthy b); [exact Hb|]. repeat constructor.
Qed.

Lemma returns_guard x b : (truthy x = true -> returns b) -> returns (Ok x &&& b).
Proof.
  intros H. unfold andM. cbn [bind].
  destruct (truthy x); [exact (H eq_refl) | eexists; reflexivity].
Qed.

Lemma guard_passed x b r : (Ok x &&& b) = Ok r -> truthy r = true -> b = Ok r.
Proof.
  unfold andM. cbn [bind]. destruct (truthy x) eqn:Hx; [intros H _; exact H|].
  intros [= <-] Hr. congruence.
Qed.

Lemma returns_prop v k : truthy v = true -> returns (prop v k).
Proof. intros H. rewrite (prop_ok _ _ (truthy_defined _ H)). eexists; reflexivity. Qed.

Lemma returns_bind {A B} (m : Res A) (k : A -> Res B) :
  returns m -> (forall x, returns (k x)) -> returns (bind m k).
Proof. intros [x ->] H. exact (H x). Qed.

Lemma returns_first_shipment es :
  returns (Ok (JBool (is_array es)) &&& (es' <- Ok es ;; prop es' "0")).
Proof.
  apply returns_guard. cbn [truthy bind]. intros H.
  apply returns_prop. destruct es; (discriminate || reflexivity).
Qed.

Ltac bind_step :=
  match goal with
  | |- returns_text (bind ?m _) =>
      let x := fresh "x" in
      let E := fresh "E" in
      assert (E : returns m);
      [ | destruct E as [x E]; rewrite E; cbn [bind] ]
  end.

Ltac returns_chain :=
  repeat first
    [ apply returns_ok
    | apply returns_get
    | apply returns_or
    | apply returns_first_shipment
    | apply returns_prop; assumption ].

Lemma composeAddressBlob_returns (addr order extras : JsVal) :
  order <> JNull ->
  textual_names addr ->
  textual_names (prop_of order "billing_contact") ->
  textual_names (prop_of order "shipping_contact") ->
  returns_text (composeAddressBlob addr order extras).
Proof.
  intros Hnull Haddr Hbc Hsc. unfold composeAddressBlob. cbv zeta.
  assert (Ho : nullish (default_arg order (JObj [])) = false)
    by (destruct order; try reflexivity; congruence).
  assert (Haddr' : textual_names (default_arg addr (JObj [])))
    by (destruct addr; try exact Haddr; repeat constructor).
  rewrite <- (prop_of_default order) in Hbc, Hsc.
  generalize dependent (default_arg order (JObj [])). clear order Hnull.
  intros order Hbc Hsc Ho.
  generalize dependent (default_arg addr (JObj [])). clear addr Haddr.
  intros addr Haddr.
  generalize (default_arg extras (JObj [])). clear extras. intros extras.
  rewrite !(prop_ok _ _ Ho), !orM_ok, !or_val_assoc.
  (* role *)
  bind_step; [apply returns_guard; intros; returns_chain|].
  rename x into roleSet, E into EroleSet.
  bind_step.
  { destruct (truthy roleSet) eqn:Hr; [|returns_chain].
    rewrite (guard_passed _ _ _ EroleSet Hr). returns_chain. }
  rename x into role. clear E.
  (* the contact *)
  assert (Hcf : exists cf,
             (if is_str role "billing"
              then Ok (or_val (prop_of order "billing_contact")
                         (or_val (prop_of order "shipping_contact") (JObj [])))
              else if is_str role "shipping"
              then Ok (or_val (prop_of order "shipping_contact")
                         (or_val (prop_of order "billing_contact") (JObj [])))
              else Ok (or_val (prop_of order "shipping_contact")
                         (or_val (prop_of order "billing_contact") (JObj []))))
             = Ok cf /\ textual_names cf).
  { destruct (is_str role "billing"); [|destruct (is_str role "shipping")];
      eexists; (split; [reflexivity|]); apply textual_or; assumption. }
  destruct Hcf as (cf & -> & Hcf). cbn [bind].
  bind_step; [apply returns_guard; intros; returns_chain|].
  rename x into hasContact. clear E.
  assert (Hcontact : textual_names (if truthy hasContact then addr else cf))
    by (destruct (truthy hasContact); assumption).
  generalize dependent (if truthy hasContact then addr else cf). intros contact Hcontact.
  bind_step;
    [destruct (is_str role "billing"); [|destruct (is_str role "shipping")];
     returns_chain|].
  rename x into orderAddr. clear E.
  (* the shipment *)
  bind_step.
  { apply returns_guard. intros Hex.
    rewrite !(prop_ok _ _ (truthy_defined _ Hex)). returns_chain. }
  rename x into hasShipment, E into EhasShipment.
  bind_step.
  { destruct (truthy hasShipment) eqn:Hs; [|returns_chain].
    rewrite (guard_passed _ _ _ EhasShipment Hs). returns_chain. }
  rename x into shipment. clear E.
  bind_step; [destruct (truthy shipment) eqn:Hs; returns_chain|].
  rename x into shipmentAddr. clear E.
  (* the name *)
  destruct (returns_text_or _ _
              (returns_text_get addr ["first_name"; "first"; "firstName"; "firstname"]
                 Haddr ltac:(intros k Hk; cbn in *; tauto))
              (returns_text_get contact ["first_name"; "first"; "firstName"; "firstname"]
                 Hcontact ltac:(intros k Hk; cbn in *; tauto)))
    as [first ->]. cbn [bind].
  destruct (returns_text_or _ _
              (returns_text_get addr ["last_name"; "last"; "lastName"; "lastname"]
                 Haddr ltac:(intros k Hk; cbn in *; tauto))
              (returns_text_get contact ["last_name"; "last"; "lastName"; "lastname"]
                 Hcontact ltac:(intros k Hk; cbn in *; tauto)))
    as [last ->]. cbn [bind].
  bind_step.
  { destruct (truthy _); [|returns_chain].
    unfold or_val. destruct (truthy (JStr first)), (truthy (JStr last));
      cbn [call_trim bind]; returns_chain. }
  rename x into fullName. clear E.
  bind_step;
    [destruct (negb _); [apply returns_bind; [apply returns_get|intros]|];
     returns_chain|].
  rename x into finalName. clear E.
  bind_step;
    [destruct (_ && _); [apply returns_bind; [apply returns_get|intros]|];
     returns_chain|].
  clear E.
  repeat (bind_step; [returns_chain | clear E]).
  eexists; reflexivity.
Qed.

Lemma returns_pick obj ks : returns (pick obj ks).
Proof.
  induction ks as [|k ks IH]; cbn [pick]; [eexists; reflexivity|].
  destruct (truthy obj) eqn:Ht; cbn [negb]; [|exact IH].
  rewrite (prop_ok _ _ (truthy_defined _ Ht)). cbn [bind].
  destruct (_ && _); [eexists; reflexivity | exact IH].
Qed.

Lemma assoc_In k v kvs : assoc k kvs = Some v -> In (k, v) kvs.
Proof.
  induction kvs as [|[k0 v0] kvs IH]; cbn; [discriminate|].
  destruct (String.eqb_spec k0 k) as [->|Hne].
  - intros [= <-]. left; reflexivity.
  - intros H. right. exact (IH H).
Qed.

Lemma textual_entries_names v : textual_entries v -> textual_names v.
Proof.
  intros H. unfold textual_names. rewrite List.Forall_forall. intros k Hk.
  assert (Hp : prop_of v k = default JUndefined (assoc k (own_entries v))).
  { destruct v; try reflexivity; cbn [prop_of];
      replace (k =? "length")%string with false; try reflexivity;
      cbn in Hk; repeat (destruct Hk as [<-|Hk]; [reflexivity|]); destruct Hk. }
  rewrite Hp. destruct (assoc k (own_entries v)) as [x|] eqn:Hx;
    [|left; reflexivity].
  apply assoc_In in Hx. unfold textual_entries in H. rewrite List.Forall_forall in H.
  exact (H _ Hx Hk).
Qed.

Lemma textual_entries_or a b :
  textual_entries a -> textual_entries b -> textual_entries (or_val a b).
Proof. intros Ha Hb. unfold or_val. destruct (truthy a); assumption. Qed.

Lemma textual_entries_empty : textual_entries (JObj []).
Proof. constructor. Qed.

Lemma set_key_textual k v m :
  textual_entry (k, v) -> Forall textual_entry m -> Forall textual_entry (set_key k v m).
Proof.
  intros Hkv. induction 1 as [|[k0 v0] m H0 Hm IH]; cbn [set_key].
  - apply List.Forall_cons; [exact Hkv | apply List.Forall_nil].
  - destruct (String.eqb_spec k0 k) as [->|Hne];
      apply List.Forall_cons; assumption.
Qed.

Lemma assign1_textual target src :
  Forall textual_entry target -> textual_entries src ->
  Forall textual_entry (assign1 target src).
Proof.
  unfold assign1, textual_entries. generalize (own_entries src). intros es.
  revert target. induction es as [|[k v] es IH]; intros target Ht Hes; cbn [fold_left].
  - exact Ht.
  - apply IH.
    + apply set_key_textual; [|exact Ht]. exact (List.Forall_inv Hes).
    + exact (List.Forall_inv_tail Hes).
Qed.

Lemma object_assign_textual srcs :
  Forall textual_entries srcs -> textual_entries (object_assign srcs).
Proof.
  unfold object_assign, textual_entries at 2. cbn [own_entries].
  assert (H0 : Forall textual_entry []) by constructor. revert H0.
  generalize (@nil (string * JsVal)). intros target Ht Hs. revert target Ht.
  induction Hs as [|src srcs Hsrc _ IH]; intros target Ht; cbn [fold_left].
  - exact Ht.
  - apply IH. apply assign1_textual; assumption.
Qed.

Lemma textual_order_party order party :
  textual_order order -> In party party_fields ->
  textual_entries (prop_of order party).
Proof.
  intros [_ H] Hin. rewrite List.Forall_forall in H. exact (H _ Hin).
Qed.

Lemma merged_party_textual order party :
  textual_order order ->
  In party party_fields -> In (party ++ "_address") party_fields ->
  In (party ++ "_contact") party_fields ->
  exists merged, merged_party order party = Ok merged /\ textual_names merged.
Proof.
  intros Ho H1 H2 H3. unfold merged_party.
  rewrite !(prop_ok _ _ (proj1 Ho)), !orM_ok. cbn [bind].
  eexists. split; [reflexivity|].
  apply textual_entries_names, object_assign_textual.
  repeat (apply List.Forall_cons;
          [apply textual_entries_or;
           [apply textual_order_party; assumption | apply textual_entries_empty]|]).
  apply List.Forall_nil.
Qed.

Ltac in_list := cbn; tauto.

Lemma summary_row_returns order :
  textual_order order -> exists row, summary_row order = Ok row.
Proof.
  intros Ho. pose proof (proj1 Ho) as Hn. unfold summary_row.
  rewrite !(prop_ok _ _ Hn), !orM_ok. cbn [bind].
  assert (Hnull : order <> JNull) by (intros ->; discriminate Hn).
  assert (Hp : forall party, In party party_fields -> textual_names (prop_of order party))
    by (intros party Hin; apply textual_entries_names, textual_order_party; assumption).
  destruct (composeAddressBlob_returns
              (or_val (prop_of order "billing")
                 (or_val (prop_of order "billing_address") (JObj [])))
              order JUndefined Hnull) as [b Hb];
    [apply textual_or; apply Hp; in_list | apply Hp; in_list | apply Hp; in_list|].
  destruct (composeAddressBlob_returns
              (or_val (prop_of order "shipping")
                 (or_val (prop_of order "shipping_address") (JObj [])))
              order JUndefined Hnull) as [s Hs];
    [apply textual_or; apply Hp; in_list | apply Hp; in_list | apply Hp; in_list|].
  rewrite <- !or_val_assoc in Hb, Hs. rewrite Hb, Hs. cbn [bind].
  destruct (merged_party_textual order "billing" Ho) as (bm & -> & _); try in_list.
  destruct (merged_party_textual order "shipping" Ho) as (sm & -> & _); try in_list.
  cbn [bind].
  repeat match goal with
         | |- exists row, bind ?m _ = Ok row =>
             let E := fresh "E" in
             assert (E : returns m);
             [repeat first [apply returns_ok | apply returns_pick | apply returns_or]
             | destruct E as [? E]; rewrite E; cbn [bind]; clear E]
         end.
  eexists; reflexivity.
Qed.

Lemma tracking_returns order lineItemId ss :
  Forall shipment_shape ss ->
  returns (trackingForLineItem (JObj [("order", order); ("shipments", JArr ss)])
             lineItemId).
Proof.
  intros Hall. unfold trackingForLineItem, default_arg. cbn [is_undefined].
  destruct (tracking_arg_shipments order (JArr ss)) as [-> ->]. cbn [bind truthy negb].
  rewrite (prop_ok (JArr ss) "length" eq_refl). cbn [bind].
  destruct (is_num _ 0); [eexists; reflexivity|]. cbn [as_array bind].
  rewrite (collect_tracking_fold lineItemId ss [] Hall). cbn [bind].
  destruct (_ <? _)%nat; [eexists; reflexivity|].
  rewrite (mapM_tracking_of ss Hall). cbn [bind].
  destruct (_ <? _)%nat; eexists; reflexivity.
Qed.

Lemma structured_fields_returns merged order :
  returns (structured_fields merged order).
Proof.
  unfold structured_fields.
  repeat match goal with
         | |- returns (bind ?m _) =>
             let E := fresh "E" in
             assert (E : returns m);
             [repeat first [apply returns_ok | apply returns_pick | apply returns_or
                           | match goal with
                             | |- returns (if ?c then _ else _) => destruct c
                             end]
             | destruct E as [? E]; rewrite E; cbn [bind]; clear E]
         end.
  apply returns_ok.
Qed.

Lemma formatProductOptions_returns opts : returns (formatProductOptions opts).
Proof. destruct (formatProductOptions_string opts) as [s H]. exists (JStr s). exact H. Qed.

Lemma personalization_returns pp :
  existsb broken_personalization (personalization_items pp) = false ->
  returns (formatProductPersonalization pp).
Proof.
  intros H. pose proof (personalization_outcome pp) as Hp.
  rewrite H in Hp. destruct Hp as [s Hs]. exists (JStr s). exact Hs.
Qed.

Lemma returns_text_returns m : returns_text m -> returns m.
Proof. intros [s H]. exists (JStr s). exact H. Qed.

Lemma detailed_row_returns order ss li :
  textual_order order -> Forall shipment_shape ss -> readable_line_item li ->
  returns (detailed_row order (JArr ss) li).
Proof.
  intros Ho Hss [Hli Hpp]. pose proof (proj1 Ho) as Hn. unfold detailed_row.
  rewrite !(prop_ok _ _ Hli), !(prop_ok _ _ Hn), !(prop_ok (JArr ss) _ eq_refl), !orM_ok.
  cbn [bind].
  destruct (tracking_returns order (prop_of li "id") ss Hss) as [tracking ->].
  cbn [bind as_iterable]. rewrite (first_listing_shape _ _ Hss). cbn [bind].
  assert (Hnull : order <> JNull) by (intros ->; discriminate Hn).
  assert (Hp : forall party, In party party_fields -> textual_names (prop_of order party))
    by (intros party Hin; apply textual_entries_names, textual_order_party; assumption).
  destruct (merged_party_textual order "billing" Ho) as (bm & Eb & Hbm); try in_list.
  destruct (merged_party_textual order "shipping" Ho) as (sm & Es & Hsm); try in_list.
  rewrite !or_val_assoc, Eb, Es. fold (line_item_personalization li).
  repeat match goal with
         | |- returns (bind ?m _) =>
             let E := fresh "E" in
             assert (E : returns m);
             [ first
                 [ exact (personalization_returns _ Hpp)
                 | apply formatProductOptions_returns
                 | apply structured_fields_returns
                 | apply returns_text_returns, composeAddressBlob_returns;
                   [exact Hnull | assumption | apply Hp; in_list | apply Hp; in_list]
                 | repeat first
                     [ apply returns_ok
                     | apply returns_or
                     | apply returns_guard; intros
                     | apply returns_prop; assumption
                     | match goal with
                       | |- returns (if ?c then _ else _) => destruct c
                       end ] ]
             | destruct E as [? E]; rewrite E; cbn [bind];
               try (injection E as <-) ]
         end.
  apply returns_ok.
Qed.

(** X19: [composeAddressBlob] never throws, and returns a string, for
    every address, order and extras that print, in which the order is
    not [null] and the values under the first- and last-name keys of the
    address and of the order's two contact records are strings where
    they are present; for the order [null] it throws a [TypeError],
    whatever the address and the extras. *)
Theorem address_blob_never_throws (addr order extras : JsVal) :
  (printable addr = true ->
   printable order = true ->
   printable extras = true ->
   order <> JNull ->
   textual_names addr ->
   textual_names (prop_of order "billing_contact") ->
   textual_names (prop_of order "shipping_contact") ->
   exists s, composeAddressBlob addr order extras = Ok (JStr s))
  /\ (exists e, composeAddressBlob addr JNull extras = Throw e
                /\ err_name e = "TypeError").
Proof.
  split; [intros _ _ _; exact (composeAddressBlob_returns addr order extras)|].
  unfold composeAddressBlob. cbv zeta.
  change (default_arg JNull (JObj [])) with JNull.
  generalize (default_arg extras (JObj [])). intros ex.
  assert (E : returns (Ok ex &&& prop ex "role"))
    by (apply returns_guard; intros; returns_chain).
  destruct E as [roleSet E]. rewrite E. cbn [bind].
  assert (E' : returns (if truthy roleSet then prop ex "role" else Ok (JStr "auto"))).
  { destruct (truthy roleSet) eqn:Hr; [|returns_chain].
    rewrite (guard_passed _ _ _ E Hr). returns_chain. }
  destruct E' as [role ->]. cbn [bind].
  destruct (is_str role "billing"); [|destruct (is_str role "shipping")];
    eexists; split; reflexivity.
Qed.

Lemma rows_of_slot_returns slot : readable_slot slot -> returns (rows_of_slot slot).
Proof.
  intros (Hn & lis & Hlis & Hrest). unfold rows_of_slot.
  rewrite !(prop_ok _ _ Hn). cbn [bind]. rewrite Hlis. cbn [as_array bind].
  destruct Hrest as [-> | (Ho & Hall & ss & Hss & Hshape)]; [eexists; reflexivity|].
  unfold slot_shipments in Hss. rewrite Hss.
  apply mapM_total. intros li Hin. rewrite List.Forall_forall in Hall.
  exact (detailed_row_returns _ _ _ Ho Hshape (Hall _ Hin)).
Qed.

(** X20: a run produces its rows, without an exception, whenever its
    input is plain and can be read: in detailed mode when every slot the
    pool returned is readable (error markers are), in any other mode
    when every order is. *)
Theorem report_is_produced (reportType : JsVal) (orders enriched : list JsVal) :
  Forall (fun order => plain order = true) orders ->
  Forall (fun slot => plain slot = true) enriched ->
  (if is_str reportType "Needed Excel"
   then Forall readable_slot enriched
   else Forall textual_order orders) ->
  exists rows, build_rows reportType orders enriched = Ok rows.
Proof.
  intros _ _. unfold build_rows. destruct (is_str reportType "Needed Excel"); intros H.
  - destruct (mapM_total rows_of_slot enriched) as [rowss ->];
      [|eexists; reflexivity].
    rewrite List.Forall_forall in H. intros slot Hin.
    exact (rows_of_slot_returns slot (H _ Hin)).
  - apply mapM_total. rewrite List.Forall_forall in H. intros order Hin.
    exact (summary_row_returns order (H _ Hin)).
Qed.

Ltac textual_by_computation :=
  repeat (apply List.Forall_cons;
          [first [ intros _; first [left; reflexivity | right; reflexivity]
                 | intros H; cbn in H; intuition discriminate ]|]);
  apply List.Forall_nil.

Ltac names_by_computation :=
  repeat (apply List.Forall_cons; [first [left; reflexivity | right; reflexivity]|]);
  apply List.Forall_nil.

Lemma address_blob_never_throws_witness :
  composeAddressBlob sample_address sample_order JUndefined
  = Ok (JStr "Jo | NYC | jo@example.com").
Proof.
  assert (H1 : sample_order <> JNull) by discriminate.
  assert (H2 : textual_names sample_address) by names_by_computation.
  assert (H3 : textual_names (prop_of sample_order "billing_contact"))
    by names_by_computation.
  assert (H4 : textual_names (prop_of sample_order "shipping_contact"))
    by names_by_computation.
  destruct (proj1 (address_blob_never_throws sample_address sample_order JUndefined)
              eq_refl eq_refl eq_refl H1 H2 H3 H4) as [s Hs].
  rewrite Hs. vm_compute in Hs. injection Hs as <-. reflexivity.
Defined.

Lemma sample_order_textual : textual_order sample_order.
Proof.
  split; [reflexivity|].
  repeat (apply List.Forall_cons; [unfold textual_entries; cbn; textual_by_computation|]).
  apply List.Forall_nil.
Qed.

Lemma report_is_produced_witness :
  Forall readable_slot [two_item_slot; error_marker (TypeError "order is null")]
  /\ exists rows,
       build_rows (JStr "Needed Excel") two_orders
         [two_item_slot; error_marker (TypeError "order is null")] = Ok rows.
Proof.
  assert (H : Forall readable_slot
                [two_item_slot; error_marker (TypeError "order is null")]).
  { apply List.Forall_cons; [|apply List.Forall_cons; [|apply List.Forall_nil]].
    - split; [reflexivity|]. eexists. split; [reflexivity|]. right.
      split; [exact sample_order_textual|]. split.
      + repeat (apply List.Forall_cons; [split; reflexivity|]). apply List.Forall_nil.
      + exists sample_shipments. split; [reflexivity|].
        repeat (apply List.Forall_cons; [shape_by_computation|]). apply List.Forall_nil.
    - split; [reflexivity|]. exists []. split; [reflexivity|]. left; reflexivity. }
  split; [exact H|].
  refine (report_is_produced (JStr "Needed Excel") two_orders
            [two_item_slot; error_marker (TypeError "order is null")] _ _ H).
  - apply List.Forall_forall. intros order Hin.
    repeat (destruct Hin as [<-|Hin]; [reflexivity|]). destruct Hin.
  - apply List.Forall_forall. intros slot Hin.
    repeat (destruct Hin as [<-|Hin]; [reflexivity|]). destruct Hin.
Defined.

(** *** The configured stores *)

Lemma normalized_store_spec k v :
  store_config v ->
  exists kvs,
    normalized_store k v = JObj kvs
    /\ prop_of (JObj kvs) "token" = store_token k v
    /\ prop_of (JObj kvs) "label" = prop_of v "label"
    /\ prop_of (JObj kvs) "subdomain" = prop_of v "subdomain".
Proof.
  intros [Hf | (kvs & -> & Hnd & _)].
  - unfold normalized_store, store_token, or_val. rewrite Hf.
    exists [("token", JStr k)].
    destruct v as [| |b|n|s|xs|kvs]; try discriminate Hf; try (repeat split; reflexivity).
    cbn in Hf. apply negb_false_iff, String.eqb_eq in Hf. subst s.
    repeat split; reflexivity.
  - unfold normalized_store, store_token, or_val, object_assign.
    cbn [truthy fold_left]. unfold assign1. cbn [own_entries].
    rewrite (assign_entries_fresh kvs []) by exact Hnd. cbn [app].
    destruct (truthy (prop_of (JObj kvs) "token")) eqn:Ht; cbn [negb].
    + exists kvs. repeat split; reflexivity.
    + exists (set_key "token" (JStr k) kvs). cbn [own_entries prop_of].
      rewrite !assoc_set_key. repeat split; reflexivity.
Qed.

Lemma normalized_store_record k v : is_record (normalized_store k v).
Proof.
  unfold normalized_store, object_assign.
  destruct (negb _); eexists; reflexivity.
Qed.

Lemma fold_put_store es target :
  List.NoDup (map fst (target ++ es)%list) ->
  ~ In "__proto__" (map fst es) ->
  fold_left put_store es target
  = (target ++ map (fun kv => (fst kv, normalized_store (fst kv) (snd kv))) es)%list.
Proof.
  revert target. induction es as [|[k v] es IH]; intros target Hnd Hp; cbn [fold_left map].
  - rewrite app_nil_r. reflexivity.
  - unfold put_store at 2. cbn [fst snd].
    destruct (String.eqb_spec k "__proto__") as [->|_];
      [exfalso; apply Hp; left; reflexivity|].
    rewrite set_key_fresh.
    + rewrite IH.
      * rewrite <- app_assoc. reflexivity.
      * rewrite <- app_assoc, map_app. cbn [map fst app].
        rewrite map_app in Hnd. exact Hnd.
      * intros Hin. apply Hp. right. exact Hin.
    + rewrite map_app in Hnd. apply List.NoDup_remove_2 in Hnd.
      intros Hin. apply Hnd. apply in_or_app. left. exact Hin.
Qed.

Lemma assoc_map_In {A} (g : string * A -> JsVal) k v (es : list (string * A)) :
  List.NoDup (map fst es) -> In (k, v) es ->
  assoc k (map (fun kv => (fst kv, g kv)) es) = Some (g (k, v)).
Proof.
  induction es as [|[k0 v0] es IH]; intros Hnd Hin; [destruct Hin|].
  inversion Hnd as [|? ? Hnotin Hnd']; subst. cbn [map assoc fst].
  destruct Hin as [[= -> ->] | Hin].
  - rewrite String.eqb_refl. reflexivity.
  - destruct (String.eqb_spec k0 k) as [->|Hne].
    + exfalso. apply Hnotin. apply (in_map fst) in Hin. exact Hin.
    + exact (IH Hnd' Hin).
Qed.

Lemma mapM_listed_store (config : list (string * JsVal)) :
  Forall (fun kv => store_config (snd kv)) config ->
  mapM listed_store
    (map (fun kv => (fst kv, normalized_store (fst kv) (snd kv))) config)
  = Ok (map store_listing config).
Proof.
  induction 1 as [|[k v] config Hv _ IH]; cbn [map mapM]; [reflexivity|].
  rewrite IH. unfold listed_store, store_listing. cbn [fst snd].
  destruct (normalized_store_spec k v Hv) as (kvs & -> & _ & Hl & Hs).
  rewrite !(prop_ok (JObj kvs) _ eq_refl), orM_ok, Hl, Hs. reflexivity.
Qed.

(** X21: for a configuration that parses to a record of store records,
    [getConfiguredStores] keeps the keys in their order and gives every
    store a token, its own when it has a truthy one and its key
    otherwise, so that a store under a non-empty key always has a truthy
    token; [GET /api/stores] then lists, for each store and in that
    order, its key, its label (the key when it has none) and its
    subdomain.  For a store configured without a token the key that the
    listing shows is the token. *)
Theorem stores_are_normalized (text : string) (JSON_parse : string -> Res JsVal)
    (config : list (string * JsVal)) :
  text <> "" ->
  JSON_parse text = Ok (JObj config) ->
  List.NoDup (map fst config) ->
  ~ In "__proto__" (map fst config) ->
  Forall (fun kv => store_config (snd kv)) config ->
  exists stores,
    getConfiguredStores (Some text) JSON_parse = (JObj stores, [])
    /\ map fst stores = map fst config
    /\ (forall k v,
          In (k, v) config ->
          exists store,
            assoc k stores = Some store
            /\ prop_of store "token" = store_token k v
            /\ (k <> "" -> truthy (prop_of store "token") = true))
    /\ api_stores (Some text) JSON_parse = Ok (JArr (map store_listing config)).
Proof.
  intros Htext Hparse Hnd Hproto Hall.
  assert (Hstores : getConfiguredStores (Some text) JSON_parse
                    = (JObj (map (fun kv => (fst kv, normalized_store (fst kv) (snd kv)))
                                 config), [])).
  { unfold getConfiguredStores.
    destruct (String.eqb_spec text "") as [->|_]; [congruence|].
    rewrite Hparse. cbn [bind Object_entries nullish own_entries].
    rewrite (fold_put_store config [] Hnd Hproto). reflexivity. }
  eexists. split; [exact Hstores|]. split; [|split].
  - rewrite map_map. reflexivity.
  - intros k v Hin.
    exists (normalized_store k v). split.
    + exact (assoc_map_In (fun kv => normalized_store (fst kv) (snd kv)) k v config
               Hnd Hin).
    + rewrite List.Forall_forall in Hall.
      destruct (normalized_store_spec k v (Hall _ Hin)) as (kvs & -> & Ht & _).
      split; [exact Ht|]. intros Hk. rewrite Ht. unfold store_token, or_val.
      destruct (truthy (prop_of v "token")) eqn:E; [exact E|].
      cbn. destruct k; [congruence | reflexivity].
  - unfold api_stores. rewrite Hstores.
    cbn [fst Object_entries nullish own_entries bind].
    rewrite (mapM_listed_store config Hall). reflexivity.
Qed.

Lemma set_key_Forall (P : string * JsVal -> Prop) k v m :
  P (k, v) -> (forall k' v', P (k', v') -> P (k', v)) ->
  Forall P m -> Forall P (set_key k v m).
Proof.
  intros Hkv Hrepl. induction 1 as [|[k0 v0] m H0 Hm IH]; cbn [set_key].
  - apply List.Forall_cons; [exact Hkv | apply List.Forall_nil].
  - destruct (k0 =? k)%string; apply List.Forall_cons; try assumption.
    exact (Hrepl _ _ H0).
Qed.

Lemma fold_put_store_records es target :
  Forall (fun kv => is_record (snd kv)) target ->
  Forall (fun kv => is_record (snd kv)) (fold_left put_store es target).
Proof.
  revert target. induction es as [|[k v] es IH]; intros target Ht; cbn [fold_left];
    [exact Ht|].
  apply IH. unfold put_store. cbn [fst snd].
  destruct (k =? "__proto__")%string; [exact Ht|].
  apply set_key_Forall; [apply normalized_store_record | | exact Ht].
  intros k' v' _. apply normalized_store_record.
Qed.

Lemma mapM_listed_store_records (stores : list (string * JsVal)) :
  Forall (fun kv => is_record (snd kv)) stores ->
  exists listing, mapM listed_store stores = Ok listing.
Proof.
  intros H. apply mapM_total. rewrite List.Forall_forall in H.
  intros [k v] Hin. destruct (H _ Hin) as [kvs Hv]. cbn [snd] in Hv. subst v.
  unfold listed_store. cbn [fst snd].
  rewrite !(prop_ok (JObj kvs) _ eq_refl), orM_ok. eexists; reflexivity.
Qed.

(** X22: [GET /api/stores] never fails, whatever the environment holds
    and whatever the parser makes of it.  Without the variable, or with
    an empty one, there are no stores and nothing is logged; when the
    text does not parse, or parses to [null], there are no stores, the
    listing is empty and one warning is logged. *)
Theorem stores_endpoint_never_fails (env : option string)
    (JSON_parse : string -> Res JsVal) :
  (exists listing, api_stores env JSON_parse = Ok (JArr listing))
  /\ (env = None \/ env = Some "" ->
      getConfiguredStores env JSON_parse = (JObj [], []))
  /\ (forall text,
        env = Some text -> text <> "" ->
        (exists e, JSON_parse text = Throw e)
        \/ (exists v, JSON_parse text = Ok v /\ nullish v = true) ->
        getConfiguredStores env JSON_parse
        = (JObj [], ["BRIGHTSITES_STORES invalid JSON"])
        /\ api_stores env JSON_parse = Ok (JArr [])).
Proof.
  split; [|split].
  - assert (H : exists stores,
               fst (getConfiguredStores env JSON_parse) = JObj stores
               /\ Forall (fun kv => is_record (snd kv)) stores).
    { unfold getConfiguredStores.
      destruct env as [text|]; [|exists []; split; [reflexivity | constructor]].
      destruct (text =? "")%string; [exists []; split; [reflexivity | constructor]|].
      destruct (JSON_parse text) as [parsed|e]; cbn [bind];
        [|exists []; split; [reflexivity | constructor]].
      unfold Object_entries.
      destruct (nullish parsed); cbn [bind];
        [exists []; split; [reflexivity | constructor]|].
      eexists. split; [reflexivity|]. apply fold_put_store_records. constructor. }
    destruct H as (stores & Hs & Hrec). unfold api_stores. rewrite Hs.
    cbn [Object_entries nullish own_entries bind].
    destruct (mapM_listed_store_records stores Hrec) as [listing ->].
    eexists; reflexivity.
  - intros [-> | ->]; reflexivity.
  - intros text -> Htext Hbad.
    assert (H : getConfiguredStores (Some text) JSON_parse
                = (JObj [], ["BRIGHTSITES_STORES invalid JSON"])).
    { unfold getConfiguredStores.
      destruct (String.eqb_spec text "") as [->|_]; [congruence|].
      destruct Hbad as [[e ->] | (v & -> & Hv)]; [reflexivity|].
      cbn [bind]. unfold Object_entries. rewrite Hv. reflexivity. }
    split; [exact H|]. unfold api_stores. rewrite H. reflexivity.
Qed.

Lemma stores_are_normalized_witness :
  exists stores,
    getConfiguredStores (Some "{stores}") sample_parse = (JObj stores, [])
    /\ map fst stores = ["acme"; "tok-77"; "spare"]
    /\ api_stores (Some "{stores}") sample_parse
       = Ok (JArr [JObj [("key", JStr "acme"); ("label", JStr "Acme");
                         ("subdomain", JStr "acme")];
                   JObj [("key", JStr "tok-77"); ("label", JStr "tok-77");
                         ("subdomain", JStr "beta")];
                   JObj [("key", JStr "spare"); ("label", JStr "spare");
                         ("subdomain", JUndefined)]]).
Proof.
  destruct (stores_are_normalized "{stores}" sample_parse sample_config)
    as (stores & H1 & H2 & _ & H4).
  - discriminate.
  - reflexivity.
  - repeat constructor; cbn; intuition discriminate.
  - cbn; intuition discriminate.
  - apply List.Forall_cons; [|apply List.Forall_cons; [|apply List.Forall_cons;
                                                          [|apply List.Forall_nil]]].
    + right. eexists. split; [reflexivity|]. split.
      * repeat constructor; cbn; intuition discriminate.
      * cbn; intuition discriminate.
    + right. eexists. split; [reflexivity|]. split.
      * repeat constructor; cbn; intuition discriminate.
      * cbn; intuition discriminate.
    + left. reflexivity.
  - exists stores. split; [exact H1|]. split; [exact H2 | exact H4].
Defined.

Lemma stores_endpoint_never_fails_witness :
  getConfiguredStores (Some "not json") sample_parse
  = (JObj [], ["BRIGHTSITES_STORES invalid JSON"])
  /\ api_stores (Some "null") sample_parse = Ok (JArr []).
Proof.
  split.
  - refine (proj1 (proj2 (proj2 (stores_endpoint_never_fails (Some "not json")
                                   sample_parse))
                     "not json" eq_refl _ _)); [discriminate|].
    left. eexists. reflexivity.
  - refine (proj2 (proj2 (proj2 (stores_endpoint_never_fails (Some "null")
                                   sample_parse))
                     "null" eq_refl _ _)); [discriminate|].
    right. exists JNull. split; reflexivity.
Defined.

(** *** What the rows hold *)

Lemma pick_first_present obj ks : pick obj ks = Ok (first_present obj ks).
Proof.
  induction ks as [|k ks IH]; cbn [pick first_present]; [reflexivity|].
  destruct (truthy obj) eqn:Ht; cbn [negb andb]; [|exact IH].
  rewrite (prop_ok _ _ (truthy_defined _ Ht)). cbn [bind]. unfold present.
  destruct (_ && _); [reflexivity | exact IH].
Qed.

Lemma structured_fields_resolved merged order :
  structured_fields merged order = Ok (resolved_party merged order).
Proof.
  unfold structured_fields, resolved_party, full_name.
  rewrite !pick_first_present, !orM_ok. cbn [bind resolve].
  destruct (truthy (or_val _ _)); cbn [bind]; unfold or_val;
    repeat match goal with |- context [truthy ?x] => destruct (truthy x) eqn:? end;
    reflexivity.
Qed.

Lemma merged_party_resolved order name :
  nullish order = false -> merged_party order name = Ok (party order name).
Proof.
  intros Hn. unfold merged_party, party.
  rewrite !(prop_ok _ _ Hn), !orM_ok. reflexivity.
Qed.

Lemma guard_two rep k1 k2 :
  (Ok rep &&& (prop rep k1 ||| prop rep k2))
  = Ok (if truthy rep then or_val (prop_of rep k1) (prop_of rep k2) else rep).
Proof.
  unfold andM. cbn [bind]. destruct (truthy rep) eqn:Hr; [|reflexivity].
  rewrite !(prop_ok _ _ (truthy_defined _ Hr)), orM_ok. reflexivity.
Qed.

Lemma guard_one rep k m :
  (Ok rep &&& (prop rep k ||| Ok m))
  = Ok (if truthy rep then or_val (prop_of rep k) m else rep).
Proof.
  unfold andM. cbn [bind]. destruct (truthy rep) eqn:Hr; [|reflexivity].
  rewrite !(prop_ok _ _ (truthy_defined _ Hr)), orM_ok. reflexivity.
Qed.

Ltac cell_tac rep :=
  unfold or_val;
  destruct (truthy rep) eqn:?; cbn [resolve];
  repeat match goal with
         | H : truthy ?x = _ |- context [truthy ?x] => rewrite H
         | |- context [truthy ?x] =>
             tryif (match x with context [if _ then _ else _] => idtac end)
             then fail else destruct (truthy x) eqn:?
         end;
  try reflexivity; try congruence.

Ltac step H E :=
  match type of H with
  | bind ?m _ = Ok _ => destruct m eqn:E; cbn [bind] in H; [|discriminate H]
  end.

Lemma detailed_row_resolved order shipments li row :
  detailed_row order shipments li = Ok row -> resolved_detailed order shipments li row.
Proof.
  intros H. unfold detailed_row in H.
  destruct (prop li "id") as [liId|] eqn:Hli; cbn [bind] in H; [|discriminate H].
  apply prop_inv in Hli as [Hn ->].
  step H Et. step H Ess. step H El.
  destruct (prop shipments "length") as [more|] eqn:Hm; cbn [bind] in H; [|discriminate H].
  apply prop_inv in Hm as [Hs ->].
  rewrite !(prop_ok _ _ Hs) in H.
  assert (Er : (if negb (truthy a1) && truthy (prop_of shipments "length")
                then Ok (prop_of shipments "0") else Ok a1)
               = Ok (representative_of a1 shipments))
    by (unfold representative_of; destruct (_ && _); reflexivity).
  rewrite Er in H. cbn [bind] in H. clear Er.
  destruct (prop order "order_id") as [oid|] eqn:Hoid.
  2: { exfalso. res_inv H.
       match goal with
       | E : (Throw _ ||| _ ||| _) = Ok _ |- _ => discriminate E
       end. }
  apply prop_inv in Hoid as [Ho ->].
  rewrite !(prop_ok _ _ Ho), !(prop_ok _ _ Hn), !guard_two, !guard_one, !orM_ok in H.
  cbn [bind] in H.
  rewrite !(merged_party_resolved _ _ Ho) in H. cbn [bind] in H.
  rewrite !structured_fields_resolved in H.
  step H Ep. step H Eo. step H Eb. step H Esh. cbn [bind] in H.
  pose proof (yields_string_tracking _ _ _ Et) as St.
  pose proof (yields_string_personalization _ _ Ep) as Sp.
  pose proof (yields_string_options _ _ Eo) as So.
  pose proof (yields_string_blob _ _ _ _ Eb) as Sb.
  pose proof (yields_string_blob _ _ _ _ Esh) as Ss.
  destruct a as [| | | |tracking| |]; try discriminate St.
  destruct a2 as [| | | |pers| |]; try discriminate Sp.
  destruct a3 as [| | | |opts| |]; try discriminate So.
  destruct a4 as [| | | |binfo| |]; try discriminate Sb.
  destruct a5 as [| | | |sinfo| |]; try discriminate Ss.
  injection H as <-.
  exists a0, a1, tracking, pers, opts, binfo, sinfo.
  split; [exact Ess|]. split; [exact El|]. split; [exact Et|].
  split; [unfold line_item_personalization; rewrite <- !or_val_assoc; exact Ep|].
  split; [rewrite <- !or_val_assoc; exact Eo|].
  split; [exact Eb|]. split; [exact Esh|].
  cbn [app]. set (rep := representative_of a1 shipments).
  repeat (apply f_equal2; [cell_tac rep|]).
  reflexivity.
Qed.

Lemma resolve_one a : resolve [a] = or_val a (JStr "").
Proof. reflexivity. Qed.

Lemma resolve_two a b : resolve [a; b] = or_val (or_val a b) (JStr "").
Proof. cbn [resolve]. unfold or_val. destruct (truthy a) eqn:Ha; rewrite ?Ha; reflexivity. Qed.

Lemma summary_row_resolved order row :
  summary_row order = Ok row -> resolved_summary order row.
Proof.
  intros H. unfold summary_row in H.
  destruct (prop order "billing") as [b|] eqn:Hb; [|discriminate H].
  apply prop_inv in Hb as [Ho ->].
  rewrite !(prop_ok _ _ Ho), !orM_ok in H. cbn [bind] in H.
  rewrite !(merged_party_resolved _ _ Ho) in H.
  step H Eb. step H Es. cbn [bind] in H.
  rewrite !pick_first_present, !orM_ok in H. cbn [bind] in H.
  pose proof (yields_string_blob _ _ _ _ Eb) as Sb.
  pose proof (yields_string_blob _ _ _ _ Es) as Ss.
  destruct a as [| | | |binfo| |]; try discriminate Sb.
  destruct a0 as [| | | |sinfo| |]; try discriminate Ss.
  injection H as <-.
  exists binfo, sinfo.
  split; [rewrite <- or_val_assoc; exact Eb|].
  split; [rewrite <- or_val_assoc; exact Es|].
  rewrite !resolve_two, !resolve_one. reflexivity.
Qed.

Lemma mapM_In {A B} (f : A -> Res B) (l : list A) (ys : list B) (y : B) :
  mapM f l = Ok ys -> In y ys -> exists x, In x l /\ f x = Ok y.
Proof.
  revert ys. induction l as [|a l IH]; intros ys H Hin; cbn [mapM] in H.
  - injection H as <-. destruct Hin.
  - destruct (f a) as [b|] eqn:Hb; cbn [bind] in H; [|discriminate H].
    destruct (mapM f l) as [bs|]; cbn [bind] in H; [|discriminate H].
    injection H as <-. destruct Hin as [<- | Hin].
    + exists a. split; [left; reflexivity | exact Hb].
    + destruct (IH bs eq_refl Hin) as (x & Hx & Hfx).
      exists x. split; [right; exact Hx | exact Hfx].
Qed.

Lemma rows_of_slot_resolved slot rows row :
  rows_of_slot slot = Ok rows -> In row rows ->
  exists li, In li (slot_line_items slot)
             /\ resolved_detailed (prop_of slot "order") (slot_shipments slot) li row.
Proof.
  unfold rows_of_slot, slot_line_items, slot_shipments. intros H Hin.
  destruct (prop slot "order") as [order|] eqn:Ho; cbn [bind] in H; [|discriminate H].
  apply prop_inv in Ho as [Hn ->].
  rewrite !(prop_ok _ _ Hn) in H. cbn [bind] in H.
  destruct (as_array "forEach" _) as [lis|] eqn:Hl; cbn [bind] in H; [|discriminate H].
  apply as_array_inv in Hl. rewrite Hl. cbn [array_items].
  destruct (mapM_In _ _ _ _ H Hin) as (li & Hli & Hrow).
  exists li. split; [exact Hli|]. exact (detailed_row_resolved _ _ _ _ Hrow).
Qed.

Lemma resolve_unresolved sources :
  Forall (fun v => truthy v = false) sources -> resolve sources = JStr "".
Proof.
  induction 1 as [|v sources Hv _ IH]; cbn [resolve]; [reflexivity|].
  rewrite Hv. exact IH.
Qed.

Lemma first_present_unresolved obj keys :
  Forall (fun k => blank (prop_of obj k)) keys -> first_present obj keys = JStr "".
Proof.
  induction 1 as [|k keys Hk _ IH]; cbn [first_present]; [reflexivity|].
  unfold present. rewrite (blank_test _ Hk), andb_false_r. exact IH.
Qed.

(** C8: every row of a run that produces rows, in detailed mode and in
    summary mode, has one value for each of the 34 columns, and none of
    the values is [null] or [undefined].  A row holds, column by column,
    what the rules of resolution give for the order, the line item and
    the shipments it is made from: the first source of the field that
    holds something, the value under the first alias that is present,
    or the text a formatter returns; a field none of whose sources holds
    anything is the empty string, and so is every field of an order and
    a line item that have no field at all.  What a row holds is stated
    for orders and slots that are plain, in which [Object.assign] copies
    every key. *)
Theorem rows_are_complete (reportType : JsVal) (orders enriched : list JsVal)
    (rows : list (list JsVal)) :
  build_rows reportType orders enriched = Ok rows ->
  Forall complete_row rows
  /\ length ALL_COLUMNS = 34%nat
  /\ (Forall (fun order => plain order = true) orders ->
      Forall (fun slot => plain slot = true) enriched ->
      forall row,
        In row rows ->
        if is_str reportType "Needed Excel"
        then exists slot li,
               In slot enriched /\ In li (slot_line_items slot)
               /\ resolved_detailed (prop_of slot "order") (slot_shipments slot) li row
        else exists order, In order orders /\ resolved_summary order row)
  /\ (forall sources,
        Forall (fun v => truthy v = false) sources -> resolve sources = JStr "")
  /\ (forall obj keys,
        Forall (fun k => blank (prop_of obj k)) keys -> first_present obj keys = JStr "")
  /\ detailed_row (JObj []) (JArr []) (JObj []) = Ok (repeat (JStr "") 34)
  /\ summary_row (JObj []) = Ok (repeat (JStr "") 34).
Proof.
  intros H. split; [|split; [reflexivity|split; [|split; [|split; [|split]]]]].
  - unfold build_rows in H. destruct (is_str reportType "Needed Excel").
    + res_inv H. injection H as <-.
      apply Forall_concat.
      eapply mapM_Forall; [|eassumption].
      intros slot rs. apply rows_of_slot_complete.
    + eapply mapM_Forall; [|exact H].
      intros order row. apply summary_row_complete.
  - intros _ _ row Hin. unfold build_rows in H.
    destruct (is_str reportType "Needed Excel").
    + destruct (mapM rows_of_slot enriched) as [rowss|] eqn:Hs; cbn [bind] in H;
        [|discriminate H].
      injection H as <-. apply in_concat in Hin as (rs & Hrs & Hin).
      destruct (mapM_In _ _ _ _ Hs Hrs) as (slot & Hslot & Hrows).
      destruct (rows_of_slot_resolved _ _ _ Hrows Hin) as (li & Hli & Hres).
      exists slot, li. split; [exact Hslot|]. split; [exact Hli | exact Hres].
    + destruct (mapM_In _ _ _ _ H Hin) as (order & Horder & Hrow).
      exists order. split; [exact Horder|]. exact (summary_row_resolved _ _ Hrow).
  - exact resolve_unresolved.
  - exact first_present_unresolved.
  - reflexivity.
  - reflexivity.
Qed.

Lemma rows_are_complete_witness :
  exists detailed summary,
    build_rows (JStr "Needed Excel") [sample_order] [sample_slot] = Ok [detailed]
    /\ build_rows (JStr "Summary") [sample_order] [] = Ok [summary]
    /\ complete_row detailed
    /\ complete_row summary
    /\ cell "Tracking #" detailed = JStr "T2"
    /\ cell "Ship Method" detailed = JStr ""
    /\ cell "Ship Date" detailed = JStr ""
    /\ cell "Billing Name" detailed = JStr "Jo"
    /\ cell "Billing Company" detailed = JStr ""
    /\ resolved_summary sample_order summary.
Proof.
  assert (Hd : exists row, build_rows (JStr "Needed Excel") [sample_order] [sample_slot]
                           = Ok [row]
                           /\ cell "Tracking #" row = JStr "T2"
                           /\ cell "Ship Method" row = JStr ""
                           /\ cell "Ship Date" row = JStr ""
                           /\ cell "Billing Name" row = JStr "Jo"
                           /\ cell "Billing Company" row = JStr "").
  { eexists. split; [vm_compute; reflexivity|]. repeat split. }
  assert (Hs : exists row, build_rows (JStr "Summary") [sample_order] [] = Ok [row]).
  { eexists. vm_compute. reflexivity. }
  destruct Hd as (detailed & Hd & Hcells). destruct Hs as (summary & Hs).
  exists detailed, summary.
  pose proof (proj1 (rows_are_complete _ _ _ _ Hd)) as Fd.
  destruct (rows_are_complete _ _ _ _ Hs) as (Fs & _ & Hres & _).
  apply Forall_cons in Fd as [Fd _]. apply Forall_cons in Fs as [Fs _].
  split; [exact Hd|]. split; [exact Hs|]. split; [exact Fd|]. split; [exact Fs|].
  destruct Hcells as (H1 & H2 & H3 & H4 & H5).
  split; [exact H1|]. split; [exact H2|]. split; [exact H3|]. split; [exact H4|].
  split; [exact H5|].
  destruct (Hres ltac:(repeat constructor) ltac:(constructor) summary
              (or_introl eq_refl)) as (order & [<- | []] & Hsum).
  exact Hsum.
Defined.
